(** * The landlord card game engine of [open_spiel/games/gi_tcg/gi_tcg.cc]

    A shallow embedding of [GITCGState]: the deal, the auction that elects
    the landlord ([dizhu_]), the trick loop of the play phase and the
    settlement ([ScoreUp]).  Every member function of the source becomes a
    function on an explicit state record; fatal errors and reads or writes
    outside an array become values of an error monad.

    The header [gi_tcg.h] and the helpers of [gi_tcg_utils] that the source
    file includes are not part of the source tree.  The constants, tables and
    helper functions they declare are the fields of the interface [Header],
    over which the engine is written; module [Sample] gives an instance so
    that the engine can be run on concrete inputs. *)

From Stdlib Require Import ZArith Lia.
From Stdlib Require Import String.
From Stdlib Require Import List.
From stdpp Require Import base tactics option list sorting.

Local Close Scope string_scope.

Local Open Scope Z_scope.

(** ** Errors

    [SpielFatalError] and a failed [SPIEL_CHECK_*] abort the process, and no
    state is returned.  An index outside a [std::array] or [std::vector] is
    undefined behaviour: the source fixes no result for the operation, and
    the model gives it none, with the error [OutOfRange]. *)

Inductive failure : Type :=
| SpielFatalError (msg : string)
| SpielCheckFailed
| OutOfRange.

Inductive result (A : Type) : Type :=
| Ok (a : A)
| Err (e : failure).

Arguments Ok {A} a.
Arguments Err {A} e.

Definition bind {A B : Type} (r : result A) (k : A -> result B) : result B :=
  match r with
  | Ok a => k a
  | Err e => Err e
  end.

Notation "'do' x <- e ; k" := (bind e (fun x => k))
  (at level 10, x name, e at level 100, k at level 200,
   format "'[v' 'do'  x  <-  e ; '/' k ']'").
Notation "'do' ' p <- e ; k" := (bind e (fun p => k))
  (at level 10, p strict pattern, e at level 100, k at level 200,
   format "'[v' 'do'  ' p  <-  e ; '/' k ']'").

Definition SPIEL_CHECK (b : bool) : result unit :=
  if b then Ok tt else Err SpielCheckFailed.



(** ** Machine integers

    [int] is 32 bits wide.  The counters of the state are bounded by the
    number of applied actions and are kept as plain integers; the doubling
    loop of [ScoreUp] is the one place where values grow geometrically, and
    its arithmetic is written with the wrap-around. *)

Definition int_wrap (x : Z) : Z := (x + 2 ^ 31) mod 2 ^ 32 - 2 ^ 31.

Definition INT_MAX : Z := 2 ^ 31 - 1.

(** ** Arrays and vectors *)

Definition arr_get {A : Type} (l : list A) (i : Z) : result A :=
  if decide (0 <= i) then
    match l !! Z.to_nat i with
    | Some x => Ok x
    | None => Err OutOfRange
    end
  else Err OutOfRange.

Definition arr_set {A : Type} (l : list A) (i : Z) (x : A) : result (list A) :=
  do _ <- arr_get l i; Ok (<[Z.to_nat i := x]> l).

Definition arr_upd {A : Type} (l : list A) (i : Z) (f : A -> A)
  : result (list A) :=
  do x <- arr_get l i; Ok (<[Z.to_nat i := f x]> l).

(** [a[i][j] = f(a[i][j])] *)
Definition arr2_upd (a : list (list Z)) (i j : Z) (f : Z -> Z)
  : result (list (list Z)) :=
  do row <- arr_get a i;
  do row' <- arr_upd row j f;
  arr_set a i row'.

(** Reading where the index is known to be in range; 0 elsewhere. *)
Definition rd (l : list Z) (i : Z) : Z :=
  match arr_get l i with
  | Ok x => x
  | Err _ => 0
  end.

Definition rd2 (a : list (list Z)) (i j : Z) : Z :=
  match arr_get a i with
  | Ok row => rd row j
  | Err _ => 0
  end.

(** [for (i in idx) s = body(i, s)], stopping at the first error. *)
Fixpoint for_each {St : Type} (idx : list Z) (body : Z -> St -> result St)
  (s : St) : result St :=
  match idx with
  | [] => Ok s
  | i :: rest => do s' <- body i s; for_each rest body s'
  end.

Definition sumZ (l : list Z) : Z := foldr Z.add 0 l.

Definition sumZ2 (a : list (list Z)) : Z := sumZ (sumZ <$> a).

(** The row lengths of a two-dimensional array. *)
Definition shape (a : list (list Z)) : list nat := length <$> a.

(** Number of cards of rank [r] among [cards]. *)
Definition count_rank (r : Z) (cards : list Z) : Z :=
  Z.of_nat (length (filter (fun x => x = r) cards)).

(** ** Data model *)

Inductive Phase : Type := kDeal | kAuction | kPlay | kGameOver.

#[export] Instance Phase_eq_dec : EqDecision Phase.
Proof. solve_decision. Defined.

(** An entry of the host framework's [history_]. *)
Record PlayerAction : Type := mkPlayerAction {
  player : Z;
  action : Z
}.

Record Trick : Type := mkTrick {
  winning_action_ : Z;
  leader_ : Z;
  winning_player_ : Z
}.

(** [Trick::Trick(Player leader, int action)] *)
Definition Trick_Trick (leader action : Z) : Trick :=
  {| winning_action_ := action; leader_ := leader; winning_player_ := leader |}.

(** Modelled from the spec: [Trick::Play], [Trick::Winner] and
    [Trick::WinningAction] are inline members of the missing header.  A play
    "updates [CurrentTrick().winning_action/winning_player] to this play";
    the leader is fixed when the trick is created. *)
Definition Trick_Play (t : Trick) (p a : Z) : Trick :=
  {| winning_action_ := a; leader_ := leader_ t; winning_player_ := p |}.

Definition Winner (t : Trick) : Z := winning_player_ t.

Definition WinningAction (t : Trick) : Z := winning_action_ t.

(** Modelled from the spec: the engine is written for "exactly 3 seats,
    indexed 0-2"; [ScoreUp] spells the constant out as [3]. *)
Definition kNumPlayers : Z := 3.

Record GITCGState : Type := mkState {
  history_ : list PlayerAction;
  phase_ : Phase;
  card_face_up_position_ : Z;
  card_rank_face_up_ : Z;
  first_player_ : Z;
  current_player_ : Z;
  dizhu_ : Z;
  final_winner_ : Z;
  winning_bid_ : Z;
  num_passes_ : Z;
  num_played_ : Z;
  trick_played_ : Z;
  bombs_played_ : Z;
  new_trick_begin_ : bool;
  players_hands_played : list Z;
  dealer_deck_ : list Z;
  holds_ : list (list Z);
  cards_left_over_ : list Z;
  played_deck_ : list Z;
  tricks_ : list Trick;
  returns_ : list Z
}.

Definition set_history_ (v : list PlayerAction) (s : GITCGState) : GITCGState :=
  mkState v (phase_ s) (card_face_up_position_ s) (card_rank_face_up_ s)
    (first_player_ s) (current_player_ s) (dizhu_ s) (final_winner_ s)
    (winning_bid_ s) (num_passes_ s) (num_played_ s) (trick_played_ s)
    (bombs_played_ s) (new_trick_begin_ s) (players_hands_played s)
    (dealer_deck_ s) (holds_ s) (cards_left_over_ s) (played_deck_ s)
    (tricks_ s) (returns_ s).
Definition set_phase_ (v : Phase) (s : GITCGState) : GITCGState :=
  mkState (history_ s) v (card_face_up_position_ s) (card_rank_face_up_ s)
    (first_player_ s) (current_player_ s) (dizhu_ s) (final_winner_ s)
    (winning_bid_ s) (num_passes_ s) (num_played_ s) (trick_played_ s)
    (bombs_played_ s) (new_trick_begin_ s) (players_hands_played s)
    (dealer_deck_ s) (holds_ s) (cards_left_over_ s) (played_deck_ s)
    (tricks_ s) (returns_ s).
Definition set_card_face_up_position_ (v : Z) (s : GITCGState) : GITCGState :=
  mkState (history_ s) (phase_ s) v (card_rank_face_up_ s) (first_player_ s)
    (current_player_ s) (dizhu_ s) (final_winner_ s) (winning_bid_ s)
    (num_passes_ s) (num_played_ s) (trick_played_ s) (bombs_played_ s)
    (new_trick_begin_ s) (players_hands_played s) (dealer_deck_ s) (holds_ s)
    (cards_left_over_ s) (played_deck_ s) (tricks_ s) (returns_ s).
Definition set_card_rank_face_up_ (v : Z) (s : GITCGState) : GITCGState :=
  mkState (history_ s) (phase_ s) (card_face_up_position_ s) v
    (first_player_ s) (current_player_ s) (dizhu_ s) (final_winner_ s)
    (winning_bid_ s) (num_passes_ s) (num_played_ s) (trick_played_ s)
    (bombs_played_ s) (new_trick_begin_ s) (players_hands_played s)
    (dealer_deck_ s) (holds_ s) (cards_left_over_ s) (played_deck_ s)
    (tricks_ s) (returns_ s).
Definition set_first_player_ (v : Z) (s : GITCGState) : GITCGState :=
  mkState (history_ s) (phase_ s) (card_face_up_position_ s)
    (card_rank_face_up_ s) v (current_player_ s) (dizhu_ s) (final_winner_ s)
    (winning_bid_ s) (num_passes_ s) (num_played_ s) (trick_played_ s)
    (bombs_played_ s) (new_trick_begin_ s) (players_hands_played s)
    (dealer_deck_ s) (holds_ s) (cards_left_over_ s) (played_deck_ s)
    (tricks_ s) (returns_ s).
Definition set_current_player_ (v : Z) (s : GITCGState) : GITCGState :=
  mkState (history_ s) (phase_ s) (card_face_up_position_ s)
    (card_rank_face_up_ s) (first_player_ s) v (dizhu_ s) (final_winner_ s)
    (winning_bid_ s) (num_passes_ s) (num_played_ s) (trick_played_ s)
    (bombs_played_ s) (new_trick_begin_ s) (players_hands_played s)
    (dealer_deck_ s) (holds_ s) (cards_left_over_ s) (played_deck_ s)
    (tricks_ s) (returns_ s).
Definition set_dizhu_ (v : Z) (s : GITCGState) : GITCGState :=
  mkState (history_ s) (phase_ s) (card_face_up_position_ s)
    (card_rank_face_up_ s) (first_player_ s) (current_player_ s) v
    (final_winner_ s) (winning_bid_ s) (num_passes_ s) (num_played_ s)
    (trick_played_ s) (bombs_played_ s) (new_trick_begin_ s)
    (players_hands_played s) (dealer_deck_ s) (holds_ s) (cards_left_over_ s)
    (played_deck_ s) (tricks_ s) (returns_ s).
Definition set_final_winner_ (v : Z) (s : GITCGState) : GITCGState :=
  mkState (history_ s) (phase_ s) (card_face_up_position_ s)
    (card_rank_face_up_ s) (first_player_ s) (current_player_ s) (dizhu_ s) v
    (winning_bid_ s) (num_passes_ s) (num_played_ s) (trick_played_ s)
    (bombs_played_ s) (new_trick_begin_ s) (players_hands_played s)
    (dealer_deck_ s) (holds_ s) (cards_left_over_ s) (played_deck_ s)
    (tricks_ s) (returns_ s).
Definition set_winning_bid_ (v : Z) (s : GITCGState) : GITCGState :=
  mkState (history_ s) (phase_ s) (card_face_up_position_ s)
    (card_rank_face_up_ s) (first_player_ s) (current_player_ s) (dizhu_ s)
    (final_winner_ s) v (num_passes_ s) (num_played_ s) (trick_played_ s)
    (bombs_played_ s) (new_trick_begin_ s) (players_hands_played s)
    (dealer_deck_ s) (holds_ s) (cards_left_over_ s) (played_deck_ s)
    (tricks_ s) (returns_ s).
Definition set_num_passes_ (v : Z) (s : GITCGState) : GITCGState :=
  mkState (history_ s) (phase_ s) (card_face_up_position_ s)
    (card_rank_face_up_ s) (first_player_ s) (current_player_ s) (dizhu_ s)
    (final_winner_ s) (winning_bid_ s) v (num_played_ s) (trick_played_ s)
    (bombs_played_ s) (new_trick_begin_ s) (players_hands_played s)
    (dealer_deck_ s) (holds_ s) (cards_left_over_ s) (played_deck_ s)
    (tricks_ s) (returns_ s).
Definition set_num_played_ (v : Z) (s : GITCGState) : GITCGState :=
  mkState (history_ s) (phase_ s) (card_face_up_position_ s)
    (card_rank_face_up_ s) (first_player_ s) (current_player_ s) (dizhu_ s)
    (final_winner_ s) (winning_bid_ s) (num_passes_ s) v (trick_played_ s)
    (bombs_played_ s) (new_trick_begin_ s) (players_hands_played s)
    (dealer_deck_ s) (holds_ s) (cards_left_over_ s) (played_deck_ s)
    (tricks_ s) (returns_ s).
Definition set_trick_played_ (v : Z) (s : GITCGState) : GITCGState :=
  mkState (history_ s) (phase_ s) (card_face_up_position_ s)
    (card_rank_face_up_ s) (first_player_ s) (current_player_ s) (dizhu_ s)
    (final_winner_ s) (winning_bid_ s) (num_passes_ s) (num_played_ s) v
    (bombs_played_ s) (new_trick_begin_ s) (players_hands_played s)
    (dealer_deck_ s) (holds_ s) (cards_left_over_ s) (played_deck_ s)
    (tricks_ s) (returns_ s).
Definition set_bombs_played_ (v : Z) (s : GITCGState) : GITCGState :=
  mkState (history_ s) (phase_ s) (card_face_up_position_ s)
    (card_rank_face_up_ s) (first_player_ s) (current_player_ s) (dizhu_ s)
    (final_winner_ s) (winning_bid_ s) (num_passes_ s) (num_played_ s)
    (trick_played_ s) v (new_trick_begin_ s) (players_hands_played s)
    (dealer_deck_ s) (holds_ s) (cards_left_over_ s) (played_deck_ s)
    (tricks_ s) (returns_ s).
Definition set_new_trick_begin_ (v : bool) (s : GITCGState) : GITCGState :=
  mkState (history_ s) (phase_ s) (card_face_up_position_ s)
    (card_rank_face_up_ s) (first_player_ s) (current_player_ s) (dizhu_ s)
    (final_winner_ s) (winning_bid_ s) (num_passes_ s) (num_played_ s)
    (trick_played_ s) (bombs_played_ s) v (players_hands_played s)
    (dealer_deck_ s) (holds_ s) (cards_left_over_ s) (played_deck_ s)
    (tricks_ s) (returns_ s).
Definition set_players_hands_played (v : list Z) (s : GITCGState) : GITCGState :=
  mkState (history_ s) (phase_ s) (card_face_up_position_ s)
    (card_rank_face_up_ s) (first_player_ s) (current_player_ s) (dizhu_ s)
    (final_winner_ s) (winning_bid_ s) (num_passes_ s) (num_played_ s)
    (trick_played_ s) (bombs_played_ s) (new_trick_begin_ s) v
    (dealer_deck_ s) (holds_ s) (cards_left_over_ s) (played_deck_ s)
    (tricks_ s) (returns_ s).
Definition set_dealer_deck_ (v : list Z) (s : GITCGState) : GITCGState :=
  mkState (history_ s) (phase_ s) (card_face_up_position_ s)
    (card_rank_face_up_ s) (first_player_ s) (current_player_ s) (dizhu_ s)
    (final_winner_ s) (winning_bid_ s) (num_passes_ s) (num_played_ s)
    (trick_played_ s) (bombs_played_ s) (new_trick_begin_ s)
    (players_hands_played s) v (holds_ s) (cards_left_over_ s)
    (played_deck_ s) (tricks_ s) (returns_ s).
Definition set_holds_ (v : list (list Z)) (s : GITCGState) : GITCGState :=
  mkState (history_ s) (phase_ s) (card_face_up_position_ s)
    (card_rank_face_up_ s) (first_player_ s) (current_player_ s) (dizhu_ s)
    (final_winner_ s) (winning_bid_ s) (num_passes_ s) (num_played_ s)
    (trick_played_ s) (bombs_played_ s) (new_trick_begin_ s)
    (players_hands_played s) (dealer_deck_ s) v (cards_left_over_ s)
    (played_deck_ s) (tricks_ s) (returns_ s).
Definition set_cards_left_over_ (v : list Z) (s : GITCGState) : GITCGState :=
  mkState (history_ s) (phase_ s) (card_face_up_position_ s)
    (card_rank_face_up_ s) (first_player_ s) (current_player_ s) (dizhu_ s)
    (final_winner_ s) (winning_bid_ s) (num_passes_ s) (num_played_ s)
    (trick_played_ s) (bombs_played_ s) (new_trick_begin_ s)
    (players_hands_played s) (dealer_deck_ s) (holds_ s) v (played_deck_ s)
    (tricks_ s) (returns_ s).
Definition set_played_deck_ (v : list Z) (s : GITCGState) : GITCGState :=
  mkState (history_ s) (phase_ s) (card_face_up_position_ s)
    (card_rank_face_up_ s) (first_player_ s) (current_player_ s) (dizhu_ s)
    (final_winner_ s) (winning_bid_ s) (num_passes_ s) (num_played_ s)
    (trick_played_ s) (bombs_played_ s) (new_trick_begin_ s)
    (players_hands_played s) (dealer_deck_ s) (holds_ s) (cards_left_over_ s)
    v (tricks_ s) (returns_ s).
Definition set_tricks_ (v : list Trick) (s : GITCGState) : GITCGState :=
  mkState (history_ s) (phase_ s) (card_face_up_position_ s)
    (card_rank_face_up_ s) (first_player_ s) (current_player_ s) (dizhu_ s)
    (final_winner_ s) (winning_bid_ s) (num_passes_ s) (num_played_ s)
    (trick_played_ s) (bombs_played_ s) (new_trick_begin_ s)
    (players_hands_played s) (dealer_deck_ s) (holds_ s) (cards_left_over_ s)
    (played_deck_ s) v (returns_ s).
Definition set_returns_ (v : list Z) (s : GITCGState) : GITCGState :=
  mkState (history_ s) (phase_ s) (card_face_up_position_ s)
    (card_rank_face_up_ s) (first_player_ s) (current_player_ s) (dizhu_ s)
    (final_winner_ s) (winning_bid_ s) (num_passes_ s) (num_played_ s)
    (trick_played_ s) (bombs_played_ s) (new_trick_begin_ s)
    (players_hands_played s) (dealer_deck_ s) (holds_ s) (cards_left_over_ s)
    (played_deck_ s) (tricks_ s) v.

(** ** The declarations of the missing header

    What [gi_tcg.cc] uses of [gi_tcg.h] and [gi_tcg_utils.h] without
    defining it.  The engine below is written over an arbitrary value of
    this interface. *)

Class Header : Type := {
  (** Sizes of the deck and of the auction. *)
  kNumCards : Z;
  kNumCardsLeftOver : Z;
  kNumRanks : Z;
  kNumBids : Z;
  (** Bands of the action-id space. *)
  kDealingActionBase : Z;
  kBiddingActionBase : Z;
  kPass : Z;
  kBombActionBase : Z;
  (** Sentinels of the host framework. *)
  kInvalidPlayer : Z;
  kInvalidAction : Z;
  kChancePlayerId : Z;
  kTerminalPlayerId : Z;
  (** The card codec and the action-id mapping of [gi_tcg_utils]. *)
  CardToRank : Z -> Z;
  ActionToHand : Z -> list Z;
  (** [SearchForLegalActions(&legal_actions, hand, prev_action)] appends the
      combinations it finds to [legal_actions]; the field gives the list of
      appended action ids. *)
  SearchForLegalActions : list Z -> Z -> list Z;
  (** The value built by the argument-less constructor [Trick()]. *)
  Trick_default : Trick
}.

(** ** The engine *)

Section Engine.

Context {hdr : Header}.

(** Modelled from the spec: the member initialisers of [GITCGState] are in
    the missing header.  The pool is "initially full deck, one copy each"
    (the constructor fills [dealer_deck_] with 1), hands and ledgers start
    empty, [first_player] and the landlord are "unset", the winning bid is
    "0 = none", returns are "all-zero until terminal", and the source tests
    [card_face_up_position_ == -1] for "not chosen yet". *)
Definition NewInitialState : GITCGState :=
  {| history_ := [];
     phase_ := kDeal;
     card_face_up_position_ := -1;
     card_rank_face_up_ := kInvalidAction;
     first_player_ := kInvalidPlayer;
     current_player_ := kInvalidPlayer;
     dizhu_ := kInvalidPlayer;
     final_winner_ := kInvalidPlayer;
     winning_bid_ := 0;
     num_passes_ := 0;
     num_played_ := 0;
     trick_played_ := 0;
     bombs_played_ := 0;
     new_trick_begin_ := false;
     players_hands_played := replicate (Z.to_nat kNumPlayers) 0;
     dealer_deck_ := replicate (Z.to_nat kNumCards) 1;
     holds_ :=
       replicate (Z.to_nat kNumPlayers) (replicate (Z.to_nat kNumRanks) 0);
     cards_left_over_ := [];
     played_deck_ := replicate (Z.to_nat kNumRanks) 0;
     tricks_ := [];
     returns_ := replicate (Z.to_nat kNumPlayers) 0 |}.

(** Modelled from the spec: [CurrentTrick()] is an inline member of the
    missing header; it is the one open trick, which [trick_played_]
    indexes in [tricks_]. *)
Definition CurrentTrick (s : GITCGState) : result Trick :=
  arr_get (tricks_ s) (trick_played_ s).

(** The cards still in the pool, in ascending card id. *)
Definition undealt (s : GITCGState) : list Z :=
  filter (fun card => rd (dealer_deck_ s) card <> 0) (seqZ 0 kNumCards).

Definition DealLegalActions (s : GITCGState) : list Z :=
  if decide (card_face_up_position_ s = -1) then seqZ 0 kDealingActionBase
  else (fun i => i + kDealingActionBase) <$> undealt s.

Definition BiddingLegalActions (s : GITCGState) : list Z :=
  kPass ::
  ((fun bid => kBiddingActionBase + bid) <$>
     seqZ (winning_bid_ s + 1) (kNumBids - winning_bid_ s)).

Definition PlayLegalActions (s : GITCGState) : result (list Z) :=
  let legal_actions := if new_trick_begin_ s then [] else [kPass] in
  do hand <- arr_get (holds_ s) (current_player_ s);
  do trick <- CurrentTrick s;
  let prev_action := WinningAction trick in
  Ok (merge_sort Z.le
        (legal_actions ++ SearchForLegalActions hand prev_action)).

Definition LegalActions (s : GITCGState) : result (list Z) :=
  match phase_ s with
  | kDeal => Ok (DealLegalActions s)
  | kAuction => Ok (BiddingLegalActions s)
  | kPlay => PlayLegalActions s
  | kGameOver => Ok []
  end.

(** [num_players_], the host's copy of the number of players, is
    [kNumPlayers]. *)
Definition ApplyDealAction (s : GITCGState) (act : Z) : result GITCGState :=
  if decide (card_face_up_position_ s = -1) then
    Ok (set_card_face_up_position_ act s)
  else
    let size := Z.of_nat (length (history_ s)) in
    let dealing_round := size - 1 in
    do first <- arr_get (history_ s) 0;
    let s :=
      if decide (dealing_round = action first) then
        set_card_rank_face_up_ (CardToRank (act - kDealingActionBase))
          (set_first_player_ (Z.rem dealing_round kNumPlayers) s)
      else s in
    let dealt_player_idx := Z.rem (size - 1) kNumPlayers in
    let dealt_rank := CardToRank (act - kDealingActionBase) in
    do holds' <- arr2_upd (holds_ s) dealt_player_idx dealt_rank Z.succ;
    let s := set_holds_ holds' s in
    do deck' <- arr_upd (dealer_deck_ s) (act - kDealingActionBase) Z.pred;
    let s := set_dealer_deck_ deck' s in
    if decide (size = kNumCards - kNumCardsLeftOver) then
      let s := set_phase_ kAuction s in
      let s := set_current_player_ (first_player_ s) s in
      do _ <- SPIEL_CHECK (bool_decide (current_player_ s >= 0));
      do _ <- SPIEL_CHECK (bool_decide (current_player_ s <= kNumPlayers));
      Ok (set_cards_left_over_
            (cards_left_over_ s ++ (CardToRank <$> undealt s)) s)
    else Ok s.

(** [holds_[dizhu_][cards_left_over_[i]]++] for [i < kNumCardsLeftOver] *)
Definition take_left_over (dizhu : Z) (left_over : list Z)
  (holds : list (list Z)) : result (list (list Z)) :=
  for_each (seqZ 0 kNumCardsLeftOver)
    (fun i holds =>
       do rank <- arr_get left_over i;
       arr2_upd holds dizhu rank Z.succ)
    holds.

(** The [if (has_winner)] block of [ApplyBiddingAction]. *)
Definition conclude_auction (s : GITCGState) : result GITCGState :=
  do holds' <- take_left_over (dizhu_ s) (cards_left_over_ s) (holds_ s);
  let s := set_holds_ holds' s in
  let s := set_phase_ kPlay s in
  let s := set_current_player_ (dizhu_ s) s in
  let s := set_new_trick_begin_ true s in
  let s := set_tricks_ (tricks_ s ++ [Trick_Trick (dizhu_ s) kInvalidAction])
             s in
  Ok (set_num_passes_ 0 s).

Definition ApplyBiddingAction (s : GITCGState) (act : Z)
  : result GITCGState :=
  let s :=
    if decide (act = kPass) then set_num_passes_ (num_passes_ s + 1) s
    else set_num_passes_ 0 s in
  let '(s, has_winner) :=
    if decide (act = kPass) then
      if decide (num_passes_ s = kNumPlayers) then
        (set_phase_ kGameOver s, false)
      else if decide (num_passes_ s = kNumPlayers - 1 /\ winning_bid_ s > 0)
      then (s, true)
      else (s, false)
    else
      let s := set_dizhu_ (current_player_ s) s in
      let s := set_winning_bid_ (act - kBiddingActionBase) s in
      (s, bool_decide (winning_bid_ s = kNumBids)) in
  if has_winner then conclude_auction s
  else
    Ok (set_current_player_ (Z.rem (current_player_ s + 1) kNumPlayers) s).

(** One round of the loop of [AfterPlayHand]. *)
Definition AfterPlayHand_rank (p : Z) (used_hand : list Z) (rank : Z)
  (st : GITCGState * bool) : result (GITCGState * bool) :=
  let '(s, flag) := st in
  do hand <- arr_get (holds_ s) p;
  do held <- arr_get hand rank;
  do used <- arr_get used_hand rank;
  do _ <- SPIEL_CHECK (bool_decide (held >= used));
  do holds' <- arr2_upd (holds_ s) p rank (fun x => x - used);
  let s := set_holds_ holds' s in
  let flag := flag && bool_decide (held - used = 0) in
  do played' <- arr_upd (played_deck_ s) rank (fun x => x + used);
  Ok (set_played_deck_ played' s, flag).

Definition AfterPlayHand (s : GITCGState) (p act : Z)
  : result (GITCGState * bool) :=
  let used_hand := ActionToHand act in
  for_each (seqZ 0 kNumRanks) (AfterPlayHand_rank p used_hand) (s, true).

(** The local [is_spring] of [ScoreUp]. *)
Definition ScoreUp_is_spring (s : GITCGState) : result bool :=
  do landlord <- arr_get (players_hands_played s) (dizhu_ s);
  do farmer1 <- arr_get (players_hands_played s) (Z.rem (dizhu_ s + 1) 3);
  do farmer2 <- arr_get (players_hands_played s) (Z.rem (dizhu_ s + 2) 3);
  Ok (bool_decide (landlord = 1)
      || (bool_decide (farmer1 = 0) && bool_decide (farmer2 = 0))).

(** The local [paying] of [ScoreUp] after its doubling loop. *)
Definition ScoreUp_paying (s : GITCGState) (is_spring : bool) : Z :=
  Nat.iter (Z.to_nat (Z.b2z is_spring + bombs_played_ s))
    (fun paying => int_wrap (paying * 2)) (winning_bid_ s).

Definition ScoreUp (s : GITCGState) : result GITCGState :=
  if decide (dizhu_ s = kInvalidPlayer) then Ok s
  else
    do is_spring <- ScoreUp_is_spring s;
    let paying := ScoreUp_paying s is_spring in
    let dizhu_sign := if decide (final_winner_ s = dizhu_ s) then 1 else -1 in
    do r <- arr_set (returns_ s) (dizhu_ s)
              (int_wrap (int_wrap (dizhu_sign * 2) * paying));
    do r <- arr_set r (Z.rem (dizhu_ s + 1) 3)
              (int_wrap (- dizhu_sign * paying));
    do r <- arr_set r (Z.rem (dizhu_ s + 2) 3)
              (int_wrap (- dizhu_sign * paying));
    Ok (set_returns_ r s).

Definition ApplyPlayAction (s : GITCGState) (act : Z) : result GITCGState :=
  let s := set_num_played_ (num_played_ s + 1) s in
  let s :=
    if decide (act = kPass) then set_num_passes_ (num_passes_ s + 1) s
    else set_num_passes_ 0 s in
  let next s :=
    set_current_player_ (Z.rem (current_player_ s + 1) kNumPlayers) s in
  if decide (act = kPass) then
    if decide (num_passes_ s = kNumPlayers - 1) then
      do trick <- CurrentTrick s;
      let s := set_current_player_ (Winner trick) s in
      let s := set_trick_played_ (trick_played_ s + 1) s in
      let s := set_num_passes_ 0 s in
      let s := set_tricks_ (tricks_ s ++ [Trick_default]) s in
      Ok (set_new_trick_begin_ true s)
    else Ok (next s)
  else
    let s :=
      if decide (act >= kBombActionBase) then
        set_bombs_played_ (bombs_played_ s + 1) s
      else s in
    do played <- arr_upd (players_hands_played s) (current_player_ s) Z.succ;
    let s := set_players_hands_played played s in
    let s := if new_trick_begin_ s then set_new_trick_begin_ false s else s in
    do trick <- CurrentTrick s;
    do tricks' <- arr_set (tricks_ s) (trick_played_ s)
                    (Trick_Play trick (current_player_ s) act);
    let s := set_tricks_ tricks' s in
    do '(s, all_played) <- AfterPlayHand s (current_player_ s) act;
    if all_played then
      let s := set_final_winner_ (current_player_ s) s in
      do s <- ScoreUp s;
      Ok (set_phase_ kGameOver s)
    else Ok (next s).

Definition CurrentPlayer (s : GITCGState) : Z :=
  match phase_ s with
  | kDeal => kChancePlayerId
  | kGameOver => kTerminalPlayerId
  | _ => current_player_ s
  end.

Definition DoApplyAction (s : GITCGState) (act : Z) : result GITCGState :=
  match phase_ s with
  | kDeal => ApplyDealAction s act
  | kAuction => ApplyBiddingAction s act
  | kPlay => ApplyPlayAction s act
  | kGameOver => Err (SpielFatalError "Cannot act in terminal states"%string)
  end.

(** Modelled from the spec: the host's [Apply(action-id)] "advances the state
    machine exactly as in §4"; the framework's [State::ApplyAction] is not
    in the source tree.  It runs [DoApplyAction] and then records the player
    and the action in [history_]: [ApplyDealAction] reads [history_.size()]
    as the number of actions applied before the current one (the spec's
    [deal_index], plus one for the revealed position) and
    [history_[0].action] as the revealed position. *)
Definition ApplyAction (s : GITCGState) (act : Z) : result GITCGState :=
  do s' <- DoApplyAction s act;
  Ok (set_history_ (history_ s ++ [mkPlayerAction (CurrentPlayer s) act]) s').

Definition legal (s : GITCGState) (act : Z) : Prop :=
  exists l, LegalActions s = Ok l /\ act ∈ l.

(** A state the host can reach: legal actions applied one by one from the
    initial state. *)
Inductive reachable : GITCGState -> Prop :=
| reachable_init : reachable NewInitialState
| reachable_step (s s' : GITCGState) (act : Z) :
    reachable s -> legal s act -> ApplyAction s act = Ok s' -> reachable s'.

(** ** Card counts and the shape of a state *)

Definition pool_count (s : GITCGState) : Z := sumZ (dealer_deck_ s).

Definition hand_count (s : GITCGState) : Z := sumZ2 (holds_ s).

Definition played_count (s : GITCGState) : Z := sumZ (played_deck_ s).

Definition leftover_size (s : GITCGState) : Z :=
  Z.of_nat (length (cards_left_over_ s)).

(** What the engine relies on from the header: the deck is not of negative
    size, the "unset" player is not a seat, and the card codec maps every
    card of the deck to a rank of the per-rank arrays. *)
Definition header_ok : Prop :=
  0 <= kNumCards /\
  kInvalidPlayer < 0 /\
  forall card, 0 <= card < kNumCards -> 0 <= CardToRank card < kNumRanks.

(** The sizes of the fixed-size arrays of the state, and the pool holding
    each card at most once. *)
Record shaped (s : GITCGState) : Prop := mkShaped {
  shaped_holds :
    shape (holds_ s) = replicate (Z.to_nat kNumPlayers) (Z.to_nat kNumRanks);
  shaped_played : length (played_deck_ s) = Z.to_nat kNumRanks;
  shaped_hands_played :
    length (players_hands_played s) = Z.to_nat kNumPlayers;
  shaped_returns : length (returns_ s) = Z.to_nat kNumPlayers;
  shaped_deck : length (dealer_deck_ s) = Z.to_nat kNumCards;
  shaped_deck01 : Forall (fun x => x = 0 \/ x = 1) (dealer_deck_ s)
}.

(** Nothing of the play phase has happened yet. *)
Definition before_play (s : GITCGState) : Prop :=
  played_count s = 0 /\ tricks_ s = [] /\ trick_played_ s = 0 /\
  returns_ s = replicate (Z.to_nat kNumPlayers) 0.

(** The deal is over: the pool and the leftover block both hold the
    [kNumCardsLeftOver] cards that were not dealt. *)
Definition dealt (s : GITCGState) : Prop :=
  pool_count s = kNumCardsLeftOver /\
  leftover_size s = kNumCardsLeftOver /\
  Forall (fun r => 0 <= r < kNumRanks) (cards_left_over_ s).

Definition seat (p : Z) : Prop := 0 <= p < kNumPlayers.

Definition inv_deal (s : GITCGState) : Prop :=
  cards_left_over_ s = [] /\
  pool_count s + hand_count s = kNumCards /\
  before_play s /\
  winning_bid_ s = 0 /\
  (first_player_ s = kInvalidPlayer \/ seat (first_player_ s)) /\
  (if decide (card_face_up_position_ s = -1) then
     history_ s = [] /\ pool_count s = kNumCards
   else
     history_ s <> [] /\
     pool_count s = kNumCards - (Z.of_nat (length (history_ s)) - 1)).

Definition inv_auction (s : GITCGState) : Prop :=
  dealt s /\
  hand_count s + leftover_size s = kNumCards /\
  before_play s /\
  seat (current_player_ s) /\
  (winning_bid_ s > 0 -> seat (dizhu_ s)).

Definition inv_play (s : GITCGState) : Prop :=
  dealt s /\
  hand_count s + played_count s = kNumCards /\
  tricks_ s <> [].

Definition inv_over (s : GITCGState) : Prop :=
  dealt s /\
  match tricks_ s with
  | [] => hand_count s + leftover_size s = kNumCards /\ before_play s
  | _ :: _ => hand_count s + played_count s = kNumCards
  end.

Definition inv (s : GITCGState) : Prop :=
  shaped s /\
  match phase_ s with
  | kDeal => inv_deal s
  | kAuction => inv_auction s
  | kPlay => inv_play s
  | kGameOver => inv_over s
  end.

(** The host applying a sequence of actions, refusing any that is not in
    [LegalActions] (the framework's [ApplyActionWithLegalityCheck]). *)
Definition legalb (s : GITCGState) (act : Z) : bool :=
  match LegalActions s with
  | Ok l => bool_decide (act ∈ l)
  | Err _ => false
  end.

Fixpoint ApplyActions (s : GITCGState) (acts : list Z) : result GITCGState :=
  match acts with
  | [] => Ok s
  | act :: rest =>
      if legalb s act then
        do s' <- ApplyAction s act; ApplyActions s' rest
      else Err (SpielFatalError "Illegal action"%string)
  end.

(** The turn passes to the next seat, as in the last statement of
    [ApplyBiddingAction] and of [ApplyPlayAction]. *)
Definition next_player (s : GITCGState) : GITCGState :=
  set_current_player_ (Z.rem (current_player_ s + 1) kNumPlayers) s.

(** ** Runs of the auction and of the play phase *)

(** Legal actions applied one after the other while the auction lasts. *)
Inductive auction_run : GITCGState -> list Z -> GITCGState -> Prop :=
| auction_run_nil (s : GITCGState) : auction_run s [] s
| auction_run_cons (s s1 s' : GITCGState) (act : Z) (acts : list Z) :
    phase_ s = kAuction ->
    act ∈ BiddingLegalActions s ->
    ApplyAction s act = Ok s1 ->
    auction_run s1 acts s' ->
    auction_run s (act :: acts) s'.

(** The bids of a list of auction actions: [ApplyBiddingAction] treats
    every action other than [kPass] as the bid [action - kBiddingActionBase]. *)
Definition accepted_bids (acts : list Z) : list Z :=
  (fun act => act - kBiddingActionBase) <$>
    filter (fun act => act <> kPass) acts.

(** The plays (actions other than [kPass]) made while [acts] is applied
    from [s], each as the pair of the trick it was made in (the value of
    [trick_played_] at that moment) and the player who made it. *)
Fixpoint plays_of (s : GITCGState) (acts : list Z) : list (Z * Z) :=
  match acts with
  | [] => []
  | act :: rest =>
      match ApplyAction s act with
      | Ok s' =>
          (if decide (act = kPass) then []
           else [(trick_played_ s, current_player_ s)]) ++ plays_of s' rest
      | Err _ => []
      end
  end.

End Engine.

(** The tricks in which player [p] made a play. *)
Definition tricks_played_in (p : Z) (plays : list (Z * Z)) : list Z :=
  remove_dups (fst <$> filter (fun x => snd x = p) plays).


(** ** Reports on a state

    [ChanceOutcomes], [OriginalDeal] and [WriteObservationTensor] read a
    state without changing it. *)

Section Reports.

Context {hdr : Header}.

(** [dealer_deck_] is an array of [kNumCards] entries, read with [rd] as in
    [undealt].  An outcome is a pair of an action id and a weight; the weight
    [1.0 / n] is kept as its divisor [n]. *)
Definition ChanceOutcomes (s : GITCGState) : list (Z * Z) :=
  let num_cards_remaining :=
    sumZ (rd (dealer_deck_ s) <$> seqZ 0 kNumCards) in
  if decide (card_face_up_position_ s = -1) then
    (fun i => (i, kDealingActionBase)) <$> seqZ 0 kDealingActionBase
  else
    (fun card => (card + kDealingActionBase, num_cards_remaining))
      <$> undealt s.

(** The first loop of [OriginalDeal]: the cards of the deal, read back from
    the history. *)
Definition OriginalDeal_dealt (s : GITCGState) (deal : list (list Z))
  : result (list (list Z)) :=
  for_each (seqZ 1 (kNumCards - kNumCardsLeftOver))
    (fun i deal =>
       do h <- arr_get (history_ s) i;
       arr2_upd deal (Z.rem (i - 1 + first_player_ s) kNumPlayers)
         (CardToRank (action h - kDealingActionBase)) Z.succ)
    deal.

(** The second loop of [OriginalDeal] is the loop of [ApplyBiddingAction]
    that hands the left-over cards to the landlord, run on [deal].  Its
    [deal[dizhu_]] is an unchecked index: where [dizhu_] is not a seat the
    behaviour is undefined, which the model reports as [OutOfRange]. *)
Definition OriginalDeal (s : GITCGState) : result (list (list Z)) :=
  do _ <- SPIEL_CHECK
            (bool_decide (Z.of_nat (length (history_ s)) >= kNumCards + 1));
  let deal :=
    replicate (Z.to_nat kNumPlayers) (replicate (Z.to_nat kNumRanks) 0) in
  do deal <- OriginalDeal_dealt s deal;
  take_left_over (dizhu_ s) (cards_left_over_ s) deal.

(** [WriteObservationTensor(player, values)].  The span [values] holds
    floats of which the function writes only 0 and 1; it is kept as a list
    of integers, and a write outside the span is an index out of range.
    [kNumSuits] is a constant of the missing header. *)
Definition WriteObservationTensor (kNumSuits : Z) (s : GITCGState)
  (player : Z) (values : list Z) : result (list Z) :=
  do _ <- SPIEL_CHECK (bool_decide (player >= 0));
  do _ <- SPIEL_CHECK (bool_decide (player < kNumPlayers));
  let values := (fun _ => 0) <$> values in
  if decide (phase_ s = kDeal) then Ok values
  else
    let played_deck_base := (kNumRanks - 2) * (kNumSuits + 1) + 2 * 2 in
    do values <-
      for_each (seqZ 0 kNumRanks)
        (fun i values =>
           do hand <- arr_get (holds_ s) player;
           do held <- arr_get hand i;
           do values <- arr_set values (i * (kNumSuits + 1) + held) 1;
           do played <- arr_get (played_deck_ s) i;
           arr_set values (played_deck_base + i * (kNumSuits + 1) + played)
             1)
        values;
    do values <-
      if decide (dizhu_ s <> kInvalidPlayer) then
        let from_dizhu_base := 2 * played_deck_base in
        let from_dizhu :=
          Z.rem (player - dizhu_ s + kNumPlayers) kNumPlayers in
        arr_set values (from_dizhu_base + from_dizhu) 1
      else Ok values;
    if decide (first_player_ s <> kInvalidPlayer) then
      let start_player_base := 2 * played_deck_base + kNumPlayers in
      do values <- arr_set values (start_player_base + first_player_ s) 1;
      arr_set values
        (start_player_base + kNumPlayers + card_rank_face_up_ s) 1
    else Ok values.

(** The bids made while [acts] is applied from [s], each as the pair of
    the seat that made it and the level bid: [ApplyBiddingAction] reads
    every action other than [kPass] as the bid
    [action - kBiddingActionBase] of the player to act. *)
Fixpoint bids_of (s : GITCGState) (acts : list Z) : list (Z * Z) :=
  match acts with
  | [] => []
  | act :: rest =>
      match ApplyAction s act with
      | Ok s' =>
          (if decide (act = kPass) then []
           else [(current_player_ s, act - kBiddingActionBase)])
          ++ bids_of s' rest
      | Err _ => []
      end
  end.

(** The number of cards in the hand of seat [p]. *)
Definition hand_size (s : GITCGState) (p : Z) : Z :=
  match arr_get (holds_ s) p with
  | Ok hand => sumZ hand
  | Err _ => 0
  end.

(** ** Further invariants of the reachable states *)

(** No hand holds a negative number of cards of any rank. *)
Definition hands_nonneg (s : GITCGState) : Prop :=
  forall p r, 0 <= rd2 (holds_ s) p r.

(** The rank of the card dealt by the [i]-th entry of the history. *)
Definition rank_dealt (h : list PlayerAction) (i : Z) : Z :=
  CardToRank
    (match arr_get h i with Ok x => action x | Err _ => 0 end
     - kDealingActionBase).

(** How many cards of rank [r] the entries 1 to [n] of the history dealt to
    seat [p]: [ApplyDealAction] gives the card of entry [i] to seat
    [(i - 1) % kNumPlayers]. *)
Definition dealt_count (h : list PlayerAction) (n p r : Z) : Z :=
  Z.of_nat
    (length
       (filter (fun i => Z.rem (i - 1) kNumPlayers = p /\ rank_dealt h i = r)
          (seqZ 1 n))).

(** The number of deal actions, the choice of the position apart. *)
Definition kNumDealt : Z := kNumCards - kNumCardsLeftOver.

(** The face-up card has been dealt: the first bidder and the rank shown
    are those of the revealed position. *)
Definition face_up_known (s : GITCGState) : Prop :=
  first_player_ s = Z.rem (card_face_up_position_ s) kNumPlayers /\
  exists h,
    arr_get (history_ s) (card_face_up_position_ s + 1) = Ok h /\
    card_rank_face_up_ s = CardToRank (action h - kDealingActionBase).

Definition position_chosen (s : GITCGState) : Prop :=
  0 <= card_face_up_position_ s < kDealingActionBase /\
  exists first,
    arr_get (history_ s) 0 = Ok first /\
    action first = card_face_up_position_ s.

Definition inv_first (s : GITCGState) : Prop :=
  match phase_ s with
  | kDeal =>
      if decide (card_face_up_position_ s = -1) then
        first_player_ s = kInvalidPlayer
      else
        position_chosen s /\
        ((first_player_ s = kInvalidPlayer /\
          Z.of_nat (length (history_ s)) - 1 <= card_face_up_position_ s) \/
         face_up_known s)
  | _ => position_chosen s /\ face_up_known s
  end.

(** The counters of the auction, and whose turn it is: the seats bid in
    turn from the first player on. *)
Definition inv_turn (s : GITCGState) : Prop :=
  match phase_ s with
  | kDeal => num_passes_ s = 0 /\ dizhu_ s = kInvalidPlayer
  | kAuction =>
      0 <= num_passes_ s /\ 0 <= winning_bid_ s /\
      (winning_bid_ s = 0 ->
       num_passes_ s <= 2 /\ dizhu_ s = kInvalidPlayer) /\
      (winning_bid_ s > 0 ->
       num_passes_ s <= 1 /\ winning_bid_ s < kNumBids) /\
      exists k,
        0 <= k /\
        Z.of_nat (length (history_ s)) = kNumDealt + 1 + k /\
        current_player_ s = Z.rem (first_player_ s + k) kNumPlayers
  | kPlay => returns_ s = replicate (Z.to_nat kNumPlayers) 0
  | kGameOver => tricks_ s = [] -> dizhu_ s = kInvalidPlayer
  end.

(** The hands before the landlord takes the left-over cards are what the
    history says was dealt. *)
Definition inv_dealt (s : GITCGState) : Prop :=
  match phase_ s with
  | kDeal =>
      forall p r,
        rd2 (holds_ s) p r
        = dealt_count (history_ s) (Z.of_nat (length (history_ s)) - 1) p r
  | kAuction =>
      kNumDealt + 1 <= Z.of_nat (length (history_ s)) /\
      forall p r,
        rd2 (holds_ s) p r = dealt_count (history_ s) kNumDealt p r
  | _ => True
  end.

(** How many of the entries 1 to [n] of the history dealt a card to seat
    [p]. *)
Definition dealt_to (n p : Z) : Z :=
  Z.of_nat
    (length (filter (fun i => Z.rem (i - 1) kNumPlayers = p) (seqZ 1 n))).

(** The sizes of the hands before the landlord takes the left-over
    cards. *)
Definition inv_sizes (s : GITCGState) : Prop :=
  match phase_ s with
  | kDeal =>
      forall p,
        hand_size s p = dealt_to (Z.of_nat (length (history_ s)) - 1) p
  | kAuction => forall p, hand_size s p = dealt_to kNumDealt p
  | _ => True
  end.

Definition inv_more (s : GITCGState) : Prop :=
  hands_nonneg s /\ inv_first s /\ inv_turn s /\ inv_dealt s.

(** What the engine relies on from [SearchForLegalActions]: it never
    offers a pass, and every combination it offers is made of cards of the
    hand. *)
Definition search_sound : Prop :=
  forall hand prev_action act,
    length hand = Z.to_nat kNumRanks ->
    Forall (fun x => 0 <= x) hand ->
    act ∈ SearchForLegalActions hand prev_action ->
    act <> kPass /\
    length (ActionToHand act) = Z.to_nat kNumRanks /\
    forall r, 0 <= r < kNumRanks -> rd (ActionToHand act) r <= rd hand r.

(** The seats of the play phase: the player to act, the landlord and the
    winner of a trick somebody has played to are players, and the open
    trick is the last one of [tricks_]. *)
Definition inv_seats (s : GITCGState) : Prop :=
  match phase_ s with
  | kPlay =>
      seat (current_player_ s) /\ seat (dizhu_ s) /\
      0 <= trick_played_ s /\
      Z.of_nat (length (tricks_ s)) = trick_played_ s + 1 /\
      (new_trick_begin_ s = false ->
       exists trick, CurrentTrick s = Ok trick /\ seat (Winner trick))
  | _ => True
  end.

(** ** The plays of a game *)

(** The players of the plays made while [acts] is applied from [s], in the
    order of the plays.  A play is an action other than [kPass] applied in
    the play phase; it is made by the player to act. *)
Fixpoint players_of_plays (s : GITCGState) (acts : list Z) : list Z :=
  match acts with
  | [] => []
  | act :: rest =>
      match ApplyAction s act with
      | Ok s' =>
          (if decide (phase_ s = kPlay /\ act <> kPass) then
             [current_player_ s]
           else [])
          ++ players_of_plays s' rest
      | Err _ => []
      end
  end.

(** The number of plays of player [p] among [players]. *)
Definition plays_by (p : Z) (players : list Z) : Z :=
  Z.of_nat (length (filter (fun x => x = p) players)).

(** The landlord is unset or a seat. *)
Definition inv_landlord (s : GITCGState) : Prop :=
  dizhu_ s = kInvalidPlayer \/ seat (dizhu_ s).

(** Past the deal the history holds the choice of the position and every
    deal action, and each deal action recorded dealt a card of the deck. *)
Definition inv_history (s : GITCGState) : Prop :=
  (phase_ s <> kDeal -> kNumDealt + 1 <= Z.of_nat (length (history_ s))) /\
  forall i h,
    1 <= i <= kNumDealt -> arr_get (history_ s) i = Ok h ->
    0 <= action h - kDealingActionBase < kNumCards.

End Reports.


(** ** A sample header

    An instance of [Header], chosen for the standard
    54-card deck (thirteen ranks in four suits and two jokers, three
    cards left over, bids 1 to 3) with the sentinels of the host framework.
    The action-id mapping is a small stand-in for the missing one: single
    cards, four-of-a-kind bombs and the rocket.  It serves to run the engine
    on concrete inputs. *)

Module Sample.

Definition kNumCards : Z := 54.
Definition kNumCardsLeftOver : Z := 3.
Definition kNumCardsPerSuit : Z := 13.
Definition kNumRanks : Z := kNumCardsPerSuit + 2.
Definition kNumBids : Z := 3.
Definition kDealingActionBase : Z := kNumCards - kNumCardsLeftOver.
Definition kBiddingActionBase : Z := 0.
Definition kPass : Z := kBiddingActionBase.
Definition kPlayActionBase : Z := kBiddingActionBase + 1 + kNumBids.
Definition kBombActionBase : Z := 100.
Definition kRocketActionBase : Z := kBombActionBase + kNumRanks - 2.
Definition kInvalidPlayer : Z := -3.
Definition kInvalidAction : Z := -1.
Definition kChancePlayerId : Z := -1.
Definition kTerminalPlayerId : Z := -4.

Definition CardToRank (card : Z) : Z :=
  if decide (card = kNumCards - 2 \/ card = kNumCards - 1) then
    card - kNumCards + kNumRanks
  else Z.rem card kNumCardsPerSuit.

Definition one_rank (rank count : Z) : list Z :=
  (fun r => if decide (r = rank) then count else 0) <$> seqZ 0 kNumRanks.

(** Action [kPlayActionBase + r] plays one card of rank [r], action
    [kBombActionBase + r] all four cards of rank [r], and
    [kRocketActionBase] the two jokers. *)
Definition ActionToHand (act : Z) : list Z :=
  if decide (kPlayActionBase <= act < kPlayActionBase + kNumRanks) then
    one_rank (act - kPlayActionBase) 1
  else if decide (kBombActionBase <= act < kRocketActionBase) then
    one_rank (act - kBombActionBase) 4
  else if decide (act = kRocketActionBase) then
    (fun r => if decide (r < kNumRanks - 2) then 0 else 1) <$> seqZ 0 kNumRanks
  else replicate (Z.to_nat kNumRanks) 0.

Definition SearchForLegalActions (hand : list Z) (prev_action : Z) : list Z :=
  let solo r :=
    bool_decide (1 <= rd hand r) &&
    (bool_decide (prev_action = kInvalidAction) ||
     bool_decide (kPlayActionBase <= prev_action < kPlayActionBase + r)) in
  let bomb r :=
    bool_decide (4 <= rd hand r) &&
    bool_decide (prev_action < kBombActionBase + r) in
  let rocket :=
    bool_decide (1 <= rd hand (kNumRanks - 2)) &&
    bool_decide (1 <= rd hand (kNumRanks - 1)) in
  ((fun r => kPlayActionBase + r) <$> filter (fun r => solo r = true)
     (seqZ 0 kNumRanks)) ++
  ((fun r => kBombActionBase + r) <$> filter (fun r => bomb r = true)
     (seqZ 0 (kNumRanks - 2))) ++
  (if rocket then [kRocketActionBase] else []).

Definition Trick_default : Trick := Trick_Trick kInvalidPlayer kInvalidAction.

Definition header : Header :=
  Build_Header kNumCards kNumCardsLeftOver kNumRanks kNumBids
    kDealingActionBase kBiddingActionBase kPass kBombActionBase
    kInvalidPlayer kInvalidAction kChancePlayerId kTerminalPlayerId
    CardToRank ActionToHand SearchForLegalActions Trick_default.

Definition init : GITCGState := @NewInitialState header.

(** The host applying [acts] to the initial state, legality checked. *)
Definition run (acts : list Z) : result GITCGState :=
  @ApplyActions header init acts.

(** The chance actions of a deal: the revealed position, then the cards
    in the given order. *)
Definition deal (position : Z) (cards : list Z) : list Z :=
  position :: ((fun c => c + kDealingActionBase) <$> cards).

(** Cards 0 to 50 dealt in ascending order, the first one revealed: seat 0
    bids first, and cards 51 to 53 (ranks 12, 13 and 14) are left over. *)
Definition plain_deal : list Z := deal 0 (seqZ 0 51).

Definition Bid (v : Z) : Z := kBiddingActionBase + v.

Definition Solo (rank : Z) : Z := kPlayActionBase + rank.

(** The state after [acts], for sequences the host accepts. *)
Definition state_of (acts : list Z) : GITCGState :=
  match run acts with
  | Ok s => s
  | Err _ => init
  end.

(** The auction begins. *)
Definition dealt_state : GITCGState := state_of plain_deal.

(** Seats 0 and 1 passed without a bid; seat 2 is to act. *)
Definition two_passes_state : GITCGState :=
  state_of (plain_deal ++ [kPass; kPass]).

(** Seat 0 bid 1; seat 1 is to act. *)
Definition bid1_state : GITCGState := state_of (plain_deal ++ [Bid 1]).


(** Seat 0 bid 1 and seat 1 passed; seat 2 is to act. *)
Definition bid1_pass_state : GITCGState :=
  state_of (plain_deal ++ [Bid 1; kPass]).

(** Seat 0 is the landlord for a bid of 1 and leads trick 0. *)
Definition landlord_state : GITCGState :=
  state_of (plain_deal ++ [Bid 1; kPass; kPass]).

(** Trick 0: the landlord led a 0, seat 1 played a 1 over it, seat 2
    passed; the landlord is to act. *)
Definition open_trick_state : GITCGState :=
  state_of (plain_deal ++ [Bid 1; kPass; kPass; Solo 0; Solo 1; kPass]).

(** A whole play phase but for its last action.  In trick 0 the landlord
    (seat 0) plays twice, seat 1 plays over it twice and wins the trick;
    seat 1 then leads its remaining cards one by one, the others passing. *)
Definition long_first_trick_begin : list Z :=
  [Solo 0; Solo 1; kPass; Solo 2; Solo 3; kPass; kPass] ++
  mjoin ((fun rank => [Solo rank; kPass; kPass]) <$>
           [0; 1; 2; 4; 4; 5; 6; 7; 7; 8; 9; 10; 10; 11]).

(** The whole play phase: seat 1 goes out with its last card. *)
Definition long_first_trick : list Z := long_first_trick_begin ++ [Solo 12].

(** Seat 1 is about to play its last card. *)
Definition last_card_state : GITCGState :=
  state_of (plain_deal ++ [Bid 1; kPass; kPass] ++ long_first_trick_begin).

(** What [DoApplyAction] returns for that play, before the host records
    the action in the history. *)
Definition settled_state : GITCGState :=
  match @DoApplyAction header last_card_state (Solo 12) with
  | Ok s => s
  | Err _ => init
  end.

(** The game is over, won by seat 1 against the landlord. *)
Definition game_over_state : GITCGState :=
  state_of (plain_deal ++ [Bid 1; kPass; kPass] ++ long_first_trick).

(** Cards 0 to 50 dealt in ascending order, the second one revealed: seat 1
    bids first. *)
Definition second_deal : list Z := deal 1 (seqZ 0 51).

(** The auction begins with seat 1. *)
Definition second_dealt_state : GITCGState := state_of second_deal.

(** Seat 1 is the landlord for a bid of 1, leads every trick with one of
    its twenty cards while the others pass, and goes out. *)
Definition landlord_walk : list Z :=
  [Bid 1; kPass; kPass] ++
  mjoin ((fun rank => [Solo rank; kPass; kPass]) <$>
           [0; 1; 1; 2; 3; 4; 4; 5; 6; 7; 7; 8; 9; 10; 10; 11; 12; 12; 13]) ++
  [Solo 14].

Definition landlord_walk_state : GITCGState :=
  state_of (second_deal ++ landlord_walk).

(** Nobody bid: the game is over after three passes. *)
Definition all_pass_state : GITCGState :=
  state_of (plain_deal ++ [kPass; kPass; kPass]).

(** Half-way through the deal. *)
Definition mid_deal_state : GITCGState :=
  state_of (deal 0 (seqZ 0 20)).

(** What [DoApplyAction] returns for [act] in [s], before the host records
    the action in the history. *)
Definition applied (s : GITCGState) (act : Z) : GITCGState :=
  match @DoApplyAction header s act with
  | Ok s' => s'
  | Err _ => init
  end.

(** What [OriginalDeal] reports once the landlord has gone out. *)
Definition reported_deal : list (list Z) :=
  match @OriginalDeal header landlord_walk_state with
  | Ok deal => deal
  | Err _ => []
  end.

(** An auction of the greatest length: two passes, then every bid in turn,
    each but the last followed by a pass. *)
Definition long_auction : list Z :=
  [kPass; kPass; Bid 1; kPass; Bid 2; kPass; Bid 3].

Definition kNumSuits : Z := 4.

(** [open_trick_state] with the colored joker taken out of the landlord's
    hand and a second card of rank 0 played. *)
Definition other_open_trick_state : GITCGState :=
  set_played_deck_ (<[0%nat := 2]> (played_deck_ open_trick_state))
    (set_holds_ (alter (<[14%nat := 0]>) 0%nat (holds_ open_trick_state))
       open_trick_state).

End Sample.

(** ** Arrays: reads, writes and sums *)

Section Arrays.

Context {A : Type}.
Implicit Types (l : list A) (i : Z).

Lemma arr_get_Ok l i x :
  arr_get l i = Ok x <-> 0 <= i /\ l !! Z.to_nat i = Some x.
Proof.
  unfold arr_get. destruct (decide (0 <= i)) as [Hi | Hi].
  - destruct (l !! Z.to_nat i) as [y |] eqn:E.
    + split; [intros [= ->]; auto | intros [_ [= ->]]; reflexivity].
    + split; [discriminate | intros [_ ?]; discriminate].
  - split; [discriminate | intros [? _]; contradiction].
Qed.

Lemma arr_get_in_range l i :
  0 <= i < Z.of_nat (length l) -> exists x, arr_get l i = Ok x.
Proof.
  intros [H0 H1].
  destruct (lookup_lt_is_Some_2 l (Z.to_nat i)) as [x Hx]; [lia |].
  exists x. apply arr_get_Ok. auto.
Qed.

Lemma arr_upd_Ok l i f l' :
  arr_upd l i f = Ok l' ->
  exists x, arr_get l i = Ok x /\ l' = <[Z.to_nat i := f x]> l.
Proof.
  unfold arr_upd. destruct (arr_get l i) as [x | e]; simpl; [| discriminate].
  intros [= <-]. eauto.
Qed.

Lemma arr_set_Ok l i y l' :
  arr_set l i y = Ok l' ->
  exists x, arr_get l i = Ok x /\ l' = <[Z.to_nat i := y]> l.
Proof.
  unfold arr_set. destruct (arr_get l i) as [x | e]; simpl; [| discriminate].
  intros [= <-]. eauto.
Qed.

Lemma arr_upd_length l i f l' : arr_upd l i f = Ok l' -> length l' = length l.
Proof.
  intros (x & _ & ->)%arr_upd_Ok. apply length_insert.
Qed.

Lemma arr_set_length l i y l' : arr_set l i y = Ok l' -> length l' = length l.
Proof.
  intros (x & _ & ->)%arr_set_Ok. apply length_insert.
Qed.

Lemma arr_upd_in_range l i f :
  0 <= i < Z.of_nat (length l) -> exists l', arr_upd l i f = Ok l'.
Proof.
  intros [x Hx]%arr_get_in_range. unfold arr_upd. rewrite Hx. simpl. eauto.
Qed.

Lemma arr_set_in_range l i y :
  0 <= i < Z.of_nat (length l) -> exists l', arr_set l i y = Ok l'.
Proof.
  intros [x Hx]%arr_get_in_range. unfold arr_set. rewrite Hx. simpl. eauto.
Qed.

End Arrays.

Lemma sumZ_app (l1 l2 : list Z) : sumZ (l1 ++ l2) = sumZ l1 + sumZ l2.
Proof.
  unfold sumZ. induction l1 as [| x l1 IH]; simpl; [reflexivity | lia].
Qed.

Lemma sumZ_insert (l : list Z) (n : nat) (x y : Z) :
  l !! n = Some x -> sumZ (<[n := y]> l) = sumZ l - x + y.
Proof.
  revert n. induction l as [| a l IH]; intros [| n] H; simpl in *;
    try discriminate.
  - injection H as ->. unfold sumZ. simpl. lia.
  - specialize (IH _ H). unfold sumZ in *. simpl. lia.
Qed.

Lemma sumZ_replicate (n : nat) (x : Z) :
  sumZ (replicate n x) = Z.of_nat n * x.
Proof.
  unfold sumZ. induction n as [| n IH]; [reflexivity |].
  rewrite Nat2Z.inj_succ. simpl. lia.
Qed.

Lemma sumZ2_replicate (n m : nat) (x : Z) :
  sumZ2 (replicate n (replicate m x)) = Z.of_nat n * (Z.of_nat m * x).
Proof.
  unfold sumZ2. rewrite fmap_replicate, sumZ_replicate, sumZ_replicate.
  reflexivity.
Qed.

Lemma rd_Ok (l : list Z) (i x : Z) : arr_get l i = Ok x -> rd l i = x.
Proof. unfold rd. intros ->. reflexivity. Qed.

Lemma arr_upd_sum (l : list Z) (i : Z) (f : Z -> Z) (l' : list Z) :
  arr_upd l i f = Ok l' -> sumZ l' = sumZ l - rd l i + f (rd l i).
Proof.
  intros (x & Hx & ->)%arr_upd_Ok. rewrite (rd_Ok _ _ _ Hx).
  apply arr_get_Ok in Hx as [_ Hx]. apply sumZ_insert, Hx.
Qed.

Lemma arr_upd_rd (l : list Z) (i : Z) (f : Z -> Z) (l' : list Z) (j : Z) :
  arr_upd l i f = Ok l' ->
  rd l' j = if decide (j = i) then f (rd l i) else rd l j.
Proof.
  intros (x & Hx & ->)%arr_upd_Ok. rewrite (rd_Ok _ _ _ Hx).
  apply arr_get_Ok in Hx as [Hi Hx].
  unfold rd, arr_get. destruct (decide (j = i)) as [-> | Hne].
  - rewrite decide_True by assumption.
    rewrite list_lookup_insert_eq; [reflexivity |].
    eapply lookup_lt_Some, Hx.
  - destruct (decide (0 <= j)); [| reflexivity].
    rewrite list_lookup_insert_ne by lia. reflexivity.
Qed.

Lemma arr2_upd_Ok (a : list (list Z)) (i j : Z) (f : Z -> Z) a' :
  arr2_upd a i j f = Ok a' ->
  exists row row',
    arr_get a i = Ok row /\ arr_upd row j f = Ok row' /\
    a' = <[Z.to_nat i := row']> a.
Proof.
  unfold arr2_upd. destruct (arr_get a i) as [row | e] eqn:Hrow; simpl;
    [| discriminate].
  destruct (arr_upd row j f) as [row' | e] eqn:Hrow'; simpl; [| discriminate].
  unfold arr_set. rewrite Hrow. simpl. intros [= <-]. eauto.
Qed.

Lemma arr2_upd_shape (a : list (list Z)) (i j : Z) (f : Z -> Z) a' :
  arr2_upd a i j f = Ok a' -> shape a' = shape a.
Proof.
  intros (row & row' & Hrow & Hrow' & ->)%arr2_upd_Ok.
  apply arr_get_Ok in Hrow as [_ Hrow]. unfold shape.
  rewrite list_fmap_insert. apply list_insert_id.
  rewrite list_lookup_fmap, Hrow. simpl. f_equal.
  symmetry. eapply arr_upd_length, Hrow'.
Qed.

Lemma arr2_upd_sum (a : list (list Z)) (i j : Z) (f : Z -> Z) a' :
  arr2_upd a i j f = Ok a' ->
  sumZ2 a' = sumZ2 a - rd2 a i j + f (rd2 a i j).
Proof.
  intros (row & row' & Hrow & Hrow' & ->)%arr2_upd_Ok.
  unfold rd2. rewrite Hrow. apply arr_get_Ok in Hrow as [_ Hrow].
  unfold sumZ2. rewrite list_fmap_insert.
  rewrite (sumZ_insert _ _ (sumZ row)) by (rewrite list_lookup_fmap, Hrow; reflexivity).
  rewrite (arr_upd_sum _ _ _ _ Hrow'). lia.
Qed.

Lemma arr2_upd_rd2 (a : list (list Z)) (i j : Z) (f : Z -> Z) a' (p r : Z) :
  arr2_upd a i j f = Ok a' ->
  rd2 a' p r =
    if decide (p = i /\ r = j) then f (rd2 a i j) else rd2 a p r.
Proof.
  intros (row & row' & Hrow & Hrow' & ->)%arr2_upd_Ok.
  assert (forall k, rd2 a i k = rd row k) as Hr
    by (intros k; unfold rd2; rewrite Hrow; reflexivity).
  pose proof Hrow as [Hi Hrow0]%arr_get_Ok.
  destruct (decide (p = i)) as [-> | Hne].
  - assert (arr_get (<[Z.to_nat i := row']> a) i = Ok row') as Hnew.
    { apply arr_get_Ok. split; [assumption |].
      apply list_lookup_insert_eq. eapply lookup_lt_Some, Hrow0. }
    unfold rd2 at 1. rewrite Hnew, (arr_upd_rd _ _ _ _ r Hrow'), !Hr.
    destruct (decide (r = j)) as [-> | ?].
    + rewrite decide_True by auto. reflexivity.
    + rewrite decide_False by tauto. reflexivity.
  - rewrite decide_False by tauto. unfold rd2, arr_get.
    destruct (decide (0 <= p)); [| reflexivity].
    rewrite list_lookup_insert_ne by lia. reflexivity.
Qed.

Lemma arr2_upd_in_range (a : list (list Z)) (i j : Z) (f : Z -> Z) (m : nat) :
  Forall (fun n => n = m) (shape a) ->
  0 <= i < Z.of_nat (length a) -> 0 <= j < Z.of_nat m ->
  exists a', arr2_upd a i j f = Ok a'.
Proof.
  intros Hshape Hi Hj. destruct (arr_get_in_range a i Hi) as [row Hrow].
  assert (length row = m) as Hlen.
  { apply arr_get_Ok in Hrow as [_ Hrow].
    rewrite Forall_forall in Hshape. apply Hshape.
    apply list_elem_of_fmap. exists row. split; [reflexivity |].
    eapply list_elem_of_lookup_2, Hrow. }
  destruct (arr_upd_in_range row j f) as [row' Hrow']; [lia |].
  unfold arr2_upd. rewrite Hrow. simpl. rewrite Hrow'. simpl.
  unfold arr_set. rewrite Hrow. simpl. eauto.
Qed.

(** ** The pool and the leftover block *)

Lemma filter_ext_elem {A : Type} (P Q : A -> Prop)
  `{forall x, Decision (P x)} `{forall x, Decision (Q x)} (l : list A) :
  (forall x, x ∈ l -> (P x <-> Q x)) -> filter P l = filter Q l.
Proof.
  induction l as [| x l IH]; intros HPQ; [reflexivity |].
  rewrite !filter_cons. rewrite IH by (intros y Hy; apply HPQ; right; exact Hy).
  destruct (decide (P x)) as [HP | HP], (decide (Q x)) as [HQ | HQ];
    try reflexivity; exfalso; apply (HPQ x (list_elem_of_here _ _)) in HP
    || (apply HP, (HPQ x (list_elem_of_here _ _)); assumption); contradiction.
Qed.

Lemma rd_app_l (l1 l2 : list Z) (i : Z) :
  0 <= i < Z.of_nat (length l1) -> rd (l1 ++ l2) i = rd l1 i.
Proof.
  intros Hi. unfold rd, arr_get. rewrite !decide_True by lia.
  rewrite lookup_app_l by lia. reflexivity.
Qed.

Lemma rd_app_last (l : list Z) (x : Z) :
  rd (l ++ [x]) (Z.of_nat (length l)) = x.
Proof.
  unfold rd, arr_get. rewrite decide_True by lia. rewrite Nat2Z.id.
  rewrite lookup_app_r by lia. rewrite Nat.sub_diag. reflexivity.
Qed.

(** A pool that holds each card at most once has as many cards as it has
    non-zero entries. *)
Lemma count_nonzero (deck : list Z) :
  Forall (fun x => x = 0 \/ x = 1) deck ->
  Z.of_nat
    (length (filter (fun card => rd deck card <> 0)
               (seqZ 0 (Z.of_nat (length deck)))))
  = sumZ deck.
Proof.
  induction deck as [| x deck IH] using rev_ind; intros H01;
    [reflexivity |].
  apply Forall_app in H01 as [H01 Hx]. rewrite Forall_singleton in Hx.
  rewrite length_app. simpl length. rewrite Nat.add_1_r.
  rewrite seqZ_S, filter_app, length_app, sumZ_app, Nat2Z.inj_add.
  rewrite (filter_ext_elem _ (fun card => rd deck card <> 0)).
  - rewrite (IH H01). f_equal. rewrite Z.add_0_l.
    rewrite filter_cons, filter_nil, rd_app_last.
    unfold sumZ. simpl. destruct Hx as [-> | ->].
    + rewrite decide_False by tauto. reflexivity.
    + rewrite decide_True by lia. reflexivity.
  - intros c Hc%elem_of_seqZ. rewrite rd_app_l by lia. reflexivity.
Qed.


(** ** Loops over the leftover block *)

Lemma for_each_indexed {St : Type} (pre l : list Z)
  (body : Z -> St -> result St) (s : St) :
  for_each (seqZ (Z.of_nat (length pre)) (Z.of_nat (length l)))
    (fun i s => do x <- arr_get (pre ++ l) i; body x s) s
  = for_each l body s.
Proof.
  revert pre s. induction l as [| x l IH]; intros pre s.
  - reflexivity.
  - rewrite seqZ_cons by (simpl; lia). simpl for_each.
    assert (arr_get (pre ++ x :: l) (Z.of_nat (length pre)) = Ok x) as ->.
    { apply arr_get_Ok. split; [lia |]. rewrite Nat2Z.id.
      rewrite lookup_app_r by lia. rewrite Nat.sub_diag. reflexivity. }
    simpl. destruct (body x s) as [s' | e]; simpl; [| reflexivity].
    specialize (IH (pre ++ [x]) s').
    rewrite length_app in IH. simpl in IH.
    replace ((pre ++ [x]) ++ l) with (pre ++ x :: l) in IH
      by (rewrite <- app_assoc; reflexivity).
    rewrite <- IH. f_equal. f_equal; lia.
Qed.

Lemma for_each_all {St : Type} (l : list Z) (body : Z -> St -> result St)
  (s : St) :
  for_each (seqZ 0 (Z.of_nat (length l)))
    (fun i s => do x <- arr_get l i; body x s) s
  = for_each l body s.
Proof. apply (for_each_indexed []). Qed.

Section Properties.

Context {hdr : Header}.

Lemma take_left_over_all (dizhu : Z) (left_over : list Z) holds :
  Z.of_nat (length left_over) = kNumCardsLeftOver ->
  take_left_over dizhu left_over holds =
    for_each left_over (fun rank h => arr2_upd h dizhu rank Z.succ) holds.
Proof.
  intros H. unfold take_left_over. rewrite <- H. apply for_each_all.
Qed.

Lemma add_cards_spec (dizhu : Z) (cards : list Z) holds holds' :
  for_each cards (fun rank h => arr2_upd h dizhu rank Z.succ) holds
    = Ok holds' ->
  shape holds' = shape holds /\
  sumZ2 holds' = sumZ2 holds + Z.of_nat (length cards) /\
  forall p r,
    rd2 holds' p r =
      rd2 holds p r + (if decide (p = dizhu) then count_rank r cards else 0).
Proof.
  revert holds. induction cards as [| c cards IH]; intros holds H.
  - simpl in H. injection H as <-. repeat split; [simpl; lia |].
    intros p r. unfold count_rank. simpl. destruct (decide (p = dizhu)); lia.
  - simpl in H.
    destruct (arr2_upd holds dizhu c Z.succ) as [h1 | e] eqn:E1; simpl in H;
      [| discriminate].
    destruct (IH _ H) as (Hshape & Hsum & Hrd).
    repeat split.
    + rewrite Hshape. eapply arr2_upd_shape, E1.
    + rewrite Hsum, (arr2_upd_sum _ _ _ _ _ E1). simpl length. lia.
    + intros p r. rewrite Hrd, (arr2_upd_rd2 _ _ _ _ _ p r E1).
      unfold count_rank. rewrite filter_cons.
      destruct (decide (p = dizhu)) as [-> | Hp].
      * destruct (decide (c = r)) as [-> | Hc].
        -- rewrite decide_True by auto. simpl length. lia.
        -- rewrite decide_False by (intros [_ ->]; auto). lia.
      * rewrite decide_False by tauto. lia.
Qed.

Lemma add_cards_in_range (dizhu : Z) (cards : list Z) holds (m : nat) :
  Forall (fun n => n = m) (shape holds) ->
  0 <= dizhu < Z.of_nat (length holds) ->
  Forall (fun r => 0 <= r < Z.of_nat m) cards ->
  exists holds',
    for_each cards (fun rank h => arr2_upd h dizhu rank Z.succ) holds
      = Ok holds'.
Proof.
  intros Hshape Hd Hcards. revert holds Hshape Hd.
  induction Hcards as [| c cards Hc _ IH]; intros holds Hshape Hd.
  - simpl. eauto.
  - simpl.
    destruct (arr2_upd_in_range holds dizhu c Z.succ m) as [h1 E1]; auto.
    rewrite E1. simpl. apply IH.
    + rewrite (arr2_upd_shape _ _ _ _ _ E1). assumption.
    + assert (length h1 = length holds) as ->; [| assumption].
      pose proof (f_equal length (arr2_upd_shape _ _ _ _ _ E1)) as HL.
      unfold shape in HL. rewrite !length_fmap in HL. assumption.
Qed.
Lemma undealt_length (s : GITCGState) :
  0 <= kNumCards -> shaped s ->
  Z.of_nat (length (undealt s)) = pool_count s.
Proof.
  intros HN Hs. unfold undealt, pool_count.
  rewrite <- (count_nonzero _ (shaped_deck01 _ Hs)).
  rewrite (shaped_deck _ Hs), Z2Nat.id by assumption. reflexivity.
Qed.

Lemma undealt_ranks (s : GITCGState) :
  header_ok ->
  Forall (fun r => 0 <= r < kNumRanks) (CardToRank <$> undealt s).
Proof.
  intros (_ & _ & Hrank). apply Forall_fmap, Forall_forall.
  intros c [_ Hc%elem_of_seqZ]%list_elem_of_filter. apply Hrank. lia.
Qed.


(** ** What each operation changes *)

Ltac bind_ok H :=
  match type of H with
  | bind ?e _ = Ok _ =>
      let E := fresh "E" in
      destruct e eqn:E; [cbn [bind] in H | discriminate H]
  end.

Lemma SPIEL_CHECK_Ok (b : bool) (u : unit) : SPIEL_CHECK b = Ok u -> b = true.
Proof. destruct b; [reflexivity | discriminate]. Qed.

Lemma AfterPlayHand_rank_frame (p : Z) (used : list Z) (rank : Z)
  (s s' : GITCGState) (f f' : bool) :
  AfterPlayHand_rank p used rank (s, f) = Ok (s', f') ->
  exists holds' played',
    s' = set_played_deck_ played' (set_holds_ holds' s) /\
    shape holds' = shape (holds_ s) /\
    length played' = length (played_deck_ s) /\
    sumZ2 holds' + sumZ played' = hand_count s + played_count s.
Proof.
  unfold AfterPlayHand_rank. intros H.
  bind_ok H. bind_ok H. bind_ok H. bind_ok H. bind_ok H.
  cbn [holds_ played_deck_ set_holds_] in H. bind_ok H.
  injection H as <- <-.
  eexists _, _. split; [reflexivity |].
  split; [eapply arr2_upd_shape; eassumption |].
  split; [eapply arr_upd_length; eassumption |].
  unfold hand_count, played_count.
  erewrite arr2_upd_sum, arr_upd_sum by eassumption.
  match goal with E : arr_get (holds_ s) p = Ok ?hand |- _ =>
    assert (rd2 (holds_ s) p rank = rd hand rank) as ->
      by (unfold rd2; rewrite E; reflexivity)
  end.
  lia.
Qed.

Lemma AfterPlayHand_frame (s s' : GITCGState) (p act : Z) (all : bool) :
  AfterPlayHand s p act = Ok (s', all) ->
  exists holds' played',
    s' = set_played_deck_ played' (set_holds_ holds' s) /\
    shape holds' = shape (holds_ s) /\
    length played' = length (played_deck_ s) /\
    sumZ2 holds' + sumZ played' = hand_count s + played_count s.
Proof.
  unfold AfterPlayHand. generalize (seqZ 0 kNumRanks) as idx.
  generalize true as f. intros f idx. revert s f.
  induction idx as [| rank idx IH]; intros s f H.
  - simpl in H. injection H as <- <-.
    exists (holds_ s), (played_deck_ s). destruct s. repeat split.
  - cbn [for_each] in H. bind_ok H.
    match goal with E : AfterPlayHand_rank _ _ _ _ = Ok ?a |- _ =>
      destruct a as [s1 f1];
      apply AfterPlayHand_rank_frame in E as (h1 & p1 & -> & Hs1 & Hl1 & Hc1)
    end.
    apply IH in H as (h2 & p2 & -> & Hs2 & Hl2 & Hc2).
    exists h2, p2. split; [reflexivity |].
    cbn [holds_ played_deck_ set_holds_ set_played_deck_] in *.
    unfold hand_count, played_count in *.
    cbn [holds_ played_deck_ set_holds_ set_played_deck_] in *.
    repeat split; congruence.
Qed.

Lemma ScoreUp_frame (s s' : GITCGState) :
  ScoreUp s = Ok s' ->
  exists r, s' = set_returns_ r s /\ length r = length (returns_ s).
Proof.
  unfold ScoreUp. intros H. destruct (decide (dizhu_ s = kInvalidPlayer)).
  - injection H as <-. exists (returns_ s). destruct s. split; reflexivity.
  - bind_ok H. bind_ok H. bind_ok H. bind_ok H. injection H as <-.
    eexists. split; [reflexivity |].
    repeat match goal with E : arr_set _ _ _ = Ok _ |- _ =>
      apply arr_set_length in E end.
    congruence.
Qed.


(** ** The invariant of reachable states *)

(** Reduce the projections of updated states. *)
Ltac st_simpl :=
  cbn [
    history_ phase_ card_face_up_position_ card_rank_face_up_
    first_player_ current_player_ dizhu_ final_winner_ winning_bid_
    num_passes_ num_played_ trick_played_ bombs_played_ new_trick_begin_
    players_hands_played dealer_deck_ holds_ cards_left_over_
    played_deck_ tricks_ returns_ set_history_ set_phase_
    set_card_face_up_position_ set_card_rank_face_up_ set_first_player_
    set_current_player_ set_dizhu_ set_final_winner_ set_winning_bid_
    set_num_passes_ set_num_played_ set_trick_played_ set_bombs_played_
    set_new_trick_begin_ set_players_hands_played set_dealer_deck_
    set_holds_ set_cards_left_over_ set_played_deck_ set_tricks_
    set_returns_
  ] in *.

Ltac inv_counts :=
  unfold pool_count, hand_count, played_count, leftover_size in *; st_simpl.

Ltac inv_unfold :=
  unfold inv_deal, inv_auction, inv_play, inv_over, dealt, before_play in *;
  inv_counts.

Lemma inv_init : header_ok -> inv NewInitialState.
Proof.
  intros (HN & HP & _). split.
  - constructor; unfold NewInitialState; st_simpl.
    + unfold shape. rewrite fmap_replicate, length_replicate. reflexivity.
    + apply length_replicate.
    + apply length_replicate.
    + apply length_replicate.
    + apply length_replicate.
    + apply Forall_replicate. auto.
  - unfold inv_deal, before_play, NewInitialState. inv_counts.
    rewrite sumZ2_replicate, !sumZ_replicate, decide_True by reflexivity.
    repeat split; auto; lia.
Qed.

Lemma shaped_frame (s s' : GITCGState) :
  shaped s ->
  shape (holds_ s') = shape (holds_ s) ->
  length (played_deck_ s') = length (played_deck_ s) ->
  length (players_hands_played s') = length (players_hands_played s) ->
  length (returns_ s') = length (returns_ s) ->
  dealer_deck_ s' = dealer_deck_ s ->
  shaped s'.
Proof.
  intros [] H1 H2 H3 H4 H5. constructor; congruence.
Qed.

Lemma rem3_seat (n : Z) : 0 <= n -> seat (Z.rem n kNumPlayers).
Proof.
  intros H. unfold seat, kNumPlayers. rewrite Z.rem_mod_nonneg by lia.
  apply Z.mod_pos_bound. lia.
Qed.

Lemma deal_step (s s' : GITCGState) (act : Z) (h : list PlayerAction) :
  header_ok -> inv s -> phase_ s = kDeal ->
  act ∈ DealLegalActions s ->
  ApplyDealAction s act = Ok s' ->
  h = history_ s ++ [mkPlayerAction (CurrentPlayer s) act] ->
  inv (set_history_ h s').
Proof.
  intros Hok [Hsh Hinv] Hph Hlegal H ->. rewrite Hph in Hinv.
  destruct Hinv as (Hleft & Hsum & Hbefore & Hbid & Hfirst & Hhist).
  pose proof Hok as (HN & HP & Hrank).
  unfold ApplyDealAction, DealLegalActions in *.
  destruct (decide (card_face_up_position_ s = -1)) as [Hup | Hup].
  - (* the revealed position is chosen *)
    injection H as <-. apply elem_of_seqZ in Hlegal.
    destruct Hhist as [Hh Hpool]. split.
    + eapply shaped_frame; [exact Hsh | reflexivity ..].
    + st_simpl. rewrite Hph. unfold inv_deal, before_play in *.
      inv_counts. rewrite decide_False by lia. rewrite Hh. simpl.
      repeat split; try tauto; try lia. discriminate.
  - (* a card is dealt *)
    destruct Hhist as [Hh Hpool].
    apply list_elem_of_fmap in Hlegal as (card & -> & Hcard).
    apply list_elem_of_filter in Hcard as [Hnz Hcard%elem_of_seqZ].
    replace (card + kDealingActionBase - kDealingActionBase) with card in H
      by lia.
    bind_ok H.
    set (s1 := if decide _ then _ else s) in H.
    assert (Hs1 : holds_ s1 = holds_ s /\ dealer_deck_ s1 = dealer_deck_ s /\
                  cards_left_over_ s1 = cards_left_over_ s /\
                  phase_ s1 = phase_ s /\
                  played_deck_ s1 = played_deck_ s /\
                  tricks_ s1 = tricks_ s /\ returns_ s1 = returns_ s /\
                  players_hands_played s1 = players_hands_played s /\
                  winning_bid_ s1 = winning_bid_ s /\
                  card_face_up_position_ s1 = card_face_up_position_ s /\
                  trick_played_ s1 = trick_played_ s /\
                  (first_player_ s1 = kInvalidPlayer \/
                   seat (first_player_ s1))).
    { subst s1. destruct (decide _); st_simpl; repeat split; auto.
      right. apply rem3_seat.
      destruct (history_ s); [contradiction | simpl; lia]. }
    destruct Hs1
      as (E1 & E2 & E3 & E4 & E5 & E6 & E7 & E8 & E9 & E10 & E14 & Hf1).
    clearbody s1. bind_ok H. st_simpl. bind_ok H. st_simpl.
    rewrite E1 in *. rewrite E2 in *.
    match goal with E : arr2_upd _ _ _ _ = Ok ?h |- _ =>
      pose proof (arr2_upd_shape _ _ _ _ _ E) as Hshape;
      pose proof (arr2_upd_sum _ _ _ _ _ E) as Hhsum; rename h into holds'
    end.
    match goal with E : arr_upd _ _ _ = Ok ?d |- _ =>
      pose proof (arr_upd_length _ _ _ _ E) as Hdlen;
      pose proof (arr_upd_sum _ _ _ _ E) as Hdsum;
      pose proof E as (x & Hx & Hd)%arr_upd_Ok; rename d into deck'
    end.
    assert (rd (dealer_deck_ s) card = 1) as Hone.
    { pose proof (shaped_deck01 _ Hsh) as H01. rewrite Forall_forall in H01.
      apply arr_get_Ok in Hx as [_ Hx']. unfold rd, arr_get in *.
      rewrite decide_True in * by lia. rewrite Hx' in *.
      destruct (H01 x); [eapply list_elem_of_lookup_2, Hx' | | ]; lia. }
    assert (Forall (fun x => x = 0 \/ x = 1) deck') as H01'.
    { rewrite Hd. apply Forall_insert; [apply (shaped_deck01 _ Hsh) |].
      rewrite (rd_Ok _ _ _ Hx) in Hone. subst x. auto. }
    rewrite Hone in Hdsum.
    assert (shaped (set_dealer_deck_ deck' (set_holds_ holds' s1))) as Hsh'.
    { destruct Hsh. constructor; st_simpl; try congruence. }
    destruct (decide (_ = kNumCards - kNumCardsLeftOver)) as [Hend | Hend].
    + (* the last card of the deal *)
      st_simpl. bind_ok H. bind_ok H. injection H as <-.
      repeat match goal with E : SPIEL_CHECK _ = Ok _ |- _ =>
        apply SPIEL_CHECK_Ok, bool_decide_eq_true in E end.
      pose proof (undealt_length _ HN Hsh') as HL.
      pose proof (undealt_ranks (set_dealer_deck_ deck' (set_holds_ holds' s1))
                    Hok) as HR.
      split.
      * destruct Hsh'. constructor; st_simpl; assumption.
      * st_simpl. unfold inv_auction, dealt, before_play in *.
        rewrite E3, Hleft, app_nil_l.
        unfold undealt in *. inv_counts. rewrite length_fmap, HL.
        rewrite E5, E6, E7, E9, E14, Hbid.
        repeat split; try tauto; try congruence; try lia.
        destruct Hf1 as [Hf1 | Hf1]; [exfalso; lia | apply Hf1].
    + (* the deal goes on *)
      injection H as <-. split.
      * destruct Hsh'. constructor; st_simpl; assumption.
      * st_simpl. rewrite E4, Hph. unfold inv_deal, before_play in *.
        inv_counts. rewrite E10, decide_False by assumption.
        rewrite length_app. simpl length.
        rewrite E3, E5, E6, E7, E9, E14.
        repeat split; try tauto; try congruence; try lia.
        destruct (history_ s); discriminate.
Qed.


Lemma inv_set_history (s : GITCGState) (h : list PlayerAction) :
  phase_ s <> kDeal -> inv s -> inv (set_history_ h s).
Proof.
  intros Hph [Hsh Hinv]. split.
  - eapply shaped_frame; [exact Hsh | reflexivity ..].
  - st_simpl. destruct (phase_ s); [contradiction | exact Hinv ..].
Qed.

Lemma conclude_auction_inv (s s' : GITCGState) :
  shaped s -> dealt s -> hand_count s + leftover_size s = kNumCards ->
  played_count s = 0 ->
  conclude_auction s = Ok s' ->
  inv s' /\ phase_ s' = kPlay.
Proof.
  intros Hsh Hdealt Hsum Hplayed H. unfold conclude_auction in H. bind_ok H.
  injection H as <-. split; [| reflexivity].
  destruct Hdealt as (Hpool & Hleft & Hranks).
  match goal with E : take_left_over _ _ _ = Ok ?h |- _ =>
    rewrite take_left_over_all in E by exact Hleft;
    apply add_cards_spec in E as (Hshape & Hhsum & _)
  end.
  split.
  - destruct Hsh. constructor; st_simpl; congruence.
  - st_simpl. inv_unfold.
    repeat split; try assumption; try lia.
    intros Hnil. symmetry in Hnil. apply app_cons_not_nil in Hnil as [].
Qed.

Lemma bidding_step (s s' : GITCGState) (act : Z) :
  inv s -> phase_ s = kAuction ->
  ApplyBiddingAction s act = Ok s' ->
  inv s' /\ phase_ s' <> kDeal.
Proof.
  intros [Hsh Hinv] Hph H. rewrite Hph in Hinv.
  destruct Hinv as (Hdealt & Hsum & Hbefore & Hcur & Hdizhu).
  pose proof Hbefore as (Hplayed & Htricks & Htp & Hret).
  assert (seat (Z.rem (current_player_ s + 1) kNumPlayers)) as Hnext
    by (apply rem3_seat; unfold seat in Hcur; lia).
  unfold ApplyBiddingAction in H.
  destruct (decide (act = kPass)) as [-> | Hbid]; st_simpl.
  - destruct (decide (num_passes_ s + 1 = kNumPlayers)); st_simpl;
      [| destruct (decide (_ /\ _))]; st_simpl.
    + injection H as <-. split; [| discriminate]. split.
      * eapply shaped_frame; [exact Hsh | reflexivity ..].
      * st_simpl. inv_unfold. rewrite Htricks. tauto.
    + apply conclude_auction_inv in H as [H1 H2]; try assumption.
      * split; [exact H1 | congruence].
      * eapply shaped_frame; [exact Hsh | reflexivity ..].
    + injection H as <-. split; [| st_simpl; congruence]. split.
      * eapply shaped_frame; [exact Hsh | reflexivity ..].
      * st_simpl. rewrite Hph. inv_unfold. tauto.
  - destruct (bool_decide (act - kBiddingActionBase = kNumBids)).
    + apply conclude_auction_inv in H as [H1 H2]; try assumption.
      * split; [exact H1 | congruence].
      * eapply shaped_frame; [exact Hsh | reflexivity ..].
    + injection H as <-. split; [| st_simpl; congruence]. split.
      * eapply shaped_frame; [exact Hsh | reflexivity ..].
      * st_simpl. rewrite Hph. inv_unfold. tauto.
Qed.

Lemma play_step (s s' : GITCGState) (act : Z) :
  inv s -> phase_ s = kPlay ->
  ApplyPlayAction s act = Ok s' ->
  inv s' /\ phase_ s' <> kDeal.
Proof.
  intros [Hsh Hinv] Hph H. rewrite Hph in Hinv.
  destruct Hinv as (Hdealt & Hsum & Htricks).
  unfold ApplyPlayAction in H.
  destruct (decide (act = kPass)) as [-> | Hact]; st_simpl.
  - destruct (decide (num_passes_ s + 1 = kNumPlayers - 1)).
    + bind_ok H. injection H as <-. split; [| st_simpl; congruence]. split.
      * eapply shaped_frame; [exact Hsh | reflexivity ..].
      * st_simpl. rewrite Hph. inv_unfold. repeat split; try tauto.
        intros Hnil. symmetry in Hnil. apply app_cons_not_nil in Hnil as [].
    + injection H as <-. split; [| st_simpl; congruence]. split.
      * eapply shaped_frame; [exact Hsh | reflexivity ..].
      * st_simpl. rewrite Hph. inv_unfold. tauto.
  - set (s1 := if decide (act >= kBombActionBase) then _ else _) in H.
    assert (exists bombs,
      s1 = set_bombs_played_ bombs
             (set_num_passes_ 0
                (set_num_played_ (num_played_ s + 1) s))) as [bombs Hs1].
    { subst s1. destruct (decide _);
        [exists (bombs_played_ s + 1) | exists (bombs_played_ s)];
        reflexivity. }
    clearbody s1. subst s1.
    st_simpl. bind_ok H.
    set (s2 := if new_trick_begin_ _ then _ else _) in H.
    match goal with E : arr_upd _ _ _ = Ok ?l |- _ =>
      apply arr_upd_length in E as Hlen; rename l into hands_played
    end.
    assert (exists b,
      s2 = set_new_trick_begin_ b
             (set_players_hands_played hands_played
                (set_bombs_played_ bombs
                   (set_num_passes_ 0
                      (set_num_played_ (num_played_ s + 1) s))))) as [b Hs2].
    { subst s2. st_simpl. destruct (new_trick_begin_ s); eauto. }
    clearbody s2. subst s2. st_simpl. unfold CurrentTrick in H. st_simpl. bind_ok H. bind_ok H.
    match goal with E : arr_set _ _ _ = Ok ?l |- _ =>
      apply arr_set_length in E as Htl; rename l into tricks'
    end.
    assert (tricks' <> []) as Htricks'.
    { destruct tricks', (tricks_ s); auto; discriminate. }
    bind_ok H.
    match goal with E : AfterPlayHand _ _ _ = Ok ?a |- _ =>
      destruct a as [s3 all_played];
      apply AfterPlayHand_frame in E as (h3 & p3 & -> & Hs3 & Hl3 & Hc3)
    end.
    unfold hand_count, played_count in Hc3. st_simpl.
    destruct all_played.
    + bind_ok H. injection H as <-.
      match goal with E : ScoreUp _ = Ok ?a |- _ =>
        apply ScoreUp_frame in E as (r & -> & Hr)
      end.
      st_simpl. split; [| discriminate]. split.
      * destruct Hsh. constructor; st_simpl; congruence.
      * st_simpl. inv_unfold.
        destruct tricks'; [contradiction |]. split; [assumption | lia].
    + injection H as <-. st_simpl. split; [| congruence]. split.
      * destruct Hsh. constructor; st_simpl; congruence.
      * st_simpl. rewrite Hph. inv_unfold.
        repeat split; try tauto; lia.
Qed.

Lemma apply_inv (s s' : GITCGState) (act : Z) :
  header_ok -> inv s -> legal s act -> ApplyAction s act = Ok s' -> inv s'.
Proof.
  intros Hok Hinv (l & Hl & Hact) H. unfold ApplyAction in H. bind_ok H.
  injection H as <-. unfold DoApplyAction, LegalActions in *.
  destruct (phase_ s) eqn:Hph.
  - injection Hl as <-. eapply deal_step; eauto.
  - match goal with E : ApplyBiddingAction _ _ = Ok _ |- _ =>
      apply bidding_step in E as [H1 H2]; try assumption end.
    apply inv_set_history; assumption.
  - match goal with E : ApplyPlayAction _ _ = Ok _ |- _ =>
      apply play_step in E as [H1 H2]; try assumption end.
    apply inv_set_history; assumption.
  - discriminate.
Qed.

Lemma reachable_inv (s : GITCGState) : header_ok -> reachable s -> inv s.
Proof.
  intros Hok Hs. induction Hs as [| s s' act _ IH Hlegal Happly].
  - apply inv_init, Hok.
  - eapply apply_inv; eassumption.
Qed.


(** ** The auction *)

Lemma ApplyBiddingAction_pass (s : GITCGState) :
  ApplyBiddingAction s kPass =
    let s1 := set_num_passes_ (num_passes_ s + 1) s in
    if decide (num_passes_ s + 1 = 3) then
      Ok (next_player (set_phase_ kGameOver s1))
    else if decide (num_passes_ s + 1 = 2 /\ winning_bid_ s > 0) then
      conclude_auction s1
    else Ok (next_player s1).
Proof.
  unfold ApplyBiddingAction, kNumPlayers.
  destruct (decide (kPass = kPass)); [| contradiction]. st_simpl.
  change (3 - 1) with 2.
  destruct (decide (num_passes_ s + 1 = 3)); [reflexivity |].
  destruct (decide (_ /\ _)); reflexivity.
Qed.

Lemma ApplyBiddingAction_bid (s : GITCGState) (act : Z) :
  act <> kPass ->
  ApplyBiddingAction s act =
    let s1 :=
      set_winning_bid_ (act - kBiddingActionBase)
        (set_dizhu_ (current_player_ s) (set_num_passes_ 0 s)) in
    if decide (act - kBiddingActionBase = kNumBids) then conclude_auction s1
    else Ok (next_player s1).
Proof.
  intros Hact. unfold ApplyBiddingAction.
  destruct (decide (act = kPass)); [contradiction |]. st_simpl.
  unfold bool_decide.
  destruct (decide_rel _ _ _); destruct (decide _); try contradiction;
    reflexivity.
Qed.

(** C10: a pass that does not end the auction changes the pass counter and
    the player to act (the next seat in turn) and nothing else: the hands,
    the pool, the leftover block, the winning bid, the landlord and the
    trick list are those of the state before. *)
Theorem auction_pass_frame (s : GITCGState) :
  phase_ s = kAuction ->
  num_passes_ s + 1 < 3 ->
  (winning_bid_ s > 0 -> num_passes_ s + 1 < 2) ->
  exists s',
    DoApplyAction s kPass = Ok s' /\
    s' = set_current_player_ (Z.rem (current_player_ s + 1) kNumPlayers)
           (set_num_passes_ (num_passes_ s + 1) s) /\
    num_passes_ s' = num_passes_ s + 1 /\
    current_player_ s' = Z.rem (current_player_ s + 1) 3 /\
    holds_ s' = holds_ s /\
    dealer_deck_ s' = dealer_deck_ s /\
    cards_left_over_ s' = cards_left_over_ s /\
    winning_bid_ s' = winning_bid_ s /\
    dizhu_ s' = dizhu_ s /\
    tricks_ s' = tricks_ s /\
    phase_ s' = kAuction.
Proof.
  intros Hph Hn Hbid. eexists. split.
  - unfold DoApplyAction. rewrite Hph, ApplyBiddingAction_pass. cbv zeta.
    destruct (decide (num_passes_ s + 1 = 3)); [exfalso; lia |].
    destruct (decide (_ /\ _)); [exfalso; lia |].
    reflexivity.
  - unfold next_player. st_simpl. repeat split; auto.
Qed.

Lemma conclude_auction_spec (s s' : GITCGState) :
  leftover_size s = kNumCardsLeftOver ->
  conclude_auction s = Ok s' ->
  phase_ s' = kPlay /\
  current_player_ s' = dizhu_ s /\
  dizhu_ s' = dizhu_ s /\
  winning_bid_ s' = winning_bid_ s /\
  tricks_ s' = tricks_ s ++ [Trick_Trick (dizhu_ s) kInvalidAction] /\
  new_trick_begin_ s' = true /\
  num_passes_ s' = 0 /\
  cards_left_over_ s' = cards_left_over_ s /\
  dealer_deck_ s' = dealer_deck_ s /\
  returns_ s' = returns_ s /\
  forall p r,
    rd2 (holds_ s') p r =
      rd2 (holds_ s) p r +
      (if decide (p = dizhu_ s) then count_rank r (cards_left_over_ s)
       else 0).
Proof.
  intros Hleft H. unfold conclude_auction in H. bind_ok H.
  injection H as <-. st_simpl. repeat split.
  match goal with E : take_left_over _ _ _ = Ok ?h |- _ =>
    rewrite take_left_over_all in E by exact Hleft;
    apply add_cards_spec in E as (_ & _ & Hrd)
  end.
  exact Hrd.
Qed.

Lemma conclude_auction_Ok (s : GITCGState) :
  shaped s -> dealt s -> seat (dizhu_ s) ->
  exists s', conclude_auction s = Ok s'.
Proof.
  intros Hsh (_ & Hleft & Hranks) Hseat. unfold conclude_auction.
  rewrite take_left_over_all by exact Hleft.
  destruct (add_cards_in_range (dizhu_ s) (cards_left_over_ s) (holds_ s)
              (Z.to_nat kNumRanks)) as [h Hh].
  - rewrite (shaped_holds _ Hsh). apply Forall_replicate. reflexivity.
  - pose proof (f_equal length (shaped_holds _ Hsh)) as HL.
    unfold shape in HL. rewrite length_fmap, length_replicate in HL.
    rewrite HL. unfold seat in Hseat. lia.
  - eapply Forall_impl; [exact Hranks |]. simpl. intros r Hr. lia.
  - rewrite Hh. cbn [bind]. eauto.
Qed.

(** C3: in the auction a pass raises the pass counter by one.  When the
    counter reaches 3 and nobody has bid, the game is over at once: the
    returns are all 0, no hand received the leftover block and no trick
    exists.  When it reaches 2 after a bid, the auction is concluded for the
    landlord: every card of the leftover block is added to the landlord's
    hand, the phase is Play, the one trick is trick 0 led by the landlord,
    and the landlord is to act (the counter starts again at 0).  Any other
    pass leaves the auction running with the counter raised. *)
Theorem auction_pass (s : GITCGState) :
  header_ok -> reachable s -> phase_ s = kAuction ->
  exists s',
    DoApplyAction s kPass = Ok s' /\
    (num_passes_ s + 1 = 3 -> winning_bid_ s = 0 ->
       phase_ s' = kGameOver /\
       num_passes_ s' = num_passes_ s + 1 /\
       returns_ s' = [0; 0; 0] /\
       holds_ s' = holds_ s /\
       tricks_ s' = [] /\
       dizhu_ s' = dizhu_ s) /\
    (num_passes_ s + 1 = 2 -> winning_bid_ s > 0 ->
       phase_ s' = kPlay /\
       current_player_ s' = dizhu_ s /\
       dizhu_ s' = dizhu_ s /\
       (exists trick0,
          tricks_ s' = [trick0] /\ trick_played_ s' = 0 /\
          leader_ trick0 = dizhu_ s /\ winning_player_ trick0 = dizhu_ s /\
          winning_action_ trick0 = kInvalidAction) /\
       num_passes_ s' = 0 /\
       forall p r,
         rd2 (holds_ s') p r =
           rd2 (holds_ s) p r +
           (if decide (p = dizhu_ s) then count_rank r (cards_left_over_ s)
            else 0)) /\
    (num_passes_ s + 1 <> 3 ->
     ~ (num_passes_ s + 1 = 2 /\ winning_bid_ s > 0) ->
       phase_ s' = kAuction /\ num_passes_ s' = num_passes_ s + 1).
Proof.
  intros Hok Hreach Hph.
  destruct (reachable_inv s Hok Hreach) as [Hsh Hinv]. rewrite Hph in Hinv.
  destruct Hinv
    as (Hdealt & Hsum & (Hplayed & Htricks & Htp & Hret) & Hcur & Hd).
  unfold DoApplyAction. rewrite Hph, ApplyBiddingAction_pass. cbv zeta.
  unfold next_player.
  destruct (decide (num_passes_ s + 1 = 3)) as [H3 | H3];
    [| destruct (decide (num_passes_ s + 1 = 2 /\ winning_bid_ s > 0))
         as [[H2 Hbid] | H2]].
  - eexists. split; [reflexivity |]. st_simpl.
    split; [| split]; [| intros; exfalso; lia | intros; exfalso; lia].
    intros _ _. rewrite Hret, Htricks. repeat split.
  - set (s1 := set_num_passes_ (num_passes_ s + 1) s).
    destruct (conclude_auction_Ok s1) as [s' Hs'].
    + eapply shaped_frame; [exact Hsh | reflexivity ..].
    + exact Hdealt.
    + apply Hd, Hbid.
    + exists s'. split; [exact Hs' |].
      split; [| split]; [intros; exfalso; lia | | intros; exfalso; tauto].
      intros _ _.
      assert (trick_played_ s' = 0) as Htp'.
      { unfold conclude_auction in Hs'. bind_ok Hs'. injection Hs' as <-.
        exact Htp. }
      apply conclude_auction_spec in Hs'
        as (E1 & E2 & E3 & E4 & E5 & E6 & E7 & E8 & E9 & E10 & E11);
        [| apply Hdealt].
      subst s1. st_simpl. rewrite Htricks in E5.
      repeat split; try assumption.
      eexists. split; [exact E5 |]. repeat split. exact Htp'.
  - eexists. split; [reflexivity |]. st_simpl.
    split; [| split]; [intros; exfalso; lia | intros; exfalso; lia |].
    intros _ _. split; [exact Hph | reflexivity].
Qed.


Lemma BiddingLegalActions_spec (s : GITCGState) (act : Z) :
  act ∈ BiddingLegalActions s <->
  act = kPass \/
  exists v, winning_bid_ s < v <= kNumBids /\ act = kBiddingActionBase + v.
Proof.
  unfold BiddingLegalActions. rewrite elem_of_cons, list_elem_of_fmap.
  split; (intros [? | (v & ? & Hv)]; [left; assumption | right]);
    exists v; split; try assumption.
  - apply elem_of_seqZ in Hv. lia.
  - apply elem_of_seqZ. lia.
Qed.

Lemma conclude_auction_bid (s s' : GITCGState) :
  conclude_auction s = Ok s' -> winning_bid_ s' = winning_bid_ s.
Proof.
  unfold conclude_auction. intros H. bind_ok H. injection H as <-.
  reflexivity.
Qed.

(** What one legal auction action does to the winning bid. *)
Lemma bidding_step_bid (s s' : GITCGState) (act : Z) :
  act ∈ BiddingLegalActions s ->
  ApplyBiddingAction s act = Ok s' ->
  if decide (act = kPass) then winning_bid_ s' = winning_bid_ s
  else winning_bid_ s' = act - kBiddingActionBase /\
       winning_bid_ s < act - kBiddingActionBase <= kNumBids.
Proof.
  intros Hlegal H. destruct (decide (act = kPass)) as [-> | Hact].
  - rewrite ApplyBiddingAction_pass in H. cbv zeta in H.
    repeat destruct (decide _);
      [injection H as <- | apply conclude_auction_bid in H; rewrite H
      | injection H as <-]; reflexivity.
  - apply BiddingLegalActions_spec in Hlegal as [? | (v & Hv & ->)];
      [contradiction |].
    rewrite ApplyBiddingAction_bid in H by assumption. cbv zeta in H.
    replace (kBiddingActionBase + v - kBiddingActionBase) with v in * by lia.
    split; [| exact Hv].
    destruct (decide _);
      [apply conclude_auction_bid in H; rewrite H | injection H as <-];
      reflexivity.
Qed.

(** C5: in the auction the legal actions are Pass and the bids strictly
    above the winning bid and at most [kNumBids], no others.  Hence along
    any run of legal auction actions the accepted bids form a strictly
    increasing sequence, each above the winning bid the run started from,
    and the winning bid never decreases. *)
Theorem bidding_legal_and_monotone :
  (forall (s : GITCGState) (act : Z),
     phase_ s = kAuction ->
     forall l, LegalActions s = Ok l ->
       (act ∈ l <->
        act = kPass \/
        exists v,
          winning_bid_ s < v <= kNumBids /\ act = kBiddingActionBase + v)) /\
  (forall (s s' : GITCGState) (acts : list Z),
     auction_run s acts s' ->
     StronglySorted Z.lt (accepted_bids acts) /\
     Forall (fun v => winning_bid_ s < v <= kNumBids) (accepted_bids acts) /\
     winning_bid_ s <= winning_bid_ s').
Proof.
  split.
  - intros s act Hph l Hl. unfold LegalActions in Hl. rewrite Hph in Hl.
    injection Hl as <-. apply BiddingLegalActions_spec.
  - intros s s' acts Hrun.
    induction Hrun as [s | s s1 s' act acts Hph Hlegal Hstep Hrun IH].
    + repeat split; [constructor | constructor | lia].
    + destruct IH as (IHsorted & IHall & IHle).
      unfold ApplyAction, DoApplyAction in Hstep. rewrite Hph in Hstep.
      bind_ok Hstep. injection Hstep as <-. st_simpl.
      match goal with E : ApplyBiddingAction _ _ = Ok _ |- _ =>
        pose proof (bidding_step_bid _ _ _ Hlegal E) as Hbid end.
      unfold accepted_bids in *. rewrite filter_cons.
      destruct (decide (act = kPass)) as [-> | Hact].
      * rewrite decide_False by tauto. rewrite Hbid in *.
        repeat split; assumption.
      * rewrite decide_True by assumption. rewrite fmap_cons.
        destruct Hbid as [Hbid Hrange]. rewrite Hbid in *.
        repeat split.
        -- constructor; [exact IHsorted |].
           eapply Forall_impl; [exact IHall |]. simpl. intros; lia.
        -- constructor; [lia |].
           eapply Forall_impl; [exact IHall |]. simpl. intros; lia.
        -- lia.
Qed.

(** ** Legal actions of the play phase *)

(** C8: in the play phase Pass is among the legal actions exactly when
    [new_trick_begin_] is false: the leader of a fresh trick is not offered
    Pass, every other player to act is.  The combinations appended by
    [SearchForLegalActions] are ids of the play band, none of them Pass. *)
Theorem pass_legal_iff_not_leading (s : GITCGState) (hand : list Z)
  (trick : Trick) :
  (forall hand prev_action, kPass ∉ SearchForLegalActions hand prev_action) ->
  phase_ s = kPlay ->
  arr_get (holds_ s) (current_player_ s) = Ok hand ->
  CurrentTrick s = Ok trick ->
  exists l,
    LegalActions s = Ok l /\
    (kPass ∈ l <-> new_trick_begin_ s = false).
Proof.
  intros Hsearch Hph Hhand Htrick.
  unfold LegalActions, PlayLegalActions. rewrite Hph, Hhand, Htrick.
  cbn [bind]. eexists. split; [reflexivity |].
  rewrite merge_sort_Permutation, elem_of_app.
  destruct (new_trick_begin_ s).
  - split; [| discriminate].
    intros [H | H]; [inversion H | apply Hsearch in H as []].
  - split; [reflexivity |]. intros _. left. apply list_elem_of_here.
Qed.


(** ** Tricks *)

Lemma ApplyPlayAction_pass (s : GITCGState) :
  ApplyPlayAction s kPass =
    let s1 :=
      set_num_passes_ (num_passes_ s + 1)
        (set_num_played_ (num_played_ s + 1) s) in
    if decide (num_passes_ s + 1 = 2) then
      do trick <- CurrentTrick s;
      Ok (set_new_trick_begin_ true
            (set_tricks_ (tricks_ s ++ [Trick_default])
               (set_num_passes_ 0
                  (set_trick_played_ (trick_played_ s + 1)
                     (set_current_player_ (Winner trick) s1)))))
    else Ok (next_player s1).
Proof.
  unfold ApplyPlayAction, kNumPlayers.
  destruct (decide (kPass = kPass)); [| contradiction]. st_simpl.
  change (3 - 1) with 2.
  destruct (decide (num_passes_ s + 1 = 2)); reflexivity.
Qed.

(** C6: when the second pass in a row closes a trick, the closed trick's
    winner is to act, [new_trick_begin_] is set and the pass counter is
    back at 0; the trick appended to [tricks_] is the one built by the
    argument-less constructor, so its leader is that constructor's leader
    whoever won the closed trick. *)
Theorem trick_close (s : GITCGState) (trick : Trick) :
  phase_ s = kPlay ->
  num_passes_ s + 1 = kNumPlayers - 1 ->
  CurrentTrick s = Ok trick ->
  exists s',
    DoApplyAction s kPass = Ok s' /\
    phase_ s' = kPlay /\
    current_player_ s' = Winner trick /\
    new_trick_begin_ s' = true /\
    num_passes_ s' = 0 /\
    trick_played_ s' = trick_played_ s + 1 /\
    tricks_ s' = tricks_ s ++ [Trick_default] /\
    (trick_played_ s + 1 = Z.of_nat (length (tricks_ s)) ->
     CurrentTrick s' = Ok Trick_default) /\
    forall opened,
      last (tricks_ s') = Some opened -> leader_ opened = leader_ Trick_default.
Proof.
  intros Hph Hn Htrick. unfold kNumPlayers in Hn.
  unfold DoApplyAction. rewrite Hph, ApplyPlayAction_pass. cbv zeta.
  rewrite decide_True by lia. rewrite Htrick. cbn [bind].
  eexists. split; [reflexivity |]. st_simpl.
  repeat split; try assumption.
  - intros Hlast. unfold CurrentTrick. st_simpl. apply arr_get_Ok.
    split; [lia |]. rewrite Hlast, Nat2Z.id.
    rewrite lookup_app_r by lia. rewrite Nat.sub_diag. reflexivity.
  - intros opened. rewrite last_snoc. intros [= <-]. reflexivity.
Qed.

(** ** Settlement *)

Lemma int_wrap_id (x : Z) : - 2 ^ 31 <= x <= INT_MAX -> int_wrap x = x.
Proof.
  unfold int_wrap, INT_MAX. intros H.
  rewrite Z.mod_small by lia. lia.
Qed.

Lemma doubling (n : nat) (bid : Z) :
  0 <= bid -> bid * 2 ^ Z.of_nat n <= INT_MAX ->
  Nat.iter n (fun paying => int_wrap (paying * 2)) bid
  = bid * 2 ^ Z.of_nat n.
Proof.
  intros Hbid. induction n as [| n IH]; intros Hmax.
  - simpl. lia.
  - rewrite Nat2Z.inj_succ, Z.pow_succ_r in Hmax |- * by lia.
    assert (0 < 2 ^ Z.of_nat n) by (apply Z.pow_pos_nonneg; lia).
    rewrite Nat.iter_succ, IH by nia.
    rewrite int_wrap_id; unfold INT_MAX in *; nia.
Qed.

Lemma ScoreUp_paying_spec (s : GITCGState) (is_spring : bool) :
  0 <= winning_bid_ s -> 0 <= bombs_played_ s ->
  winning_bid_ s * 2 ^ (Z.b2z is_spring + bombs_played_ s) <= INT_MAX ->
  ScoreUp_paying s is_spring
  = winning_bid_ s * 2 ^ (Z.b2z is_spring + bombs_played_ s).
Proof.
  intros Hbid Hbombs Hmax. unfold ScoreUp_paying.
  assert (0 <= Z.b2z is_spring) by (destruct is_spring; simpl; lia).
  rewrite doubling; rewrite ?Z2Nat.id by lia; auto.
Qed.

Lemma list3 {A : Type} (l : list A) :
  length l = 3%nat -> exists a b c, l = [a; b; c].
Proof.
  destruct l as [| a [| b [| c [| d l]]]]; try discriminate. eauto.
Qed.

Lemma seat_cases (p : Z) : seat p -> p = 0 \/ p = 1 \/ p = 2.
Proof. unfold seat, kNumPlayers. lia. Qed.

(** [ScoreUp] on a state with a landlord, for amounts within the range of
    [int]. *)
Lemma ScoreUp_spec (s : GITCGState) :
  dizhu_ s <> kInvalidPlayer -> seat (dizhu_ s) ->
  length (players_hands_played s) = 3%nat ->
  length (returns_ s) = 3%nat ->
  0 <= winning_bid_ s -> 0 <= bombs_played_ s ->
  2 * (winning_bid_ s * 2 ^ (1 + bombs_played_ s)) <= INT_MAX ->
  exists s' is_spring,
    ScoreUp s = Ok s' /\
    ScoreUp_is_spring s = Ok is_spring /\
    let paying := winning_bid_ s * 2 ^ (Z.b2z is_spring + bombs_played_ s) in
    let sign := if decide (final_winner_ s = dizhu_ s) then 1 else -1 in
    ScoreUp_paying s is_spring = paying /\
    rd (returns_ s') (dizhu_ s) = sign * 2 * paying /\
    rd (returns_ s') (Z.rem (dizhu_ s + 1) 3) = - sign * paying /\
    rd (returns_ s') (Z.rem (dizhu_ s + 2) 3) = - sign * paying /\
    sumZ (returns_ s') = 0.
Proof.
  intros Hd Hseat Hplayed Hret Hbid Hbombs Hmax.
  destruct (list3 _ Hplayed) as (h0 & h1 & h2 & Eh).
  destruct (list3 _ Hret) as (r0 & r1 & r2 & Er).
  assert (exists b, ScoreUp_is_spring s = Ok b) as [b Hb].
  { unfold ScoreUp_is_spring. rewrite Eh.
    destruct (seat_cases _ Hseat) as [-> | [-> | ->]]; cbn; eauto. }
  assert (0 < 2 ^ bombs_played_ s) as Hpow by (apply Z.pow_pos_nonneg; lia).
  rewrite Z.pow_add_r, Z.pow_1_r in Hmax by lia.
  assert (winning_bid_ s * 2 ^ (Z.b2z b + bombs_played_ s)
          <= winning_bid_ s * (2 * 2 ^ bombs_played_ s)) as Hle.
  { destruct b; cbn [Z.b2z].
    - rewrite Z.pow_add_r, Z.pow_1_r by lia. lia.
    - rewrite Z.add_0_l. nia. }
  assert (0 <= winning_bid_ s * 2 ^ (Z.b2z b + bombs_played_ s)) as Hge.
  { apply Z.mul_nonneg_nonneg; [lia |]. apply Z.pow_nonneg. lia. }
  pose proof (ScoreUp_paying_spec s b Hbid Hbombs ltac:(lia)) as Hpay.
  exists (set_returns_
    (let paying := winning_bid_ s * 2 ^ (Z.b2z b + bombs_played_ s) in
     let sign := if decide (final_winner_ s = dizhu_ s) then 1 else -1 in
     <[Z.to_nat (Z.rem (dizhu_ s + 2) 3) := - sign * paying]>
       (<[Z.to_nat (Z.rem (dizhu_ s + 1) 3) := - sign * paying]>
          (<[Z.to_nat (dizhu_ s) := sign * 2 * paying]> (returns_ s)))) s), b.
  split; [| split; [exact Hb |]].
  - unfold ScoreUp. rewrite decide_False by assumption. rewrite Hb.
    cbn [bind]. rewrite Hpay.
    set (paying := winning_bid_ s * 2 ^ (Z.b2z b + bombs_played_ s)) in *.
    set (sign := if decide (final_winner_ s = dizhu_ s) then 1 else -1).
    assert (sign = 1 \/ sign = -1) as Hsign
      by (subst sign; destruct (decide _); auto).
    rewrite (int_wrap_id (sign * 2))
      by (unfold INT_MAX; destruct Hsign as [-> | ->]; lia).
    rewrite !int_wrap_id
      by (unfold INT_MAX in *; destruct Hsign as [-> | ->]; lia).
    rewrite Er.
    destruct (seat_cases _ Hseat) as [-> | [-> | ->]]; reflexivity.
  - cbv zeta. st_simpl. split; [exact Hpay |].
    set (paying := winning_bid_ s * 2 ^ (Z.b2z b + bombs_played_ s)) in *.
    set (sign := if decide (final_winner_ s = dizhu_ s) then 1 else -1).
    rewrite Er. clearbody sign paying.
    destruct (seat_cases _ Hseat) as [-> | [-> | ->]];
      repeat match goal with |- context [Z.rem ?a ?b] =>
        let v := eval vm_compute in (Z.rem a b) in
        change (Z.rem a b) with v end;
      repeat match goal with |- context [Z.to_nat ?a] =>
        let v := eval vm_compute in (Z.to_nat a) in
        change (Z.to_nat a) with v end;
      unfold rd, arr_get, sumZ; cbn; repeat split; lia.
Qed.


(** The play phase ends only through [ScoreUp], run on the state in which
    the player who emptied the hand is the final winner. *)
Lemma play_ends_in_ScoreUp (s s' : GITCGState) (act : Z) :
  phase_ s = kPlay ->
  ApplyPlayAction s act = Ok s' ->
  phase_ s' = kGameOver ->
  exists s3 s4,
    ScoreUp s3 = Ok s4 /\ s' = set_phase_ kGameOver s4 /\
    final_winner_ s3 = current_player_ s.
Proof.
  intros Hph H Hover. destruct (decide (act = kPass)) as [-> | Hact].
  - rewrite ApplyPlayAction_pass in H. cbv zeta in H.
    destruct (decide _); [bind_ok H |]; injection H as <-;
      unfold next_player in Hover; st_simpl; congruence.
  - unfold ApplyPlayAction in H.
    destruct (decide (act = kPass)); [contradiction |]. st_simpl.
    set (s1 := if decide (act >= kBombActionBase) then _ else _) in H.
    assert (current_player_ s1 = current_player_ s /\ phase_ s1 = kPlay)
      as [Hc1 Hp1] by (subst s1; destruct (decide _); st_simpl; auto).
    clearbody s1. bind_ok H.
    set (s2 := if new_trick_begin_ _ then _ else _) in H.
    assert (current_player_ s2 = current_player_ s /\ phase_ s2 = kPlay)
      as [Hc2 Hp2]
      by (subst s2; destruct (new_trick_begin_ _); st_simpl; auto).
    clearbody s2. bind_ok H. bind_ok H. st_simpl. bind_ok H.
    match goal with E : AfterPlayHand _ _ _ = Ok ?a |- _ =>
      destruct a as [s3 all_played];
      apply AfterPlayHand_frame in E as (h3 & p3 & -> & _)
    end.
    st_simpl. destruct all_played.
    + bind_ok H. injection H as <-. eexists _, _.
      split; [eassumption |]. split; [reflexivity |]. st_simpl. exact Hc2.
    + injection H as <-. st_simpl. congruence.
Qed.

(** C1: when a play ends the game and a landlord was decided, the returns
    are those of [paying = winning_bid * 2 ^ (is_spring + bombs_played)]:
    the landlord's return is [sign * 2 * paying] and the return of each of
    the two others is [- sign * paying], where [sign] is 1 when the
    landlord is the final winner (the player who just emptied the hand) and
    -1 otherwise; the three returns add up to 0.  The amounts are within
    the range of [int]. *)
Theorem settlement_returns (s s' : GITCGState) (act : Z) :
  phase_ s = kPlay ->
  DoApplyAction s act = Ok s' ->
  phase_ s' = kGameOver ->
  dizhu_ s' <> kInvalidPlayer -> seat (dizhu_ s') ->
  length (players_hands_played s') = 3%nat ->
  length (returns_ s') = 3%nat ->
  0 <= winning_bid_ s' -> 0 <= bombs_played_ s' ->
  2 * (winning_bid_ s' * 2 ^ (1 + bombs_played_ s')) <= INT_MAX ->
  exists is_spring,
    ScoreUp_is_spring s' = Ok is_spring /\
    final_winner_ s' = current_player_ s /\
    let paying :=
      winning_bid_ s' * 2 ^ (Z.b2z is_spring + bombs_played_ s') in
    let sign := if decide (final_winner_ s' = dizhu_ s') then 1 else -1 in
    rd (returns_ s') (dizhu_ s') = sign * 2 * paying /\
    rd (returns_ s') (Z.rem (dizhu_ s' + 1) 3) = - sign * paying /\
    rd (returns_ s') (Z.rem (dizhu_ s' + 2) 3) = - sign * paying /\
    sumZ (returns_ s') = 0.
Proof.
  intros Hph H Hover Hd Hseat Hplayed Hret Hbid Hbombs Hmax.
  unfold DoApplyAction in H. rewrite Hph in H.
  destruct (play_ends_in_ScoreUp _ _ _ Hph H Hover)
    as (s3 & s4 & Hscore & -> & Hwinner).
  destruct (ScoreUp_frame _ _ Hscore) as (r & -> & Hr). st_simpl.
  destruct (ScoreUp_spec s3 Hd Hseat Hplayed ltac:(congruence) Hbid Hbombs
              Hmax)
    as (s4 & b & Hscore' & Hspring & _ & R0 & R1 & R2 & Hsum).
  rewrite Hscore in Hscore'. injection Hscore' as <-. st_simpl.
  exists b. split; [exact Hspring |]. split; [exact Hwinner |].
  cbv zeta in *. auto.
Qed.

Lemma ApplyPlayAction_frame (s s' : GITCGState) (act : Z) :
  ApplyPlayAction s act = Ok s' ->
  cards_left_over_ s' = cards_left_over_ s /\
  dealer_deck_ s' = dealer_deck_ s /\
  forall p,
    rd (players_hands_played s') p =
      rd (players_hands_played s) p +
      (if decide (act <> kPass /\ p = current_player_ s) then 1 else 0).
Proof.
  intros H. destruct (decide (act = kPass)) as [-> | Hact].
  - rewrite ApplyPlayAction_pass in H. cbv zeta in H.
    destruct (decide _); [bind_ok H |]; injection H as <-;
      unfold next_player; st_simpl; repeat split;
      intros p; rewrite decide_False by tauto; lia.
  - unfold ApplyPlayAction in H.
    destruct (decide (act = kPass)); [contradiction |]. st_simpl.
    set (s1 := if decide (act >= kBombActionBase) then _ else _) in H.
    assert (exists bombs,
      s1 = set_bombs_played_ bombs
             (set_num_passes_ 0
                (set_num_played_ (num_played_ s + 1) s))) as [bombs Hs1].
    { subst s1. destruct (decide _);
        [exists (bombs_played_ s + 1) | exists (bombs_played_ s)];
        reflexivity. }
    clearbody s1. subst s1. st_simpl. bind_ok H.
    set (s2 := if new_trick_begin_ _ then _ else _) in H.
    match goal with E : arr_upd _ _ _ = Ok ?l |- _ =>
      pose proof (fun p => arr_upd_rd _ _ _ _ p E) as Hrd;
      rename l into hands_played
    end.
    assert (exists b,
      s2 = set_new_trick_begin_ b
             (set_players_hands_played hands_played
                (set_bombs_played_ bombs
                   (set_num_passes_ 0
                      (set_num_played_ (num_played_ s + 1) s))))) as [b Hs2].
    { subst s2. st_simpl. destruct (new_trick_begin_ s); eauto. }
    clearbody s2. subst s2. st_simpl. bind_ok H. bind_ok H. bind_ok H.
    match goal with E : AfterPlayHand _ _ _ = Ok ?a |- _ =>
      destruct a as [s3 all_played];
      apply AfterPlayHand_frame in E as (h3 & p3 & -> & _)
    end.
    assert (forall p,
      rd hands_played p =
        rd (players_hands_played s) p +
        (if decide (act <> kPass /\ p = current_player_ s) then 1 else 0))
      as Hcount.
    { intros p. rewrite Hrd. destruct (decide (p = current_player_ s)).
      - subst p. rewrite decide_True by tauto. lia.
      - rewrite decide_False by tauto. lia. }
    destruct all_played.
    + bind_ok H. injection H as <-.
      match goal with E : ScoreUp _ = Ok ?a |- _ =>
        apply ScoreUp_frame in E as (r & -> & _)
      end.
      st_simpl. repeat split. exact Hcount.
    + injection H as <-. st_simpl. repeat split. exact Hcount.
Qed.

(** ** Applying actions *)








(** ** Card conservation and the leftover block *)

(** C2 (amended): in every reachable state of the deal, pool, hands,
    played-card ledger and leftover block add up to the total card count.
    At the end of the deal the undealt cards are copied into the leftover
    block and stay in the pool, and the block is kept when its cards go to
    the landlord: from then on the pool and the block each hold
    [kNumCardsLeftOver] cards, while hands, ledger and block add up to the
    total before the landlord takes the block, and hands and ledger alone
    after. *)
Theorem card_conservation (s : GITCGState) :
  header_ok -> reachable s ->
  match phase_ s with
  | kDeal =>
      pool_count s + hand_count s + played_count s + leftover_size s
      = kNumCards
  | kAuction =>
      pool_count s = kNumCardsLeftOver /\
      leftover_size s = kNumCardsLeftOver /\
      hand_count s + played_count s + leftover_size s = kNumCards
  | kPlay =>
      pool_count s = kNumCardsLeftOver /\
      leftover_size s = kNumCardsLeftOver /\
      hand_count s + played_count s = kNumCards
  | kGameOver =>
      pool_count s = kNumCardsLeftOver /\
      leftover_size s = kNumCardsLeftOver /\
      if decide (tricks_ s = []) then
        hand_count s + played_count s + leftover_size s = kNumCards
      else hand_count s + played_count s = kNumCards
  end.
Proof.
  intros Hok Hreach. destruct (reachable_inv s Hok Hreach) as [_ Hinv].
  destruct (phase_ s); inv_unfold.
  - destruct Hinv as (Hleft & Hsum & (Hplayed & _) & _).
    rewrite Hleft. simpl. lia.
  - destruct Hinv as ((? & ? & _) & ? & (? & _) & _). lia.
  - destruct Hinv as ((? & ? & _) & ? & _). lia.
  - destruct Hinv as ((? & ? & _) & Hinv).
    destruct (tricks_ s).
    + rewrite decide_True by reflexivity.
      destruct Hinv as (? & ? & _). lia.
    + rewrite decide_False by discriminate. lia.
Qed.

Lemma auction_to_play (s s' : GITCGState) (act : Z) :
  phase_ s = kAuction -> ApplyBiddingAction s act = Ok s' ->
  cards_left_over_ s' = cards_left_over_ s /\
  (phase_ s' = kPlay ->
   exists s1,
     conclude_auction s1 = Ok s' /\ holds_ s1 = holds_ s /\
     cards_left_over_ s1 = cards_left_over_ s).
Proof.
  intros Hph H.
  assert (forall s1, conclude_auction s1 = Ok s' ->
            cards_left_over_ s' = cards_left_over_ s1) as Hkeep.
  { intros s1 H1. unfold conclude_auction in H1. bind_ok H1.
    injection H1 as <-. reflexivity. }
  destruct (decide (act = kPass)) as [-> | Hact].
  - rewrite ApplyBiddingAction_pass in H. cbv zeta in H.
    repeat destruct (decide _).
    + injection H as <-. split; [reflexivity | discriminate].
    + split; [rewrite (Hkeep _ H); reflexivity |]. eauto.
    + injection H as <-. unfold next_player. st_simpl.
      split; [reflexivity | congruence].
  - rewrite ApplyBiddingAction_bid in H by assumption. cbv zeta in H.
    destruct (decide _).
    + split; [rewrite (Hkeep _ H); reflexivity |]. eauto.
    + injection H as <-. unfold next_player. st_simpl.
      split; [reflexivity | congruence].
Qed.

(** C7 (amended): the leftover block is empty during the deal and holds
    [kNumCardsLeftOver] cards in every later state: no action applied after
    the deal changes it.  When the auction concludes with a winner, every
    card of the block is added to the landlord's hand and to no other; the
    block itself keeps its cards. *)
Theorem leftover_block (s : GITCGState) :
  header_ok -> reachable s ->
  (phase_ s = kDeal -> cards_left_over_ s = []) /\
  (phase_ s <> kDeal -> leftover_size s = kNumCardsLeftOver) /\
  (forall act s',
     phase_ s <> kDeal -> ApplyAction s act = Ok s' ->
     cards_left_over_ s' = cards_left_over_ s) /\
  (forall act s',
     phase_ s = kAuction -> ApplyAction s act = Ok s' -> phase_ s' = kPlay ->
     forall p r,
       rd2 (holds_ s') p r =
         rd2 (holds_ s) p r +
         (if decide (p = dizhu_ s') then count_rank r (cards_left_over_ s)
          else 0)).
Proof.
  intros Hok Hreach. destruct (reachable_inv s Hok Hreach) as [_ Hinv].
  assert (phase_ s <> kDeal -> leftover_size s = kNumCardsLeftOver) as Hsize.
  { intros Hph. destruct (phase_ s); [contradiction | ..];
      destruct Hinv as ((_ & ? & _) & _); assumption. }
  split; [| split; [exact Hsize | split]].
  - intros Hph. rewrite Hph in Hinv. apply Hinv.
  - intros act s' Hph H. unfold ApplyAction in H. bind_ok H.
    injection H as <-. st_simpl. unfold DoApplyAction in *.
    destruct (phase_ s) eqn:Ephase; [contradiction | | | discriminate].
    + match goal with E : ApplyBiddingAction _ _ = Ok _ |- _ =>
        apply auction_to_play in E as [E _]; [exact E | assumption] end.
    + match goal with E : ApplyPlayAction _ _ = Ok _ |- _ =>
        apply ApplyPlayAction_frame in E as [E _]; exact E end.
  - intros act s' Hph H Hph' p r. unfold ApplyAction in H. bind_ok H.
    injection H as <-. st_simpl. unfold DoApplyAction in *. rewrite Hph in *.
    match goal with E : ApplyBiddingAction _ _ = Ok _ |- _ =>
      apply auction_to_play in E as [_ E]; [| assumption];
      destruct (E Hph') as (s1 & Hs1 & Hh & Hl)
    end.
    apply conclude_auction_spec in Hs1
      as (_ & _ & Hd & _ & _ & _ & _ & _ & _ & _ & Hrd).
    + rewrite Hrd, Hd, Hh, Hl. reflexivity.
    + unfold leftover_size. rewrite Hl. apply Hsize. congruence.
Qed.

(** ** Running the host *)

Lemma legalb_legal (s : GITCGState) (act : Z) :
  legalb s act = true -> legal s act.
Proof.
  unfold legalb, legal. destruct (LegalActions s) as [l | e];
    [| discriminate].
  intros H%bool_decide_eq_true. eauto.
Qed.

Lemma ApplyActions_reachable (s s' : GITCGState) (acts : list Z) :
  reachable s -> ApplyActions s acts = Ok s' -> reachable s'.
Proof.
  revert s. induction acts as [| act acts IH]; intros s Hs H.
  - injection H as <-. exact Hs.
  - cbn [ApplyActions] in H. destruct (legalb s act) eqn:Hlegal;
      [| discriminate].
    bind_ok H. eapply IH; [| exact H].
    eapply reachable_step; [exact Hs | apply legalb_legal, Hlegal |].
    eassumption.
Qed.

(** ** The steps of the engine, field by field *)

Lemma ApplyDealAction_card (s s' : GITCGState) (act : Z) :
  card_face_up_position_ s <> -1 ->
  ApplyDealAction s act = Ok s' ->
  let size := Z.of_nat (length (history_ s)) in
  let rank := CardToRank (act - kDealingActionBase) in
  exists first holds' deck',
    arr_get (history_ s) 0 = Ok first /\
    arr2_upd (holds_ s) (Z.rem (size - 1) kNumPlayers) rank Z.succ
      = Ok holds' /\
    arr_upd (dealer_deck_ s) (act - kDealingActionBase) Z.pred = Ok deck' /\
    let s1 :=
      if decide (size - 1 = action first) then
        set_card_rank_face_up_ rank
          (set_first_player_ (Z.rem (size - 1) kNumPlayers) s)
      else s in
    let s2 := set_dealer_deck_ deck' (set_holds_ holds' s1) in
    if decide (size = kNumCards - kNumCardsLeftOver) then
      0 <= first_player_ s1 <= kNumPlayers /\
      s' = set_cards_left_over_
             (cards_left_over_ s ++ (CardToRank <$> undealt s2))
             (set_current_player_ (first_player_ s1) (set_phase_ kAuction s2))
    else s' = s2.
Proof.
  intros Hup H. unfold ApplyDealAction in H.
  rewrite decide_False in H by assumption. cbv zeta in *.
  bind_ok H. exists a.
  destruct (decide (Z.of_nat (length (history_ s)) - 1 = action a));
    st_simpl; bind_ok H; st_simpl; bind_ok H; st_simpl;
    eexists _, _; (split; [reflexivity |]); (split; [reflexivity |]);
    (split; [reflexivity |]);
    (destruct (decide (_ = kNumCards - kNumCardsLeftOver));
     [ st_simpl; bind_ok H; bind_ok H; injection H as <-;
       repeat match goal with E : SPIEL_CHECK _ = Ok _ |- _ =>
         apply SPIEL_CHECK_Ok, bool_decide_eq_true in E end;
       split; [lia | reflexivity]
     | injection H as <-; reflexivity ]).
Qed.

Lemma conclude_auction_explicit (s s' : GITCGState) :
  conclude_auction s = Ok s' ->
  exists holds',
    take_left_over (dizhu_ s) (cards_left_over_ s) (holds_ s) = Ok holds' /\
    s' = set_num_passes_ 0
           (set_tricks_ (tricks_ s ++ [Trick_Trick (dizhu_ s) kInvalidAction])
              (set_new_trick_begin_ true
                 (set_current_player_ (dizhu_ s)
                    (set_phase_ kPlay (set_holds_ holds' s))))).
Proof.
  unfold conclude_auction. intros H. bind_ok H. injection H as <-.
  eexists. split; reflexivity.
Qed.

(** A play: every action other than [kPass]. *)
Lemma ApplyPlayAction_play (s s' : GITCGState) (act : Z) :
  act <> kPass ->
  ApplyPlayAction s act = Ok s' ->
  exists played trick tricks' s2 all_played,
    arr_upd (players_hands_played s) (current_player_ s) Z.succ = Ok played /\
    CurrentTrick s = Ok trick /\
    arr_set (tricks_ s) (trick_played_ s)
      (Trick_Play trick (current_player_ s) act) = Ok tricks' /\
    let s1 :=
      set_tricks_ tricks'
        (set_new_trick_begin_ false
           (set_players_hands_played played
              (set_bombs_played_
                 (if decide (act >= kBombActionBase) then bombs_played_ s + 1
                  else bombs_played_ s)
                 (set_num_passes_ 0
                    (set_num_played_ (num_played_ s + 1) s))))) in
    AfterPlayHand s1 (current_player_ s) act = Ok (s2, all_played) /\
    if all_played then
      exists s3,
        ScoreUp (set_final_winner_ (current_player_ s) s2) = Ok s3 /\
        s' = set_phase_ kGameOver s3
    else s' = next_player s2.
Proof.
  intros Hact H. unfold ApplyPlayAction in H. cbv zeta in H.
  destruct (decide (act = kPass)) as [? | _]; [contradiction |].
  unfold CurrentTrick, next_player in *.
  destruct s as [h ph pos rk fp cp dz fw wb np npl tp bp ntb php dd ho lo pd
                   tr rt].
  st_simpl.
  destruct (decide (act >= kBombActionBase)); destruct ntb; st_simpl;
    bind_ok H; st_simpl; bind_ok H; bind_ok H; st_simpl; bind_ok H.
  all: destruct a2 as [s2 all_played]; exists a, a0, a1, s2, all_played.
  all: repeat (split; [assumption || reflexivity |]).
  all: st_simpl.
  all: assert (Hcp : current_player_ s2 = cp)
         by (apply AfterPlayHand_frame in E2 as (? & ? & -> & _);
             reflexivity).
  all: rewrite ?Hcp in H; rewrite ?Hcp.
  all: destruct all_played;
         [ bind_ok H; injection H as <-; eexists; split;
             [reflexivity | reflexivity]
         | injection H as <-; reflexivity ].
Qed.

(** ** What a play does to the cards *)

Lemma rd2_Ok (a : list (list Z)) (i j : Z) (row : list Z) :
  arr_get a i = Ok row -> rd2 a i j = rd row j.
Proof. unfold rd2. intros ->. reflexivity. Qed.

Lemma arr_get_length {A : Type} (l : list A) (i : Z) (x : A) :
  arr_get l i = Ok x -> 0 <= i < Z.of_nat (length l).
Proof.
  intros [Hi Hx]%arr_get_Ok. apply lookup_lt_Some in Hx. lia.
Qed.

Lemma shape_row (a : list (list Z)) (n m : nat) (i : Z) (row : list Z) :
  shape a = replicate n m -> arr_get a i = Ok row -> length row = m.
Proof.
  intros Hsh [Hi Hx]%arr_get_Ok.
  assert (Hl : shape a !! Z.to_nat i = Some (length row)).
  { unfold shape. rewrite list_lookup_fmap, Hx. reflexivity. }
  rewrite Hsh in Hl. apply lookup_replicate in Hl as [Hl _]. congruence.
Qed.

Lemma shape_length (a : list (list Z)) (n m : nat) :
  shape a = replicate n m -> length a = n.
Proof.
  intros Hsh. apply (f_equal length) in Hsh. unfold shape in Hsh.
  rewrite length_fmap, length_replicate in Hsh. exact Hsh.
Qed.

Lemma shape_Forall (a : list (list Z)) (n m : nat) :
  shape a = replicate n m -> Forall (fun k => k = m) (shape a).
Proof.
  intros ->. apply Forall_forall. intros k Hk.
  apply elem_of_replicate in Hk as [-> _]. reflexivity.
Qed.

(** One round of the loop of [AfterPlayHand], once it has gone through. *)
Lemma AfterPlayHand_rank_spec (p : Z) (used : list Z) (rank : Z)
  (s s' : GITCGState) (f f' : bool) :
  AfterPlayHand_rank p used rank (s, f) = Ok (s', f') ->
  rd used rank <= rd2 (holds_ s) p rank /\
  shape (holds_ s') = shape (holds_ s) /\
  length (played_deck_ s') = length (played_deck_ s) /\
  (forall q r,
     rd2 (holds_ s') q r =
       rd2 (holds_ s) q r
       - (if decide (q = p /\ r = rank) then rd used rank else 0)) /\
  (forall r,
     rd (played_deck_ s') r =
       rd (played_deck_ s) r
       + (if decide (r = rank) then rd used rank else 0)) /\
  f' = f && bool_decide (rd2 (holds_ s') p rank = 0).
Proof.
  unfold AfterPlayHand_rank. intros H.
  bind_ok H. bind_ok H. bind_ok H. bind_ok H. bind_ok H. st_simpl.
  bind_ok H. injection H as <- <-. st_simpl.
  apply SPIEL_CHECK_Ok, bool_decide_eq_true in E2.
  pose proof (rd2_Ok _ _ rank _ E) as Hheld. rewrite (rd_Ok _ _ _ E0) in Hheld.
  pose proof (rd_Ok _ _ _ E1) as Hused.
  pose proof (arr2_upd_rd2 _ _ _ _ _ p rank E3) as Hnew.
  rewrite decide_True in Hnew by (split; reflexivity).
  rewrite Hused, Hheld. repeat split.
  - lia.
  - eapply arr2_upd_shape, E3.
  - eapply arr_upd_length, E4.
  - intros q r. rewrite (arr2_upd_rd2 _ _ _ _ _ q r E3).
    destruct (decide (q = p /\ r = rank)) as [[-> ->] | ?]; lia.
  - intros r. rewrite (arr_upd_rd _ _ _ _ r E4).
    destruct (decide (r = rank)) as [-> | ?]; lia.
  - rewrite Hnew, Hheld. reflexivity.
Qed.

Lemma AfterPlayHand_loop (p : Z) (used idx : list Z) :
  NoDup idx ->
  forall (s s' : GITCGState) (f f' : bool),
    for_each idx (AfterPlayHand_rank p used) (s, f) = Ok (s', f') ->
    (forall r, r ∈ idx -> rd used r <= rd2 (holds_ s) p r) /\
    (forall q r,
       rd2 (holds_ s') q r =
         rd2 (holds_ s) q r
         - (if decide (q = p /\ r ∈ idx) then rd used r else 0)) /\
    (forall r,
       rd (played_deck_ s') r =
         rd (played_deck_ s) r + (if decide (r ∈ idx) then rd used r else 0)) /\
    (f' = true <->
     f = true /\ forall r, r ∈ idx -> rd2 (holds_ s') p r = 0).
Proof.
  induction 1 as [| r0 idx Hr0 Hnd IH]; intros s s' f f' H.
  - injection H as <- <-. split; [| split; [| split; [| split]]].
    + intros r Hr. inversion Hr.
    + intros q r. rewrite decide_False; [lia |]. intros [_ Hr]. inversion Hr.
    + intros r. rewrite decide_False; [lia |]. intros Hr. inversion Hr.
    + intros ->. split; [reflexivity |]. intros r Hr. inversion Hr.
    + tauto.
  - cbn [for_each] in H. bind_ok H. destruct a as [s1 f1].
    apply AfterPlayHand_rank_spec in E
      as (Hcov & _ & _ & Hholds & Hplayed & Hf).
    apply IH in H as (Hcov' & Hholds' & Hplayed' & Hf').
    assert (Hkeep : rd2 (holds_ s') p r0 = rd2 (holds_ s1) p r0).
    { rewrite Hholds'. rewrite decide_False; [lia | tauto]. }
    split; [| split; [| split; [| split]]].
    + intros r [-> | Hr]%elem_of_cons; [exact Hcov |].
      specialize (Hcov' r Hr). rewrite Hholds in Hcov'.
      rewrite decide_False in Hcov'; [lia |]. intros [_ ->]. contradiction.
    + intros q r. rewrite Hholds', Hholds.
      destruct (decide (q = p /\ r ∈ idx)) as [[-> Hr] | Hn].
      * rewrite decide_False by (intros [_ ->]; contradiction).
        rewrite decide_True; [lia |]. split; [reflexivity |].
        apply elem_of_cons. tauto.
      * destruct (decide (q = p /\ r = r0)) as [[-> ->] | Hn'].
        -- rewrite decide_True; [lia |]. split; [reflexivity |].
           apply elem_of_cons. tauto.
        -- rewrite decide_False; [lia |]. intros [-> Hr%elem_of_cons].
           tauto.
    + intros r. rewrite Hplayed', Hplayed.
      destruct (decide (r ∈ idx)) as [Hr | Hn].
      * rewrite decide_False by (intros ->; contradiction).
        rewrite decide_True; [lia |]. apply elem_of_cons. tauto.
      * destruct (decide (r = r0)) as [-> | Hn'].
        -- rewrite decide_True; [lia |]. apply elem_of_cons. tauto.
        -- rewrite decide_False; [lia |]. intros Hr%elem_of_cons. tauto.
    + intros ->. destruct Hf' as [Hf' _].
      specialize (Hf' eq_refl) as [-> Hrest].
      symmetry in Hf. apply andb_true_iff in Hf as [-> Hz].
      apply bool_decide_eq_true in Hz. split; [reflexivity |].
      intros r [-> | Hr]%elem_of_cons; [congruence | auto].
    + intros [-> Hall]. apply Hf'. split.
      * rewrite Hf. cbn [andb]. apply bool_decide_eq_true.
        rewrite <- Hkeep. apply Hall. apply elem_of_cons. tauto.
      * intros r Hr. apply Hall. apply elem_of_cons. tauto.
Qed.

(** [AfterPlayHand], once it has gone through: the combination was in the
    hand, its cards have moved to the ledger of played cards, and the flag
    tells whether the hand is empty. *)
Lemma AfterPlayHand_spec (s s' : GITCGState) (p act : Z) (all : bool) :
  AfterPlayHand s p act = Ok (s', all) ->
  (forall r, 0 <= r < kNumRanks ->
     rd (ActionToHand act) r <= rd2 (holds_ s) p r) /\
  (forall q r, 0 <= r < kNumRanks ->
     rd2 (holds_ s') q r =
       rd2 (holds_ s) q r
       - (if decide (q = p) then rd (ActionToHand act) r else 0)) /\
  (forall r, 0 <= r < kNumRanks ->
     rd (played_deck_ s') r = rd (played_deck_ s) r + rd (ActionToHand act) r)
  /\
  (all = true <-> forall r, 0 <= r < kNumRanks -> rd2 (holds_ s') p r = 0).
Proof.
  unfold AfterPlayHand. intros H.
  apply AfterPlayHand_loop in H as (Hcov & Hholds & Hplayed & Hall);
    [| apply NoDup_seqZ].
  assert (Hin : forall r, r ∈ seqZ 0 kNumRanks <-> 0 <= r < kNumRanks).
  { intros r. rewrite elem_of_seqZ. lia. }
  split; [| split; [| split; [| split]]].
  - intros r Hr. apply Hcov, Hin, Hr.
  - intros q r Hr. rewrite Hholds.
    destruct (decide (q = p)) as [-> | Hq].
    + rewrite decide_True; [reflexivity |]. split; [reflexivity |].
      apply Hin, Hr.
    + rewrite decide_False; [reflexivity | tauto].
  - intros r Hr. rewrite Hplayed. rewrite decide_True; [reflexivity |].
    apply Hin, Hr.
  - intros Ha r Hr. apply Hall; [exact Ha | apply Hin, Hr].
  - intros Hz. apply Hall. split; [reflexivity |].
    intros r Hr. apply Hz, Hin, Hr.
Qed.

Lemma ApplyPlayAction_play_eq (s : GITCGState) (act : Z) :
  act <> kPass ->
  ApplyPlayAction s act =
    do played <- arr_upd (players_hands_played s) (current_player_ s) Z.succ;
    do trick <- CurrentTrick s;
    do tricks' <- arr_set (tricks_ s) (trick_played_ s)
                    (Trick_Play trick (current_player_ s) act);
    let s1 :=
      set_tricks_ tricks'
        (set_new_trick_begin_ false
           (set_players_hands_played played
              (set_bombs_played_
                 (if decide (act >= kBombActionBase) then bombs_played_ s + 1
                  else bombs_played_ s)
                 (set_num_passes_ 0
                    (set_num_played_ (num_played_ s + 1) s))))) in
    do '(s2, all_played) <- AfterPlayHand s1 (current_player_ s) act;
    if all_played then
      do s3 <- ScoreUp (set_final_winner_ (current_player_ s2) s2);
      Ok (set_phase_ kGameOver s3)
    else Ok (next_player s2).
Proof.
  intros Hact. unfold ApplyPlayAction. cbv zeta.
  destruct (decide (act = kPass)) as [? | _]; [contradiction |].
  unfold CurrentTrick, next_player.
  destruct s as [h ph pos rk fp cp dz fw wb np npl tp bp ntb php dd ho lo pd
                   tr rt].
  st_simpl.
  destruct (decide (act >= kBombActionBase)); destruct ntb; reflexivity.
Qed.

Lemma AfterPlayHand_rank_run (p : Z) (used : list Z) (rank : Z)
  (s : GITCGState) (f : bool) :
  shape (holds_ s) = replicate (Z.to_nat kNumPlayers) (Z.to_nat kNumRanks) ->
  length (played_deck_ s) = Z.to_nat kNumRanks ->
  length used = Z.to_nat kNumRanks ->
  seat p -> 0 <= rank < kNumRanks ->
  if decide (rd used rank <= rd2 (holds_ s) p rank) then
    exists st, AfterPlayHand_rank p used rank (s, f) = Ok st
  else AfterPlayHand_rank p used rank (s, f) = Err SpielCheckFailed.
Proof.
  intros Hsh Hpl Hused Hp Hr. unfold seat, kNumPlayers in Hp.
  pose proof (shape_length _ _ _ Hsh) as Hlen.
  destruct (arr_get_in_range (holds_ s) p) as [hand Hhand];
    [unfold kNumPlayers in Hlen; lia |].
  pose proof (shape_row _ _ _ _ _ Hsh Hhand) as Hrow.
  destruct (arr_get_in_range hand rank) as [held Hheld]; [lia |].
  destruct (arr_get_in_range used rank) as [u Hu]; [lia |].
  destruct (arr2_upd_in_range (holds_ s) p rank (fun x => x - u)
              (Z.to_nat kNumRanks)) as [holds' Hholds'];
    [eapply shape_Forall, Hsh | unfold kNumPlayers in Hlen; lia | lia |].
  destruct (arr_upd_in_range (played_deck_ s) rank (fun x => x + u))
    as [played' Hplayed']; [lia |].
  unfold AfterPlayHand_rank.
  rewrite Hhand. cbn [bind]. rewrite Hheld. cbn [bind]. rewrite Hu.
  cbn [bind]. rewrite (rd2_Ok _ _ rank _ Hhand), (rd_Ok _ _ _ Hheld),
    (rd_Ok _ _ _ Hu).
  destruct (decide (u <= held)) as [Hle | Hgt].
  - rewrite (bool_decide_eq_true_2 (held >= u)) by lia.
    cbn [SPIEL_CHECK bind]. rewrite Hholds'. cbn [bind]. st_simpl.
    rewrite Hplayed'. cbn [bind]. eexists. reflexivity.
  - rewrite (bool_decide_eq_false_2 (held >= u)) by lia. reflexivity.
Qed.

(** [AfterPlayHand] on a state of the right shape goes through when the
    hand holds every card of the combination, and stops at a failed check
    otherwise. *)
Lemma AfterPlayHand_loop_run (p : Z) (used idx : list Z) :
  NoDup idx -> seat p -> length used = Z.to_nat kNumRanks ->
  (forall r, r ∈ idx -> 0 <= r < kNumRanks) ->
  forall (s : GITCGState) (f : bool),
    shape (holds_ s)
      = replicate (Z.to_nat kNumPlayers) (Z.to_nat kNumRanks) ->
    length (played_deck_ s) = Z.to_nat kNumRanks ->
    if decide (Forall (fun r => rd used r <= rd2 (holds_ s) p r) idx) then
      exists st, for_each idx (AfterPlayHand_rank p used) (s, f) = Ok st
    else for_each idx (AfterPlayHand_rank p used) (s, f)
         = Err SpielCheckFailed.
Proof.
  intros Hnd Hp Hused. induction Hnd as [| r0 idx Hr0 Hnd IH];
    intros Hidx s f Hsh Hpl.
  - rewrite decide_True by constructor. eexists. reflexivity.
  - cbn [for_each].
    pose proof (AfterPlayHand_rank_run p used r0 s f Hsh Hpl Hused Hp) as H0.
    specialize (H0 (Hidx r0 ltac:(apply elem_of_cons; tauto))).
    destruct (decide (rd used r0 <= rd2 (holds_ s) p r0)) as [Hle | Hgt].
    + destruct H0 as [[s1 f1] H0]. rewrite H0. cbn [bind].
      pose proof (AfterPlayHand_rank_spec _ _ _ _ _ _ _ H0)
        as (_ & Hsh1 & Hpl1 & Hholds & _).
      specialize (IH ltac:(intros r Hr; apply Hidx, elem_of_cons; tauto)
                    s1 f1 ltac:(congruence) ltac:(congruence)).
      assert (Hsame : Forall (fun r => rd used r <= rd2 (holds_ s1) p r) idx
                      <-> Forall (fun r => rd used r <= rd2 (holds_ s) p r)
                            idx).
      { rewrite !Forall_forall. split; intros Hall r Hr;
          specialize (Hall r Hr); rewrite Hholds in *;
          rewrite decide_False in * by (intros [_ ->]; contradiction); lia. }
      destruct (decide (Forall _ (r0 :: idx))) as [Hall | Hnot].
      * rewrite decide_True in IH; [exact IH |].
        apply Hsame. inversion Hall; assumption.
      * rewrite decide_False in IH; [exact IH |].
        intros Hall. apply Hnot. constructor; [exact Hle | apply Hsame, Hall].
    + rewrite H0. cbn [bind]. rewrite decide_False; [reflexivity |].
      intros Hall. inversion Hall; contradiction.
Qed.

Lemma ScoreUp_Ok (s : GITCGState) :
  dizhu_ s = kInvalidPlayer \/ seat (dizhu_ s) ->
  length (players_hands_played s) = Z.to_nat kNumPlayers ->
  length (returns_ s) = Z.to_nat kNumPlayers ->
  exists s', ScoreUp s = Ok s'.
Proof.
  intros Hd Hp Hr. unfold ScoreUp.
  destruct (decide (dizhu_ s = kInvalidPlayer)); [eexists; reflexivity |].
  destruct Hd as [? | Hd]; [contradiction |].
  unfold kNumPlayers in *.
  destruct (list3 _ Hp) as (a & b & c & Ep).
  destruct (list3 _ Hr) as (x & y & z & Er).
  unfold ScoreUp_is_spring. rewrite Ep, Er.
  apply seat_cases in Hd as [-> | [-> | ->]]; eexists; reflexivity.
Qed.

(** ** What each step leaves alone *)

Lemma ApplyBiddingAction_frame (s s' : GITCGState) (act : Z) :
  ApplyBiddingAction s act = Ok s' ->
  history_ s' = history_ s /\
  first_player_ s' = first_player_ s /\
  card_face_up_position_ s' = card_face_up_position_ s /\
  card_rank_face_up_ s' = card_rank_face_up_ s /\
  cards_left_over_ s' = cards_left_over_ s /\
  returns_ s' = returns_ s /\
  played_deck_ s' = played_deck_ s /\
  (phase_ s' = phase_ s /\ holds_ s' = holds_ s /\ tricks_ s' = tricks_ s \/
   phase_ s' = kPlay /\
   tricks_ s' = tricks_ s ++ [Trick_Trick (dizhu_ s') kInvalidAction] \/
   phase_ s' = kGameOver /\ act = kPass /\ num_passes_ s + 1 = kNumPlayers /\
   holds_ s' = holds_ s /\ tricks_ s' = tricks_ s /\ dizhu_ s' = dizhu_ s).
Proof.
  intros H. destruct (decide (act = kPass)) as [-> | Hact].
  - rewrite ApplyBiddingAction_pass in H. cbv zeta in H.
    unfold next_player in H.
    destruct (decide (num_passes_ s + 1 = 3)).
    + injection H as <-. st_simpl. unfold kNumPlayers. tauto.
    + destruct (decide (_ /\ _)).
      * apply conclude_auction_explicit in H as (holds' & _ & ->). st_simpl.
        tauto.
      * injection H as <-. st_simpl. tauto.
  - rewrite ApplyBiddingAction_bid in H by assumption. cbv zeta in H.
    unfold next_player in H. destruct (decide (_ = kNumBids)).
    + apply conclude_auction_explicit in H as (holds' & _ & ->). st_simpl.
      tauto.
    + injection H as <-. st_simpl. tauto.
Qed.

Lemma ApplyPlayAction_frame_more (s s' : GITCGState) (act : Z) :
  ApplyPlayAction s act = Ok s' ->
  history_ s' = history_ s /\
  first_player_ s' = first_player_ s /\
  card_face_up_position_ s' = card_face_up_position_ s /\
  card_rank_face_up_ s' = card_rank_face_up_ s /\
  dizhu_ s' = dizhu_ s /\
  winning_bid_ s' = winning_bid_ s /\
  shape (holds_ s') = shape (holds_ s) /\
  (tricks_ s <> [] -> tricks_ s' <> []) /\
  (phase_ s' = phase_ s /\ returns_ s' = returns_ s \/ phase_ s' = kGameOver).
Proof.
  intros H. destruct (decide (act = kPass)) as [-> | Hact].
  - rewrite ApplyPlayAction_pass in H. cbv zeta in H. unfold next_player in H.
    destruct (decide (num_passes_ s + 1 = 2)).
    + bind_ok H. injection H as <-. st_simpl.
      repeat split; try tauto. intros _ [? ?]%app_eq_nil. discriminate.
    + injection H as <-. st_simpl. repeat split; try tauto.
  - apply ApplyPlayAction_play in H
      as (played & trick & tricks' & s2 & all & Hpl & Htr & Hset & Hafter &
          Hend); [| assumption].
    cbv zeta in Hafter.
    apply AfterPlayHand_frame in Hafter as (holds' & played' & -> & Hsh & _).
    st_simpl.
    assert (tricks' <> []) as Hne.
    { apply arr_set_Ok in Hset as (x & Hx & ->).
      apply arr_get_length in Hx. intros Hnil%(f_equal length).
      rewrite length_insert in Hnil. simpl in Hnil. lia. }
    destruct all.
    + destruct Hend as (s3 & Hscore & ->).
      apply ScoreUp_frame in Hscore as (r & -> & _). st_simpl.
      repeat split; try tauto.
    + subst s'. unfold next_player. st_simpl. repeat split; try tauto.
Qed.

(** ** The plays counted by the settlement *)

Lemma ApplyDealAction_counters (s s' : GITCGState) (act : Z) :
  ApplyDealAction s act = Ok s' ->
  players_hands_played s' = players_hands_played s /\ dizhu_ s' = dizhu_ s.
Proof.
  intros H. destruct (decide (card_face_up_position_ s = -1)) as [Hup | Hup].
  - unfold ApplyDealAction in H. rewrite decide_True in H by assumption.
    injection H as <-. split; reflexivity.
  - apply ApplyDealAction_card in H as (first & holds' & deck' & _ & _ & _ & H);
      [| assumption].
    cbv zeta in H.
    destruct (decide (_ = kNumCards - kNumCardsLeftOver));
      [destruct H as [_ ->] | subst s'];
      destruct (decide (_ = action first)); st_simpl; split; reflexivity.
Qed.

Lemma ApplyBiddingAction_counters (s s' : GITCGState) (act : Z) :
  ApplyBiddingAction s act = Ok s' ->
  players_hands_played s' = players_hands_played s /\
  (dizhu_ s' = dizhu_ s \/ dizhu_ s' = current_player_ s).
Proof.
  intros H. destruct (decide (act = kPass)) as [-> | Hact].
  - rewrite ApplyBiddingAction_pass in H. cbv zeta in H.
    unfold next_player in H.
    destruct (decide (num_passes_ s + 1 = 3)).
    + injection H as <-. st_simpl. tauto.
    + destruct (decide (_ /\ _)).
      * apply conclude_auction_explicit in H as (holds' & _ & ->). st_simpl.
        tauto.
      * injection H as <-. st_simpl. tauto.
  - rewrite ApplyBiddingAction_bid in H by assumption. cbv zeta in H.
    unfold next_player in H. destruct (decide (_ = kNumBids)).
    + apply conclude_auction_explicit in H as (holds' & _ & ->). st_simpl.
      tauto.
    + injection H as <-. st_simpl. tauto.
Qed.

(** Every play, and nothing else, raises the counter of the player who
    made it. *)
Lemma plays_counted (acts : list Z) :
  forall s0 s : GITCGState,
    ApplyActions s0 acts = Ok s ->
    forall p,
      rd (players_hands_played s) p =
        rd (players_hands_played s0) p
        + plays_by p (players_of_plays s0 acts).
Proof.
  induction acts as [| act acts IH]; intros s0 s H p.
  - injection H as <-. unfold plays_by. simpl. lia.
  - cbn [ApplyActions players_of_plays] in *.
    destruct (legalb s0 act); [| discriminate].
    destruct (ApplyAction s0 act) as [s1 | e] eqn:E; [| discriminate].
    cbn [bind] in H. rewrite (IH _ _ H p).
    unfold plays_by. rewrite filter_app, length_app, Nat2Z.inj_add.
    unfold ApplyAction in E. bind_ok E. injection E as <-. st_simpl.
    unfold DoApplyAction in E0.
    destruct (phase_ s0) eqn:Hph.
    + apply ApplyDealAction_counters in E0 as [-> _].
      rewrite decide_False by (intros [? _]; discriminate). simpl. lia.
    + apply ApplyBiddingAction_counters in E0 as [-> _].
      rewrite decide_False by (intros [? _]; discriminate). simpl. lia.
    + apply ApplyPlayAction_frame in E0 as (_ & _ & ->).
      destruct (decide (act <> kPass /\ p = current_player_ s0))
        as [[Hact ->] | Hn].
      * rewrite (decide_True (P := kPlay = kPlay /\ act <> kPass)) by tauto.
        rewrite filter_cons, decide_True by reflexivity. simpl length. lia.
      * destruct (decide (kPlay = kPlay /\ act <> kPass)) as [[_ Hact] | ?];
          [| simpl; lia].
        rewrite filter_cons, decide_False by (intros <-; tauto).
        simpl. lia.
    + discriminate.
Qed.

Lemma reachable_inv_landlord (s : GITCGState) :
  header_ok -> reachable s -> inv_landlord s.
Proof.
  intros Hok Hs. induction Hs as [| s s' act Hs IH Hlegal Happly].
  - left. reflexivity.
  - unfold ApplyAction in Happly. bind_ok Happly. injection Happly as <-.
    unfold inv_landlord in *. st_simpl.
    pose proof (reachable_inv s Hok Hs) as [_ Hinv].
    unfold DoApplyAction in E. destruct (phase_ s) eqn:Hph.
    + apply ApplyDealAction_counters in E as [_ ->]. exact IH.
    + apply ApplyBiddingAction_counters in E as [_ [-> | ->]]; [exact IH |].
      right. apply Hinv.
    + apply ApplyPlayAction_frame_more in E as (_ & _ & _ & _ & -> & _).
      exact IH.
    + discriminate.
Qed.

(** C4 (amended): in every state reached from the initial state by legal
    actions, [players_hands_played] holds for each player the number of
    plays that player has made, a play being an action other than Pass
    applied in the play phase; two plays within one trick count as two.
    Once a landlord is decided, the [is_spring] that [ScoreUp] computes is
    true exactly when the landlord has made exactly one play in total, or
    neither of the two other players has made any play. *)
Theorem is_spring_counts_plays (acts : list Z) (s : GITCGState) :
  header_ok ->
  ApplyActions NewInitialState acts = Ok s ->
  dizhu_ s <> kInvalidPlayer ->
  let plays p := plays_by p (players_of_plays NewInitialState acts) in
  (forall p, rd (players_hands_played s) p = plays p) /\
  exists is_spring,
    ScoreUp_is_spring s = Ok is_spring /\
    (is_spring = true <->
     plays (dizhu_ s) = 1 \/
     (plays (Z.rem (dizhu_ s + 1) 3) = 0 /\
      plays (Z.rem (dizhu_ s + 2) 3) = 0)).
Proof.
  intros Hok Hrun Hd plays.
  assert (forall p, rd (players_hands_played s) p = plays p) as Hcount.
  { intros p. rewrite (plays_counted _ _ _ Hrun p). subst plays.
    unfold rd, arr_get. cbn [NewInitialState players_hands_played].
    destruct (decide (0 <= p)); [| lia].
    destruct (_ !! _) as [x |] eqn:E; [| lia].
    apply lookup_replicate in E as [-> _]. lia. }
  split; [exact Hcount |].
  assert (reachable s) as Hreach
    by (eapply ApplyActions_reachable; [apply reachable_init | exact Hrun]).
  destruct (reachable_inv_landlord s Hok Hreach) as [? | Hseat];
    [contradiction |].
  destruct (reachable_inv s Hok Hreach) as [Hsh _].
  pose proof (shaped_hands_played _ Hsh) as Hlen.
  destruct (list3 _ Hlen) as (h0 & h1 & h2 & Eh).
  rewrite <- !Hcount. unfold ScoreUp_is_spring. rewrite Eh.
  destruct (seat_cases _ Hseat) as [-> | [-> | ->]]; cbn;
    (eexists; split; [reflexivity |]);
    rewrite orb_true_iff, andb_true_iff, !bool_decide_eq_true; reflexivity.
Qed.

(** ** The phases *)

(** X1.  An applied action never takes the game back to an earlier phase:
    the deal is followed by the deal or the auction, the auction by the
    auction, the play phase or the end of the game, the play phase by the
    play phase or the end of the game, and nothing is applied once the game
    is over. *)
Theorem phase_never_goes_back (s s' : GITCGState) (act : Z) :
  DoApplyAction s act = Ok s' ->
  match phase_ s with
  | kDeal => phase_ s' = kDeal \/ phase_ s' = kAuction
  | kAuction =>
      phase_ s' = kAuction \/ phase_ s' = kPlay \/ phase_ s' = kGameOver
  | kPlay => phase_ s' = kPlay \/ phase_ s' = kGameOver
  | kGameOver => False
  end.
Proof.
  unfold DoApplyAction. intros H. destruct (phase_ s) eqn:Hph.
  - destruct (decide (card_face_up_position_ s = -1)) as [Hup | Hup].
    + unfold ApplyDealAction in H. rewrite decide_True in H by assumption.
      injection H as <-. st_simpl. tauto.
    + apply ApplyDealAction_card in H
        as (first & holds' & deck' & _ & _ & _ & H); [| assumption].
      cbv zeta in H. destruct (decide (_ = kNumCards - kNumCardsLeftOver)).
      * destruct H as [_ ->]. st_simpl. tauto.
      * subst s'. destruct (decide _); st_simpl; tauto.
  - apply ApplyBiddingAction_frame in H
      as (_ & _ & _ & _ & _ & _ & _ & [H | [H | H]]); rewrite ?Hph in H;
      tauto.
  - apply ApplyPlayAction_frame_more in H
      as (_ & _ & _ & _ & _ & _ & _ & _ & [H | H]); rewrite ?Hph in H; tauto.
  - discriminate.
Qed.

(** ** Plays *)

(** X3.  A play that goes through moves the cards of its combination from
    the hand of the player to act to the ledger of played cards, rank by
    rank; the hand held them all, and the other hands are left alone. *)
Theorem play_moves_cards (s s' : GITCGState) (act : Z) :
  phase_ s = kPlay -> act <> kPass ->
  DoApplyAction s act = Ok s' ->
  forall r, 0 <= r < kNumRanks ->
    rd (ActionToHand act) r <= rd2 (holds_ s) (current_player_ s) r /\
    rd (played_deck_ s') r = rd (played_deck_ s) r + rd (ActionToHand act) r
    /\
    forall q,
      rd2 (holds_ s') q r =
        rd2 (holds_ s) q r
        - (if decide (q = current_player_ s) then rd (ActionToHand act) r
           else 0).
Proof.
  intros Hph Hact H r Hr. unfold DoApplyAction in H. rewrite Hph in H.
  apply ApplyPlayAction_play in H
    as (played & trick & tricks' & s2 & all & _ & _ & _ & Hafter & Hend);
    [| assumption].
  cbv zeta in Hafter.
  apply AfterPlayHand_spec in Hafter as (Hcov & Hholds & Hplayed & _).
  st_simpl.
  assert (holds_ s' = holds_ s2 /\ played_deck_ s' = played_deck_ s2)
    as [-> ->].
  { destruct all.
    - destruct Hend as (s3 & Hscore & ->).
      apply ScoreUp_frame in Hscore as (rt & -> & _). st_simpl. tauto.
    - subst s'. unfold next_player. st_simpl. tauto. }
  split; [apply Hcov, Hr |]. split; [apply Hplayed, Hr |].
  intros q. apply Hholds, Hr.
Qed.

(** X4.  A play of cards the hand does not hold is stopped by a failed
    check: on a state of the right shape, with a player to act and an open
    trick, no state is returned as soon as the combination asks, in some
    rank, for more cards than the player holds. *)
Theorem play_beyond_hand_is_refused (s : GITCGState) (act : Z)
  (trick : Trick) :
  phase_ s = kPlay -> act <> kPass ->
  shaped s -> seat (current_player_ s) ->
  CurrentTrick s = Ok trick ->
  length (ActionToHand act) = Z.to_nat kNumRanks ->
  (exists r,
     0 <= r < kNumRanks /\
     rd2 (holds_ s) (current_player_ s) r < rd (ActionToHand act) r) ->
  DoApplyAction s act = Err SpielCheckFailed.
Proof.
  intros Hph Hact Hsh Hp Htrick Hused (r & Hr & Hlack).
  unfold DoApplyAction. rewrite Hph.
  rewrite ApplyPlayAction_play_eq by assumption.
  destruct (arr_upd_in_range (players_hands_played s) (current_player_ s)
              Z.succ) as [played Hplayed].
  { rewrite (shaped_hands_played _ Hsh). unfold seat in Hp. lia. }
  rewrite Hplayed. cbn [bind]. rewrite Htrick. cbn [bind].
  destruct (arr_set_in_range (tricks_ s) (trick_played_ s)
              (Trick_Play trick (current_player_ s) act)) as [tricks' Hset].
  { eapply arr_get_length, Htrick. }
  rewrite Hset. cbn [bind]. cbv zeta.
  match goal with |- context [AfterPlayHand ?s1 _ _] => set (st := s1) end.
  pose proof (AfterPlayHand_loop_run (current_player_ s) (ActionToHand act)
                (seqZ 0 kNumRanks) (NoDup_seqZ _ _) Hp Hused) as Hrun.
  specialize (Hrun ltac:(intros x Hx%elem_of_seqZ; lia) st true
                (shaped_holds _ Hsh) (shaped_played _ Hsh)).
  rewrite decide_False in Hrun.
  - unfold AfterPlayHand. rewrite Hrun. reflexivity.
  - rewrite Forall_forall. intros Hall.
    specialize (Hall r ltac:(apply elem_of_seqZ; lia)).
    subst st. st_simpl. lia.
Qed.

(** X5.  A play ends the game exactly when it empties the hand of the
    player who made it, and that player is then the winner; otherwise the
    game stays in the play phase and the turn passes to the next seat, with
    the count of passes back to zero. *)
Theorem play_ends_game_iff_hand_empty (s s' : GITCGState) (act : Z) :
  phase_ s = kPlay -> act <> kPass ->
  DoApplyAction s act = Ok s' ->
  (phase_ s' = kGameOver <->
   forall r, 0 <= r < kNumRanks -> rd2 (holds_ s') (current_player_ s) r = 0)
  /\
  (phase_ s' = kGameOver -> final_winner_ s' = current_player_ s) /\
  (phase_ s' <> kGameOver ->
   phase_ s' = kPlay /\
   current_player_ s' = Z.rem (current_player_ s + 1) kNumPlayers /\
   num_passes_ s' = 0 /\
   new_trick_begin_ s' = false /\
   trick_played_ s' = trick_played_ s /\
   returns_ s' = returns_ s /\
   final_winner_ s' = final_winner_ s).
Proof.
  intros Hph Hact H. unfold DoApplyAction in H. rewrite Hph in H.
  apply ApplyPlayAction_play in H
    as (played & trick & tricks' & s2 & all & _ & _ & _ & Hafter & Hend);
    [| assumption].
  cbv zeta in Hafter.
  pose proof (AfterPlayHand_spec _ _ _ _ _ Hafter) as (_ & _ & _ & Hall).
  apply AfterPlayHand_frame in Hafter as (holds' & played' & Hs2 & _).
  destruct all.
  - destruct Hend as (s3 & Hscore & ->).
    apply ScoreUp_frame in Hscore as (rt & -> & _). subst s2. st_simpl.
    split; [| split]; [| reflexivity | congruence].
    split; [intros _; apply Hall; reflexivity | reflexivity].
  - subst s' s2. unfold next_player in *. st_simpl.
    split; [| split]; [| congruence | intros _; rewrite Hph; tauto].
    rewrite Hph. split; [discriminate |].
    intros Hz. apply Hall in Hz. discriminate.
Qed.

(** X6.  After a play that does not end the game, two passes close the
    trick and bring the turn back to the player who made the play, who
    leads a new trick; the passes move no card. *)
Theorem lead_returns_after_two_passes (s s1 : GITCGState) (act : Z) :
  phase_ s = kPlay -> act <> kPass ->
  DoApplyAction s act = Ok s1 -> phase_ s1 = kPlay ->
  exists s2 s3,
    DoApplyAction s1 kPass = Ok s2 /\
    DoApplyAction s2 kPass = Ok s3 /\
    phase_ s3 = kPlay /\
    current_player_ s3 = current_player_ s /\
    new_trick_begin_ s3 = true /\
    num_passes_ s3 = 0 /\
    trick_played_ s3 = trick_played_ s + 1 /\
    holds_ s3 = holds_ s1 /\
    played_deck_ s3 = played_deck_ s1.
Proof.
  intros Hph Hact H Hph1. unfold DoApplyAction in *.
  rewrite Hph in H. rewrite Hph1.
  apply ApplyPlayAction_play in H
    as (played & trick & tricks' & s2 & all & _ & Htrick & Hset & Hafter &
        Hend); [| assumption].
  cbv zeta in Hafter.
  apply AfterPlayHand_frame in Hafter as (holds' & played' & Hs2 & _).
  destruct all.
  { destruct Hend as (s3 & _ & ->). discriminate. }
  subst s1 s2. unfold next_player.
  assert (arr_get tricks' (trick_played_ s)
          = Ok (Trick_Play trick (current_player_ s) act)) as Hget.
  { apply arr_set_Ok in Hset as (x & [Hi Hx]%arr_get_Ok & ->).
    apply arr_get_Ok. split; [exact Hi |].
    apply list_lookup_insert_eq. eapply lookup_lt_Some, Hx. }
  rewrite ApplyPlayAction_pass. cbv zeta. st_simpl.
  rewrite (decide_False (P := 0 + 1 = 2)) by lia. unfold next_player.
  st_simpl. eexists. eexists. split; [reflexivity |].
  st_simpl. rewrite Hph, ApplyPlayAction_pass. cbv zeta. st_simpl.
  rewrite (decide_True (P := 0 + 1 + 1 = 2)) by lia.
  unfold CurrentTrick. st_simpl. rewrite Hget. cbn [bind]. st_simpl.
  split; [reflexivity |]. st_simpl. repeat split; assumption.
Qed.

(** ** The bid branch of the auction *)

(** X2.  In a reachable state of the auction every legal bid goes through
    and makes the bidder the landlord at that bid, above the bid it beats,
    with the count of passes back to zero.  The highest bid ends the
    auction at once: the bidder takes the left-over cards and leads the
    first trick.  Any other bid leaves the hands alone and passes the turn
    to the next seat. *)
Theorem bid_makes_the_bidder_landlord (s : GITCGState) (act : Z) :
  header_ok -> reachable s -> phase_ s = kAuction ->
  act ∈ BiddingLegalActions s -> act <> kPass ->
  exists s',
    DoApplyAction s act = Ok s' /\
    dizhu_ s' = current_player_ s /\
    winning_bid_ s' = act - kBiddingActionBase /\
    winning_bid_ s < winning_bid_ s' <= kNumBids /\
    num_passes_ s' = 0 /\
    cards_left_over_ s' = cards_left_over_ s /\
    if decide (act - kBiddingActionBase = kNumBids) then
      phase_ s' = kPlay /\
      current_player_ s' = current_player_ s /\
      new_trick_begin_ s' = true /\
      tricks_ s' = [Trick_Trick (current_player_ s) kInvalidAction] /\
      forall p r,
        rd2 (holds_ s') p r =
          rd2 (holds_ s) p r +
          (if decide (p = current_player_ s) then
             count_rank r (cards_left_over_ s)
           else 0)
    else
      phase_ s' = kAuction /\
      current_player_ s' = Z.rem (current_player_ s + 1) kNumPlayers /\
      holds_ s' = holds_ s /\
      tricks_ s' = tricks_ s.
Proof.
  intros Hok Hreach Hph Hlegal Hact.
  pose proof (reachable_inv s Hok Hreach) as [Hsh Hinv]. rewrite Hph in Hinv.
  destruct Hinv as (Hdealt & Hsum & Hbefore & Hseat & _).
  apply BiddingLegalActions_spec in Hlegal as [-> | (v & Hv & ->)];
    [contradiction |].
  unfold DoApplyAction. rewrite Hph.
  rewrite ApplyBiddingAction_bid by assumption. cbv zeta.
  replace (kBiddingActionBase + v - kBiddingActionBase) with v by lia.
  set (s1 := set_winning_bid_ v _).
  destruct (decide (v = kNumBids)) as [Hv' | Hv'].
  - destruct (conclude_auction_Ok s1) as [s' Hs'].
    + destruct Hsh. constructor; assumption.
    + exact Hdealt.
    + exact Hseat.
    + exists s'. split; [exact Hs' |].
      apply conclude_auction_spec in Hs'
        as (E1 & E2 & E3 & E4 & E5 & E6 & E7 & E8 & _ & _ & E11);
        [| apply Hdealt].
      subst s1. st_simpl. destruct Hbefore as (_ & Htr & _).
      rewrite Htr in E5.
      repeat split; try assumption; try lia.
  - eexists. split; [reflexivity |]. subst s1. unfold next_player. st_simpl.
    repeat split; try assumption; lia.
Qed.

(** ** The chance outcomes of the deal *)

Lemma rd_seqZ (l : list Z) : rd l <$> seqZ 0 (Z.of_nat (length l)) = l.
Proof.
  induction l as [| x l IH] using rev_ind; [reflexivity |].
  rewrite length_app. simpl length. rewrite Nat.add_1_r.
  rewrite seqZ_S, fmap_app, Z.add_0_l. simpl. rewrite rd_app_last.
  f_equal. transitivity (rd l <$> seqZ 0 (Z.of_nat (length l)));
    [| exact IH]. apply list_fmap_ext.
  intros i c Hc. apply lookup_seqZ in Hc as [-> Hc].
  apply rd_app_l. lia.
Qed.

(** X7.  The chance outcomes of a state of the right shape are its legal
    deal actions, in the same order, and all carry the same weight
    [1.0 / n], whose divisor [n] is the number of outcomes: the count
    [num_cards_remaining] of the source is the number of cards it lists.
    The weights are kept as their divisor; nothing is said of the sum of
    the doubles, and a state with an empty pool has no outcome. *)
Theorem chance_outcomes_uniform (s : GITCGState) :
  0 <= kNumCards -> shaped s ->
  fst <$> ChanceOutcomes s = DealLegalActions s /\
  Forall (fun o => snd o = Z.of_nat (length (ChanceOutcomes s)))
    (ChanceOutcomes s).
Proof.
  intros HN Hsh. unfold ChanceOutcomes, DealLegalActions. cbv zeta.
  destruct (decide (card_face_up_position_ s = -1)).
  - split.
    + rewrite <- list_fmap_compose. apply list_fmap_id.
    + apply Forall_fmap, Forall_forall. intros i Hi%elem_of_seqZ. simpl.
      rewrite length_fmap, length_seqZ. lia.
  - split.
    + rewrite <- list_fmap_compose. reflexivity.
    + apply Forall_fmap, Forall_forall. intros c _. simpl.
      rewrite length_fmap, (undealt_length s HN Hsh). unfold pool_count.
      rewrite <- (Z2Nat.id kNumCards HN), <- (shaped_deck _ Hsh), rd_seqZ.
      reflexivity.
Qed.

(** ** The legal actions of the deal *)

(** X15.  No card is dealt twice: once the position is chosen, dealing a
    legal card takes that card, and no other, out of the legal deal
    actions. *)
Theorem dealt_card_leaves_the_pool (s s' : GITCGState) (act : Z) :
  shaped s -> card_face_up_position_ s <> -1 ->
  act ∈ DealLegalActions s ->
  ApplyDealAction s act = Ok s' ->
  forall a, a ∈ DealLegalActions s' <-> a ∈ DealLegalActions s /\ a <> act.
Proof.
  intros Hsh Hup Hlegal H a.
  apply ApplyDealAction_card in H
    as (first & holds' & deck' & _ & _ & Hdeck & H); [| assumption].
  cbv zeta in H.
  assert (card_face_up_position_ s' = card_face_up_position_ s /\
          dealer_deck_ s' = deck') as [Hup' Hdeck'].
  { destruct (decide (_ = kNumCards - kNumCardsLeftOver));
      [destruct H as [_ ->] | subst s']; destruct (decide _); st_simpl;
      tauto. }
  unfold DealLegalActions, undealt in *.
  rewrite Hup', Hdeck'.
  destruct (decide (card_face_up_position_ s = -1)) as [? | _];
    [contradiction |].
  apply list_elem_of_fmap in Hlegal as (card & -> & Hcard).
  apply list_elem_of_filter in Hcard as [Hnz Hcard].
  replace (card + kDealingActionBase - kDealingActionBase) with card
    in Hdeck by lia.
  assert (rd (dealer_deck_ s) card = 1) as Hone.
  { pose proof (shaped_deck01 _ Hsh) as H01. rewrite Forall_forall in H01.
    pose proof Hdeck as (x & Hx & _)%arr_upd_Ok.
    rewrite (rd_Ok _ _ _ Hx) in *.
    apply arr_get_Ok in Hx as [_ Hx].
    destruct (H01 x); [eapply list_elem_of_lookup_2, Hx | | ]; lia. }
  rewrite !list_elem_of_fmap. split.
  - intros (c & -> & [Hc Hin]%list_elem_of_filter).
    rewrite (arr_upd_rd _ _ _ _ c Hdeck) in Hc.
    destruct (decide (c = card)) as [-> | Hne]; [lia |].
    split; [| lia]. exists c. split; [reflexivity |].
    apply list_elem_of_filter. tauto.
  - intros [(c & -> & [Hc Hin]%list_elem_of_filter) Hne].
    exists c. split; [reflexivity |]. apply list_elem_of_filter.
    split; [| exact Hin]. rewrite (arr_upd_rd _ _ _ _ c Hdeck).
    rewrite decide_False by (intros ->; apply Hne; reflexivity). exact Hc.
Qed.

(** ** The order of the legal actions *)

Lemma seqZ_sorted (m n : Z) : StronglySorted Z.lt (seqZ m n).
Proof.
  destruct (decide (n <= 0)) as [Hn | Hn];
    [rewrite seqZ_nil by assumption; constructor |].
  rewrite <- (Z2Nat.id n) by lia. generalize (Z.to_nat n) as k.
  intros k. revert m. induction k as [| k IH]; intros m; [constructor |].
  rewrite seqZ_cons by lia.
  replace (Z.pred (Z.of_nat (S k))) with (Z.of_nat k) by lia.
  constructor; [apply IH |].
  apply Forall_forall. intros x Hx%elem_of_seqZ. lia.
Qed.

Lemma StronglySorted_filter {A : Type} (R : relation A) (P : A -> Prop)
  `{forall x, Decision (P x)} (l : list A) :
  StronglySorted R l -> StronglySorted R (filter P l).
Proof.
  induction 1 as [| x l Hl IH Hx]; [constructor |].
  rewrite filter_cons. destruct (decide (P x)); [| exact IH].
  constructor; [exact IH |]. apply Forall_forall.
  intros y [_ Hy]%list_elem_of_filter.
  rewrite Forall_forall in Hx. apply Hx, Hy.
Qed.

(** X16.  The legal actions come in ascending order.  In the deal they are
    strictly ascending, and so they are in the auction when the id of a
    pass is below the ids of the bids still open; in the play phase they
    are the sorted list of the combinations found, with the pass when it is
    offered. *)
Theorem legal_actions_are_sorted (s : GITCGState) (l : list Z) :
  (phase_ s = kAuction -> kPass <= kBiddingActionBase + winning_bid_ s) ->
  LegalActions s = Ok l ->
  Sorted Z.le l /\
  (phase_ s <> kPlay -> StronglySorted Z.lt l).
Proof.
  intros Hpass H.
  assert (Hlt : forall l0 : list Z, StronglySorted Z.lt l0 -> Sorted Z.le l0).
  { intros l0 Hl0. apply StronglySorted_Sorted.
    induction Hl0 as [| x l0 Hl0 IH Hx]; constructor; [exact IH |].
    eapply Forall_impl; [exact Hx |]. simpl. intros; lia. }
  unfold LegalActions in H. destruct (phase_ s) eqn:Hph.
  - injection H as <-.
    assert (StronglySorted Z.lt (DealLegalActions s)) as Hs.
    { unfold DealLegalActions, undealt. destruct (decide _).
      - apply seqZ_sorted.
      - apply (StronglySorted_fmap _ Z.lt Z.lt); [intros; lia |].
        apply StronglySorted_filter, seqZ_sorted. }
    split; [apply Hlt, Hs | intros _; exact Hs].
  - injection H as <-.
    assert (StronglySorted Z.lt (BiddingLegalActions s)) as Hs.
    { unfold BiddingLegalActions. constructor.
      - apply (StronglySorted_fmap _ Z.lt Z.lt); [intros; lia |].
        apply seqZ_sorted.
      - apply Forall_fmap, Forall_forall. intros v Hv%elem_of_seqZ. simpl.
        specialize (Hpass eq_refl). lia. }
    split; [apply Hlt, Hs | intros _; exact Hs].
  - unfold PlayLegalActions in H. cbv zeta in H. bind_ok H. bind_ok H.
    injection H as <-. split; [| congruence].
    apply Sorted_merge_sort. apply _.
  - injection H as <-. split; [constructor | intros _; constructor].
Qed.

(** ** Reading the history *)

Lemma arr_get_app_l {A : Type} (l t : list A) (i : Z) (x : A) :
  arr_get l i = Ok x -> arr_get (l ++ t) i = Ok x.
Proof.
  intros [Hi Hx]%arr_get_Ok. apply arr_get_Ok. split; [exact Hi |].
  apply lookup_app_l_Some, Hx.
Qed.

Lemma arr_get_app_last {A : Type} (l : list A) (x : A) :
  arr_get (l ++ [x]) (Z.of_nat (length l)) = Ok x.
Proof.
  apply arr_get_Ok. split; [lia |]. rewrite Nat2Z.id.
  rewrite lookup_app_r by lia. rewrite Nat.sub_diag. reflexivity.
Qed.

Lemma rank_dealt_app (h t : list PlayerAction) (i : Z) :
  0 <= i < Z.of_nat (length h) -> rank_dealt (h ++ t) i = rank_dealt h i.
Proof.
  intros Hi. unfold rank_dealt.
  destruct (arr_get_in_range h i Hi) as [x Hx].
  rewrite Hx, (arr_get_app_l _ t _ _ Hx). reflexivity.
Qed.

Lemma dealt_count_app (h t : list PlayerAction) (n p r : Z) :
  n <= Z.of_nat (length h) - 1 ->
  dealt_count (h ++ t) n p r = dealt_count h n p r.
Proof.
  intros Hn. unfold dealt_count. f_equal. f_equal.
  apply filter_ext_elem. intros i Hi%elem_of_seqZ.
  rewrite rank_dealt_app by lia. reflexivity.
Qed.

Lemma dealt_count_nil (h : list PlayerAction) (n p r : Z) :
  n <= 0 -> dealt_count h n p r = 0.
Proof.
  intros Hn. unfold dealt_count. rewrite seqZ_nil by assumption. reflexivity.
Qed.

Lemma dealt_count_snoc (h : list PlayerAction) (x : PlayerAction) (p r : Z) :
  1 <= Z.of_nat (length h) ->
  dealt_count (h ++ [x]) (Z.of_nat (length h)) p r =
    dealt_count h (Z.of_nat (length h) - 1) p r +
    (if decide (Z.rem (Z.of_nat (length h) - 1) kNumPlayers = p /\
                CardToRank (action x - kDealingActionBase) = r)
     then 1 else 0).
Proof.
  intros Hlen. unfold dealt_count.
  remember (Z.of_nat (length h)) as L eqn:HL.
  assert (Hs : seqZ 1 L = seqZ 1 (L - 1) ++ [L]).
  { replace L with ((L - 1) + 1) at 1 by lia. rewrite seqZ_app by lia.
    f_equal. replace (1 + (L - 1)) with L by lia. reflexivity. }
  rewrite Hs, filter_app, length_app, Nat2Z.inj_add. f_equal.
  - f_equal. f_equal. apply filter_ext_elem. intros i Hi%elem_of_seqZ.
    rewrite rank_dealt_app by lia. reflexivity.
  - rewrite filter_cons, filter_nil.
    unfold rank_dealt. rewrite HL, arr_get_app_last.
    destruct (decide _); reflexivity.
Qed.

Lemma rd2_replicate (n m : nat) (p r : Z) :
  rd2 (replicate n (replicate m 0)) p r = 0.
Proof.
  unfold rd2, rd, arr_get.
  destruct (decide (0 <= p)); [| reflexivity].
  destruct (replicate n (replicate m 0) !! Z.to_nat p) as [row |] eqn:Hrow;
    [| reflexivity].
  apply lookup_replicate in Hrow as [-> _].
  destruct (decide (0 <= r)); [| reflexivity].
  destruct (replicate m 0 !! Z.to_nat r) as [x |] eqn:Hx; [| reflexivity].
  apply lookup_replicate in Hx as [-> _]. reflexivity.
Qed.

Lemma rem3_next (a k : Z) :
  0 <= a -> 0 <= k ->
  Z.rem (Z.rem (a + k) kNumPlayers + 1) kNumPlayers
  = Z.rem (a + (k + 1)) kNumPlayers.
Proof.
  intros Ha Hk. unfold kNumPlayers.
  pose proof (Z.rem_bound_pos (a + k) 3 ltac:(lia) ltac:(lia)).
  rewrite !Z.rem_mod_nonneg by lia.
  rewrite Z.add_mod_idemp_l by lia. f_equal. lia.
Qed.

Lemma position_chosen_frame (s s' : GITCGState) (t : list PlayerAction) :
  card_face_up_position_ s' = card_face_up_position_ s ->
  history_ s' = history_ s ++ t ->
  position_chosen s -> position_chosen s'.
Proof.
  intros Hp Hh (Hpos & first & Hfirst & Hact). unfold position_chosen.
  rewrite Hp, Hh. split; [exact Hpos |]. exists first.
  split; [apply arr_get_app_l, Hfirst | exact Hact].
Qed.

Lemma face_up_known_frame (s s' : GITCGState) (t : list PlayerAction) :
  card_face_up_position_ s' = card_face_up_position_ s ->
  first_player_ s' = first_player_ s ->
  card_rank_face_up_ s' = card_rank_face_up_ s ->
  history_ s' = history_ s ++ t ->
  face_up_known s -> face_up_known s'.
Proof.
  intros Hp Hf Hr Hh (Hfirst & h & Hget & Hrank). unfold face_up_known.
  rewrite Hp, Hf, Hr, Hh. split; [exact Hfirst |]. exists h.
  split; [apply arr_get_app_l, Hget | exact Hrank].
Qed.

(** ** The further invariants hold in every reachable state *)

Lemma inv_more_init : inv_more NewInitialState.
Proof.
  unfold inv_more, hands_nonneg, inv_first, inv_turn, inv_dealt,
    NewInitialState. st_simpl. rewrite decide_True by reflexivity.
  repeat split.
  - intros p r. rewrite rd2_replicate. lia.
  - intros p r. rewrite rd2_replicate, dealt_count_nil; [reflexivity |].
    simpl. lia.
Qed.

Lemma deal_step_more (s s1 : GITCGState) (act : Z) (h : list PlayerAction) :
  header_ok -> inv s -> inv_more s -> phase_ s = kDeal ->
  act ∈ DealLegalActions s ->
  ApplyDealAction s act = Ok s1 ->
  h = history_ s ++ [mkPlayerAction (CurrentPlayer s) act] ->
  inv_more (set_history_ h s1).
Proof.
  intros Hok [Hsh Hinv] (Hnn & Hfirst & Hturn & Hdealt) Hph Hlegal H ->.
  rewrite Hph in Hinv.
  destruct Hinv as (Hleft & Hsum & Hbefore & Hbid & _ & Hhist).
  pose proof Hok as (HN & HP & Hrank).
  unfold inv_first, inv_turn, inv_dealt in Hfirst, Hturn, Hdealt.
  rewrite Hph in Hfirst, Hturn, Hdealt.
  unfold DealLegalActions in Hlegal.
  destruct (decide (card_face_up_position_ s = -1)) as [Hup | Hup].
  - (* the revealed position is chosen *)
    unfold ApplyDealAction in H. rewrite decide_True in H by assumption.
    injection H as <-. apply elem_of_seqZ in Hlegal.
    destruct Hhist as [Hh _]. rewrite Hh in *.
    unfold inv_more, hands_nonneg, inv_first, inv_turn, inv_dealt.
    st_simpl. rewrite Hph. rewrite decide_False by lia.
    split; [exact Hnn |]. split; [| split; [exact Hturn |]].
    + split.
      * unfold position_chosen. st_simpl. split; [lia |]. eexists.
        split; [reflexivity |]. reflexivity.
      * left. split; [exact Hfirst |]. simpl. lia.
    + intros p r. rewrite Hdealt. simpl length.
      rewrite !dealt_count_nil by lia. reflexivity.
  - (* a card is dealt *)
    destruct Hhist as [Hh _].
    assert (1 <= Z.of_nat (length (history_ s))) as Hlen.
    { destruct (history_ s); [contradiction | simpl; lia]. }
    apply list_elem_of_fmap in Hlegal as (card & -> & Hcard).
    apply list_elem_of_filter in Hcard as [Hnz Hcard%elem_of_seqZ].
    apply ApplyDealAction_card in H
      as (first & holds' & deck' & Hget & Hholds & Hdeck & H);
      [| assumption].
    cbv zeta in H.
    destruct Hfirst as [Hchosen Hknown].
    pose proof Hchosen as (Hpos & first0 & Hget0 & Hact0).
    rewrite Hget in Hget0. injection Hget0 as <-.
    set (size := Z.of_nat (length (history_ s))) in *.
    set (rank := CardToRank (card + kDealingActionBase - kDealingActionBase))
      in *.
    set (x := mkPlayerAction (CurrentPlayer s) (card + kDealingActionBase)).
    set (s1' := if decide (size - 1 = action first) then _ else s) in H.
    assert (Hs1 : holds_ s1' = holds_ s /\
                  card_face_up_position_ s1' = card_face_up_position_ s /\
                  history_ s1' = history_ s /\
                  phase_ s1' = phase_ s /\
                  num_passes_ s1' = num_passes_ s /\
                  dizhu_ s1' = dizhu_ s /\
                  winning_bid_ s1' = winning_bid_ s /\
                  returns_ s1' = returns_ s /\
                  tricks_ s1' = tricks_ s /\
                  ((first_player_ s1' = kInvalidPlayer /\
                    size <= card_face_up_position_ s) \/
                   face_up_known (set_history_ (history_ s ++ [x]) s1'))).
    { subst s1'. destruct (decide (size - 1 = action first)) as [Hd | Hd];
        st_simpl; repeat split.
      - right. unfold face_up_known. st_simpl.
        rewrite <- Hact0, <- Hd. split; [reflexivity |].
        exists x. split; [| reflexivity].
        replace (size - 1 + 1) with size by lia. apply arr_get_app_last.
      - destruct Hknown as [[Hinv Hle] | Hk].
        + left. split; [exact Hinv | lia].
        + right. eapply face_up_known_frame; [..| exact Hk]; reflexivity. }
    destruct Hs1 as (E1 & E2 & E3 & E4 & E5 & E6 & E7 & E8 & E9 & Hf1).
    clearbody s1'.
    assert (Hnn' : forall p r, 0 <= rd2 holds' p r).
    { intros p r. rewrite (arr2_upd_rd2 _ _ _ _ _ p r Hholds).
      pose proof (Hnn p r).
      pose proof (Hnn (Z.rem (size - 1) kNumPlayers) rank).
      destruct (decide (p = _ /\ r = rank)); lia. }
    assert (Hcount : forall p r,
              rd2 holds' p r = dealt_count (history_ s ++ [x]) size p r).
    { intros p r. rewrite (arr2_upd_rd2 _ _ _ _ _ p r Hholds).
      unfold size. rewrite dealt_count_snoc by assumption.
      fold size. rewrite !Hdealt. fold size. subst x. st_simpl. fold rank.
      destruct (decide (p = _ /\ r = rank)) as [[-> ->] | Hn].
      - rewrite decide_True by tauto. lia.
      - rewrite decide_False; [lia |]. intros [<- <-]. tauto. }
    assert (Hchosen' : forall s2 : GITCGState,
              card_face_up_position_ s2 = card_face_up_position_ s ->
              history_ s2 = history_ s ++ [x] -> position_chosen s2).
    { intros s2 Hp2 Hh2. eapply position_chosen_frame; eassumption. }
    unfold inv_more, hands_nonneg, inv_first, inv_turn, inv_dealt.
    destruct (decide (size = kNumCards - kNumCardsLeftOver)) as [Hend | Hend].
    + (* the last card of the deal *)
      destruct H as [Hcheck ->]. st_simpl.
      destruct Hf1 as [[Hinv _] | Hk]; [lia |].
      split; [exact Hnn' |]. split; [| split].
      * split; [apply Hchosen'; [exact E2 | reflexivity] |].
        destruct Hk as [Hk1 Hk2]. st_simpl. split; assumption.
      * rewrite E5, E6, E7. destruct Hturn as [-> ->]. rewrite Hbid.
        split; [lia |]. split; [lia |]. split; [intros _; split; [lia |];
          reflexivity |]. split; [lia |].
        exists 0. split; [lia |]. rewrite length_app. simpl length.
        unfold kNumDealt. split; [lia |].
        destruct Hk as [Hk1 _]. st_simpl. rewrite Hk1, E2.
        rewrite Z.add_0_r. unfold kNumPlayers.
        pose proof (Z.rem_bound_pos (card_face_up_position_ s) 3
                      ltac:(lia) ltac:(lia)).
        rewrite (Z.rem_small (Z.rem _ 3)) by lia. reflexivity.
      * rewrite length_app. simpl length. unfold kNumDealt.
        split; [lia |]. intros p r. rewrite <- Hend. apply Hcount.
    + (* the deal goes on *)
      subst s1. st_simpl. rewrite E4, Hph, E2.
      rewrite decide_False by assumption.
      split; [exact Hnn' |]. split; [| split].
      * split; [apply Hchosen'; [exact E2 | reflexivity] |].
        rewrite length_app. simpl length.
        destruct Hf1 as [[Hinv Hle] | Hk].
        -- left. split; [exact Hinv | lia].
        -- right. destruct Hk as [Hk1 Hk2]. st_simpl. split; assumption.
      * rewrite E5, E6. exact Hturn.
      * intros p r. rewrite length_app. simpl length.
        replace (Z.of_nat (length (history_ s) + 1) - 1) with size by lia.
        apply Hcount.
Qed.

Lemma conclude_auction_more (s s1 : GITCGState) (t : list PlayerAction) :
  leftover_size s = kNumCardsLeftOver ->
  hands_nonneg s -> position_chosen s -> face_up_known s ->
  returns_ s = replicate (Z.to_nat kNumPlayers) 0 ->
  conclude_auction s = Ok s1 ->
  inv_more (set_history_ (history_ s ++ t) s1).
Proof.
  intros Hleft Hnn Hchosen Hknown Hret H.
  apply conclude_auction_explicit in H as (holds' & Hholds & ->).
  rewrite take_left_over_all in Hholds by exact Hleft.
  apply add_cards_spec in Hholds as (_ & _ & Hrd).
  unfold inv_more, hands_nonneg, inv_first, inv_turn, inv_dealt. st_simpl.
  split; [| split; [| split; [exact Hret | exact I]]].
  - intros p r. rewrite Hrd. specialize (Hnn p r). unfold count_rank.
    destruct (decide _); lia.
  - split.
    + eapply position_chosen_frame; [.. | exact Hchosen]; reflexivity.
    + eapply face_up_known_frame; [.. | exact Hknown]; reflexivity.
Qed.

Lemma bidding_step_more (s s1 : GITCGState) (act : Z)
  (t : list PlayerAction) :
  inv s -> inv_more s -> phase_ s = kAuction ->
  length t = 1%nat ->
  act ∈ BiddingLegalActions s ->
  ApplyBiddingAction s act = Ok s1 ->
  inv_more (set_history_ (history_ s ++ t) s1).
Proof.
  intros [Hsh Hinv] (Hnn & Hfirst & Hturn & Hdealt) Hph Ht Hlegal H.
  rewrite Hph in Hinv.
  destruct Hinv as (Hd & Hsum & Hbefore & Hseat & _).
  unfold inv_first, inv_turn, inv_dealt in Hfirst, Hturn, Hdealt.
  rewrite Hph in Hfirst, Hturn, Hdealt.
  destruct Hfirst as [Hchosen Hknown].
  destruct Hturn as (Hnp & Hwb & Hnobid & Hbid & k & Hk & Hlen & Hcur).
  destruct Hdealt as [Hhlen Hcount].
  destruct Hbefore as (_ & Htr & _ & Hret).
  destruct Hd as (_ & Hleft & _).
  pose proof Hchosen as ([Hpos _] & _).
  pose proof Hknown as [Hfp _].
  assert (Hstay : forall s2 : GITCGState,
            phase_ s2 = kAuction -> holds_ s2 = holds_ s ->
            first_player_ s2 = first_player_ s ->
            card_face_up_position_ s2 = card_face_up_position_ s ->
            card_rank_face_up_ s2 = card_rank_face_up_ s ->
            current_player_ s2
              = Z.rem (current_player_ s + 1) kNumPlayers ->
            0 <= num_passes_ s2 -> 0 <= winning_bid_ s2 ->
            (winning_bid_ s2 = 0 ->
             num_passes_ s2 <= 2 /\ dizhu_ s2 = kInvalidPlayer) ->
            (winning_bid_ s2 > 0 ->
             num_passes_ s2 <= 1 /\ winning_bid_ s2 < kNumBids) ->
            inv_more (set_history_ (history_ s ++ t) s2)).
  { intros s2 E1 E2 E3 E4 E5 E6 E7 E8 E9 E10.
    unfold inv_more, hands_nonneg, inv_first, inv_turn, inv_dealt. st_simpl.
    rewrite E1, E2. split; [exact Hnn |]. split; [| split].
    - split.
      + eapply position_chosen_frame; [.. | exact Hchosen];
          [exact E4 | reflexivity].
      + eapply face_up_known_frame; [.. | exact Hknown];
          [exact E4 | exact E3 | exact E5 | reflexivity].
    - split; [exact E7 |]. split; [exact E8 |]. split; [exact E9 |].
      split; [exact E10 |]. exists (k + 1). split; [lia |].
      rewrite length_app, Ht. split; [lia |].
      rewrite E6, E3, Hcur. apply rem3_next; [| lia].
      rewrite Hfp. apply Z.rem_nonneg; unfold kNumPlayers; lia.
    - rewrite length_app, Ht. split; [lia |]. intros p r.
      rewrite dealt_count_app by lia. apply Hcount. }
  destruct (decide (act = kPass)) as [-> | Hact].
  - rewrite ApplyBiddingAction_pass in H. cbv zeta in H.
    destruct (decide (num_passes_ s + 1 = 3)) as [H3 | H3].
    + injection H as <-. unfold next_player.
      unfold inv_more, hands_nonneg, inv_first, inv_turn, inv_dealt.
      st_simpl. split; [exact Hnn |]. split; [| split; [| exact I]].
      * split.
        -- eapply position_chosen_frame; [.. | exact Hchosen]; reflexivity.
        -- eapply face_up_known_frame; [.. | exact Hknown]; reflexivity.
      * intros _. apply Hnobid. lia.
    + destruct (decide (num_passes_ s + 1 = 2 /\ winning_bid_ s > 0))
        as [H2 | H2].
      * eapply (conclude_auction_more
                  (set_num_passes_ (num_passes_ s + 1) s)); try eassumption.
      * injection H as <-. unfold next_player. apply Hstay; st_simpl;
          try reflexivity; try assumption; lia.
  - rewrite ApplyBiddingAction_bid in H by assumption. cbv zeta in H.
    apply BiddingLegalActions_spec in Hlegal as [-> | (v & Hv & ->)];
      [contradiction |].
    replace (kBiddingActionBase + v - kBiddingActionBase) with v in H by lia.
    destruct (decide (v = kNumBids)) as [HK | HK].
    + eapply (conclude_auction_more
                (set_winning_bid_ v
                   (set_dizhu_ (current_player_ s) (set_num_passes_ 0 s))));
        try eassumption.
    + injection H as <-. unfold next_player. apply Hstay; st_simpl;
        try reflexivity; try assumption; lia.
Qed.

Lemma AfterPlayHand_nonneg (s s' : GITCGState) (p act : Z) (all : bool) :
  hands_nonneg s -> AfterPlayHand s p act = Ok (s', all) -> hands_nonneg s'.
Proof.
  unfold AfterPlayHand. intros Hnn H.
  apply AfterPlayHand_loop in H as (Hcov & Hholds & _); [| apply NoDup_seqZ].
  intros q r. rewrite Hholds. specialize (Hnn q r).
  destruct (decide (q = p /\ _)) as [[-> Hr] | _]; [| lia].
  specialize (Hcov r Hr). lia.
Qed.

Lemma play_step_more (s s1 : GITCGState) (act : Z) (t : list PlayerAction) :
  inv s -> inv_more s -> phase_ s = kPlay ->
  ApplyPlayAction s act = Ok s1 ->
  inv_more (set_history_ (history_ s ++ t) s1).
Proof.
  intros [Hsh Hinv] (Hnn & Hfirst & Hturn & _) Hph H.
  rewrite Hph in Hinv. destruct Hinv as (_ & _ & Htricks).
  unfold inv_first, inv_turn in Hfirst, Hturn. rewrite Hph in Hfirst, Hturn.
  destruct Hfirst as [Hchosen Hknown].
  assert (Hnn1 : hands_nonneg s1).
  { destruct (decide (act = kPass)) as [-> | Hact].
    - rewrite ApplyPlayAction_pass in H. cbv zeta in H.
      destruct (decide _); [bind_ok H |]; injection H as <-; exact Hnn.
    - apply ApplyPlayAction_play in H
        as (played & trick & tricks' & s2 & all & _ & _ & _ & Hafter & Hend);
        [| assumption].
      cbv zeta in Hafter. apply AfterPlayHand_nonneg in Hafter; [| exact Hnn].
      destruct all.
      + destruct Hend as (s3 & Hscore & ->).
        apply ScoreUp_frame in Hscore as (rt & -> & _). exact Hafter.
      + subst s1. exact Hafter. }
  apply ApplyPlayAction_frame_more in H
    as (E1 & E2 & E3 & E4 & E5 & E6 & E7 & E8 & E9).
  unfold inv_more, hands_nonneg, inv_first, inv_turn, inv_dealt. st_simpl.
  split; [exact Hnn1 |].
  assert (position_chosen (set_history_ (history_ s ++ t) s1) /\
          face_up_known (set_history_ (history_ s ++ t) s1)) as Hf.
  { split.
    - eapply position_chosen_frame; [.. | exact Hchosen];
        [exact E3 | reflexivity].
    - eapply face_up_known_frame; [.. | exact Hknown];
        [exact E3 | exact E2 | exact E4 | reflexivity]. }
  destruct E9 as [[E9 E10] | E9]; rewrite E9; [rewrite Hph |].
  - split; [exact Hf |]. split; [| exact I]. rewrite E10. exact Hturn.
  - split; [exact Hf |]. split; [| exact I]. intros Hnil.
    exfalso. apply E8; assumption.
Qed.

Lemma inv_more_step (s s' : GITCGState) (act : Z) :
  header_ok -> inv s -> inv_more s -> legal s act ->
  ApplyAction s act = Ok s' -> inv_more s'.
Proof.
  intros Hok Hinv Hmore (l & Hl & Hact) H.
  unfold ApplyAction in H. bind_ok H. injection H as <-.
  unfold LegalActions, DoApplyAction in *.
  destruct (phase_ s) eqn:Hph.
  - injection Hl as <-. eapply deal_step_more; eauto.
  - injection Hl as <-. eapply bidding_step_more; eauto.
  - eapply play_step_more; eauto.
  - discriminate.
Qed.

Lemma reachable_inv_more (s : GITCGState) :
  header_ok -> reachable s -> inv_more s.
Proof.
  intros Hok. induction 1 as [| s s' act Hreach IH Hlegal Hstep].
  - apply inv_more_init.
  - eapply inv_more_step; eauto using reachable_inv.
Qed.

(** ** Hands, first bidder and returns in the reachable states *)

(** X8.  In every reachable state no hand holds a negative number of cards
    of any rank. *)
Theorem hands_never_negative (s : GITCGState) (p r : Z) :
  header_ok -> reachable s -> 0 <= rd2 (holds_ s) p r.
Proof.
  intros Hok Hreach.
  destruct (reachable_inv_more s Hok Hreach) as (Hnn & _). apply Hnn.
Qed.

(** X11.  Once the deal is over, the revealed position is what the first
    chance action chose, the first bidder is the seat that was dealt the
    card at that position, position modulo 3, and the rank shown is the
    rank of that card.  During the auction the seats act in turn from the
    first bidder on. *)
Theorem first_bidder_holds_the_face_up_card (s : GITCGState) :
  header_ok -> reachable s -> phase_ s <> kDeal ->
  0 <= card_face_up_position_ s < kDealingActionBase /\
  (exists first,
     arr_get (history_ s) 0 = Ok first /\
     action first = card_face_up_position_ s) /\
  first_player_ s = Z.rem (card_face_up_position_ s) kNumPlayers /\
  seat (first_player_ s) /\
  (exists h,
     arr_get (history_ s) (card_face_up_position_ s + 1) = Ok h /\
     card_rank_face_up_ s = CardToRank (action h - kDealingActionBase)) /\
  (phase_ s = kAuction ->
   exists k,
     0 <= k /\
     Z.of_nat (length (history_ s))
       = kNumCards - kNumCardsLeftOver + 1 + k /\
     current_player_ s = Z.rem (first_player_ s + k) kNumPlayers).
Proof.
  intros Hok Hreach Hph.
  destruct (reachable_inv_more s Hok Hreach) as (_ & Hfirst & Hturn & _).
  unfold inv_first, inv_turn in *.
  assert (position_chosen s /\ face_up_known s) as [[Hpos Hget] [Hfp Hrk]].
  { destruct (phase_ s); [contradiction | assumption ..]. }
  split; [exact Hpos |]. split; [exact Hget |]. split; [exact Hfp |].
  split; [rewrite Hfp; apply rem3_seat; lia |]. split; [exact Hrk |].
  intros Ha. rewrite Ha in Hturn.
  destruct Hturn as (_ & _ & _ & _ & Hk). exact Hk.
Qed.

(** X18.  The returns stay at zero for every seat until the game is
    over. *)
Theorem returns_zero_until_the_end (s : GITCGState) :
  header_ok -> reachable s -> phase_ s <> kGameOver ->
  returns_ s = replicate (Z.to_nat kNumPlayers) 0.
Proof.
  intros Hok Hreach Hph.
  destruct (reachable_inv_more s Hok Hreach) as (_ & _ & Hturn & _).
  destruct (reachable_inv s Hok Hreach) as [_ Hinv].
  unfold inv_turn in Hturn.
  destruct (phase_ s); [| | exact Hturn | contradiction].
  - destruct Hinv as (_ & _ & (_ & _ & _ & Hret) & _). exact Hret.
  - destruct Hinv as (_ & _ & (_ & _ & _ & Hret) & _). exact Hret.
Qed.

(** ** The deal read back from the history *)

Lemma OriginalDeal_loop (h : list PlayerAction) (first : Z) (idx : list Z) :
  forall deal deal' : list (list Z),
    for_each idx
      (fun i deal =>
         do x <- arr_get h i;
         arr2_upd deal (Z.rem (i - 1 + first) kNumPlayers)
           (CardToRank (action x - kDealingActionBase)) Z.succ)
      deal = Ok deal' ->
    shape deal' = shape deal /\
    forall q r,
      rd2 deal' q r =
        rd2 deal q r +
        Z.of_nat
          (length
             (filter
                (fun i =>
                   Z.rem (i - 1 + first) kNumPlayers = q /\
                   rank_dealt h i = r)
                idx)).
Proof.
  induction idx as [| i idx IH]; intros deal deal' H.
  - injection H as <-. split; [reflexivity |]. intros q r. simpl. lia.
  - cbn [for_each] in H. bind_ok H. bind_ok E.
    apply IH in H as [Hsh Hrd].
    split; [rewrite Hsh; eapply arr2_upd_shape, E |].
    intros q r. rewrite Hrd, (arr2_upd_rd2 _ _ _ _ _ q r E).
    rewrite filter_cons.
    assert (rank_dealt h i = CardToRank (action a0 - kDealingActionBase))
      as -> by (unfold rank_dealt; rewrite E0; reflexivity).
    destruct (decide (q = _ /\ r = _)) as [[-> ->] | Hn].
    + rewrite decide_True by tauto. simpl length. lia.
    + rewrite decide_False; [lia |]. intros [<- <-]. tauto.
Qed.

(** ** The deal actions in the history *)

Lemma inv_history_step (s s' : GITCGState) (act : Z) :
  header_ok -> reachable s -> legal s act -> ApplyAction s act = Ok s' ->
  inv_history s -> inv_history s'.
Proof.
  intros Hok Hreach (l & Hl & Hin) Happly [Hlen Hcards].
  pose proof (reachable_inv s Hok Hreach) as [Hsh Hinv].
  unfold ApplyAction in Happly. bind_ok Happly. injection Happly as <-.
  unfold inv_history. st_simpl. rewrite length_app. simpl length.
  assert (phase_ s = kDeal -> phase_ a <> kDeal ->
          Z.of_nat (length (history_ s)) = kNumDealt) as Hend.
  { intros Hph Hph'. unfold DoApplyAction in E. rewrite Hph in E.
    destruct (decide (card_face_up_position_ s = -1)) as [Hup | Hup].
    - unfold ApplyDealAction in E. rewrite decide_True in E by assumption.
      injection E as <-. st_simpl. congruence.
    - apply ApplyDealAction_card in E
        as (first & holds' & deck' & _ & _ & _ & H); [| assumption].
      cbv zeta in H.
      destruct (decide (_ = kNumCards - kNumCardsLeftOver)) as [Hsz | Hsz];
        [exact Hsz |].
      subst a. destruct (decide (_ = action first)); st_simpl; congruence. }
  split.
  - intros Hph'. destruct (decide (phase_ s = kDeal)) as [Hph | Hph].
    + pose proof (Hend Hph Hph'). lia.
    + specialize (Hlen Hph). lia.
  - intros i h Hi Hget.
    destruct (decide (i < Z.of_nat (length (history_ s)))) as [Hlt | Hge].
    + destruct (arr_get_in_range (history_ s) i ltac:(lia)) as [x Hx].
      rewrite (arr_get_app_l _ _ _ _ Hx) in Hget. injection Hget as <-.
      eapply Hcards; eassumption.
    + apply arr_get_Ok in Hget as [_ Hget].
      assert (i = Z.of_nat (length (history_ s))) as ->.
      { apply lookup_lt_Some in Hget. rewrite length_app in Hget.
        simpl in Hget. lia. }
      rewrite Nat2Z.id, lookup_app_r, Nat.sub_diag in Hget by lia.
      injection Hget as <-. cbn [action].
      destruct (decide (phase_ s = kDeal)) as [Hph | Hph];
        [| specialize (Hlen Hph); lia].
      rewrite Hph in Hinv. destruct Hinv as (_ & _ & _ & _ & _ & Hpos).
      destruct (decide (card_face_up_position_ s = -1)) as [Hup | Hup].
      * destruct Hpos as [Hnil _]. rewrite Hnil in Hi. simpl in Hi. lia.
      * unfold LegalActions in Hl. rewrite Hph in Hl. injection Hl as <-.
        unfold DealLegalActions in Hin.
        rewrite decide_False in Hin by assumption.
        apply list_elem_of_fmap in Hin
          as (c & -> & [_ Hc%elem_of_seqZ]%list_elem_of_filter).
        lia.
Qed.

Lemma reachable_inv_history (s : GITCGState) :
  header_ok -> reachable s -> inv_history s.
Proof.
  intros Hok Hs. induction Hs as [| s s' act Hs IH Hlegal Happly].
  - split; [intros H; contradiction H; reflexivity |].
    intros i h _ H. unfold arr_get in H. cbn in H.
    destruct (decide (0 <= i)); discriminate.
  - eapply inv_history_step; eassumption.
Qed.

(** The first loop of [OriginalDeal] stays within its arrays when the
    entries it reads are deal actions of cards of the deck. *)
Lemma OriginalDeal_loop_Ok (h : list PlayerAction) (first : Z)
  (idx : list Z) :
  header_ok -> 0 <= first ->
  Forall
    (fun i =>
       1 <= i /\
       exists x,
         arr_get h i = Ok x /\
         0 <= action x - kDealingActionBase < kNumCards)
    idx ->
  forall deal : list (list Z),
    shape deal = replicate (Z.to_nat kNumPlayers) (Z.to_nat kNumRanks) ->
    exists deal',
      for_each idx
        (fun i deal =>
           do x <- arr_get h i;
           arr2_upd deal (Z.rem (i - 1 + first) kNumPlayers)
             (CardToRank (action x - kDealingActionBase)) Z.succ)
        deal = Ok deal'.
Proof.
  intros (_ & _ & Hrank) Hfirst Hidx.
  induction Hidx as [| i idx (Hi & x & Hx & Hcard) _ IH]; intros deal Hsh.
  - eexists. reflexivity.
  - cbn [for_each]. rewrite Hx. cbn [bind].
    destruct (arr2_upd_in_range deal (Z.rem (i - 1 + first) kNumPlayers)
                (CardToRank (action x - kDealingActionBase)) Z.succ
                (Z.to_nat kNumRanks)) as [deal1 Hdeal1].
    + rewrite Hsh. apply Forall_replicate. reflexivity.
    + apply (f_equal length) in Hsh. unfold shape in Hsh.
      rewrite length_fmap, length_replicate in Hsh. rewrite Hsh.
      pose proof (rem3_seat (i - 1 + first) ltac:(lia)) as Hseat.
      unfold seat in Hseat. lia.
    + specialize (Hrank _ Hcard). lia.
    + rewrite Hdeal1. cbn [bind]. apply IH.
      rewrite (arr2_upd_shape _ _ _ _ _ Hdeal1). exact Hsh.
Qed.

(** X12.  When nobody has bid and the game is over after three passes,
    there is no landlord: [dizhu_] still holds [kInvalidPlayer], which is
    not a seat.  [OriginalDeal], which the printing of a terminal state
    calls, then passes its size check and its first loop and, with cards
    left over, indexes [deal] by [dizhu_] outside the array.  In C++ this
    is undefined behaviour, for which the source fixes no result; the
    model reports it as [OutOfRange]. *)
Theorem original_deal_out_of_range_when_nobody_bid (s : GITCGState) :
  header_ok -> 0 < kNumCardsLeftOver ->
  reachable s -> phase_ s = kGameOver -> tricks_ s = [] ->
  Z.of_nat (length (history_ s)) >= kNumCards + 1 ->
  dizhu_ s = kInvalidPlayer /\
  ~ seat (dizhu_ s) /\
  (exists deal rank,
     OriginalDeal_dealt s
       (replicate (Z.to_nat kNumPlayers) (replicate (Z.to_nat kNumRanks) 0))
     = Ok deal /\
     arr_get (cards_left_over_ s) 0 = Ok rank /\
     arr2_upd deal (dizhu_ s) rank Z.succ = Err OutOfRange) /\
  OriginalDeal s = Err OutOfRange.
Proof.
  intros Hok Hleft Hreach Hph Htr Hsize.
  destruct (reachable_inv_more s Hok Hreach) as (_ & Hfirst & Hturn & _).
  destruct (reachable_inv s Hok Hreach) as [_ Hinv].
  destruct (reachable_inv_history s Hok Hreach) as [Hlen Hcards].
  unfold inv_turn, inv_first in *. rewrite Hph in *.
  specialize (Hturn Htr). specialize (Hlen ltac:(discriminate)).
  destruct Hfirst as [[[Hpos _] _] [Hfp _]].
  destruct Hinv as [(_ & Hsz & _) _].
  assert (~ seat (dizhu_ s)) as Hseat.
  { rewrite Hturn. destruct Hok as (_ & HP & _). unfold seat. lia. }
  destruct (OriginalDeal_loop_Ok (history_ s) (first_player_ s)
              (seqZ 1 (kNumCards - kNumCardsLeftOver)) Hok)
    with (deal := replicate (Z.to_nat kNumPlayers)
                    (replicate (Z.to_nat kNumRanks) 0))
    as [deal Hdeal].
  { rewrite Hfp. apply Z.rem_nonneg; unfold kNumPlayers; lia. }
  { apply Forall_forall. intros i Hi%elem_of_seqZ. split; [lia |].
    unfold kNumDealt in *.
    destruct (arr_get_in_range (history_ s) i ltac:(lia)) as [x Hx].
    exists x. split; [exact Hx |]. apply (Hcards i x); [lia | exact Hx]. }
  { unfold shape. rewrite fmap_replicate, length_replicate. reflexivity. }
  destruct (arr_get_in_range (cards_left_over_ s) 0) as [rank Hrank].
  { unfold leftover_size in Hsz. lia. }
  assert (forall (d : list (list Z)) r,
            arr2_upd d (dizhu_ s) r Z.succ = Err OutOfRange) as Hout.
  { intros d r. unfold arr2_upd, arr_get.
    rewrite decide_False; [reflexivity |].
    destruct Hok as (_ & HP & _). rewrite Hturn. lia. }
  split; [exact Hturn |]. split; [exact Hseat |]. split.
  - exists deal, rank. unfold OriginalDeal_dealt.
    split; [exact Hdeal |]. split; [exact Hrank | apply Hout].
  - unfold OriginalDeal, SPIEL_CHECK.
    rewrite bool_decide_eq_true_2 by exact Hsize. cbn [bind].
    unfold OriginalDeal_dealt. rewrite Hdeal. cbn [bind].
    unfold take_left_over. rewrite seqZ_cons by assumption.
    cbn [for_each]. rewrite Hrank. cbn [bind]. rewrite Hout. reflexivity.
Qed.

Lemma ApplyActions_frame (s s' : GITCGState) (acts : list Z) :
  phase_ s <> kDeal -> ApplyActions s acts = Ok s' ->
  phase_ s' <> kDeal /\
  first_player_ s' = first_player_ s /\
  cards_left_over_ s' = cards_left_over_ s /\
  exists t, history_ s' = history_ s ++ t.
Proof.
  revert s. induction acts as [| act acts IH]; intros s Hph H.
  - injection H as <-. repeat split; try assumption. exists [].
    rewrite app_nil_r. reflexivity.
  - cbn [ApplyActions] in H. destruct (legalb s act); [| discriminate].
    bind_ok H. unfold ApplyAction in E. bind_ok E. injection E as <-.
    assert (phase_ a0 <> kDeal /\ first_player_ a0 = first_player_ s /\
            cards_left_over_ a0 = cards_left_over_ s) as (F1 & F2 & F3).
    { unfold DoApplyAction in E0. destruct (phase_ s) eqn:Hs;
        [contradiction | | | discriminate].
      - apply ApplyBiddingAction_frame in E0
          as (_ & E2 & _ & _ & E5 & _ & _ & [E | [E | E]]);
          repeat split; try assumption; destruct E as [-> _]; congruence.
      - pose proof (ApplyPlayAction_frame _ _ _ E0) as (E5 & _).
        apply ApplyPlayAction_frame_more in E0
          as (_ & E2 & _ & _ & _ & _ & _ & _ & [[E _] | E]);
          repeat split; try assumption; congruence. }
    apply IH in H as (G1 & G2 & G3 & t & G4); [| st_simpl; exact F1].
    st_simpl. repeat split; try congruence.
    exists ((mkPlayerAction (CurrentPlayer s) act) :: t).
    rewrite G4, <- app_assoc. reflexivity.
Qed.

Lemma rem3_shift (a f p : Z) :
  0 <= a -> 0 <= f -> 0 <= p < 3 ->
  Z.rem (a + f) kNumPlayers = Z.rem (p + f) kNumPlayers <->
  Z.rem a kNumPlayers = p.
Proof.
  intros Ha Hf Hp. unfold kNumPlayers.
  rewrite !Z.rem_mod_nonneg by lia.
  Z.div_mod_to_equations. lia.
Qed.

(** X13.  [OriginalDeal] does not give back the hands as they were dealt
    when the first bidder is not seat 0.  [ApplyDealAction] gives the card
    of the [i]-th deal action to seat [(i - 1) % 3]; [OriginalDeal] counts
    it for seat [(i - 1 + first_player_) % 3].  So, for any state reached
    from a state of the auction, what it reports for seat
    [(p + first_player_) % 3] is the hand dealt to seat [p], to which the
    left-over cards are added if that seat is the landlord's. *)
Theorem original_deal_rotates_the_seats (s0 s : GITCGState) (acts : list Z)
  (deal : list (list Z)) :
  header_ok -> reachable s0 -> phase_ s0 = kAuction ->
  ApplyActions s0 acts = Ok s ->
  OriginalDeal s = Ok deal ->
  forall p r, seat p ->
    rd2 deal (Z.rem (p + first_player_ s0) kNumPlayers) r =
      rd2 (holds_ s0) p r +
      (if decide (Z.rem (p + first_player_ s0) kNumPlayers = dizhu_ s) then
         count_rank r (cards_left_over_ s0)
       else 0).
Proof.
  intros Hok Hreach Hph Hrun H p r Hp.
  destruct (reachable_inv_more s0 Hok Hreach) as (_ & Hfirst & _ & Hdealt).
  destruct (reachable_inv s0 Hok Hreach) as [_ Hinv].
  unfold inv_first, inv_dealt in *. rewrite Hph in *.
  destruct Hinv as ((_ & Hleft & _) & _).
  destruct Hfirst as [[[Hpos _] _] [Hfp _]].
  destruct Hdealt as [Hlen Hcount].
  apply ApplyActions_frame in Hrun as (_ & F2 & F3 & t & F4);
    [| congruence].
  unfold OriginalDeal in H. cbv zeta in H. bind_ok H. bind_ok H.
  unfold OriginalDeal_dealt in E0.
  apply OriginalDeal_loop in E0 as [_ Hrd].
  rewrite take_left_over_all in H by (rewrite F3; exact Hleft).
  apply add_cards_spec in H as (_ & _ & Hadd).
  rewrite Hadd, Hrd, rd2_replicate, F2, F3, Hcount. unfold dealt_count.
  rewrite Z.add_0_l. f_equal. f_equal. f_equal.
  apply filter_ext_elem. intros i Hi%elem_of_seqZ. unfold kNumDealt in *.
  rewrite F4, rank_dealt_app by lia.
  assert (0 <= first_player_ s0).
  { rewrite Hfp. apply Z.rem_nonneg; unfold kNumPlayers; lia. }
  unfold seat, kNumPlayers in Hp.
  rewrite (rem3_shift (i - 1) (first_player_ s0) p) by lia. reflexivity.
Qed.

(** ** The length of the auction *)

Lemma auction_run_stops (s s' : GITCGState) (acts : list Z) :
  auction_run s acts s' -> phase_ s <> kAuction -> acts = [].
Proof. intros [| ] Hph; [reflexivity | contradiction]. Qed.

Lemma auction_run_bound (s s' : GITCGState) (acts : list Z) :
  1 <= kNumBids ->
  auction_run s acts s' ->
  0 <= num_passes_ s -> 0 <= winning_bid_ s ->
  (winning_bid_ s = 0 -> num_passes_ s <= 2) ->
  (winning_bid_ s > 0 -> num_passes_ s <= 1 /\ winning_bid_ s < kNumBids) ->
  Z.of_nat (length acts) <=
    if decide (winning_bid_ s = 0) then 2 * kNumBids + 1 - num_passes_ s
    else 2 * (kNumBids - winning_bid_ s) - num_passes_ s.
Proof.
  intros HK Hrun.
  induction Hrun as [s | s s1 s' act acts Hph Hlegal Hstep Hrun IH];
    intros Hnp Hwb Hnobid Hbid.
  - simpl. destruct (decide (winning_bid_ s = 0)); lia.
  - unfold ApplyAction, DoApplyAction in Hstep. rewrite Hph in Hstep.
    bind_ok Hstep. injection Hstep as <-. st_simpl.
    assert (Hone : phase_ a <> kAuction ->
              Z.of_nat (length (act :: acts)) <= 1).
    { intros Hp. rewrite (auction_run_stops _ _ _ Hrun); [simpl; lia |].
      st_simpl. exact Hp. }
    assert (Hconclude : forall s0 : GITCGState,
              conclude_auction s0 = Ok a -> phase_ a <> kAuction).
    { intros s0 (holds' & _ & ->)%conclude_auction_explicit. st_simpl.
      discriminate. }
    rewrite length_cons, Nat2Z.inj_succ in *.
    destruct (decide (act = kPass)) as [-> | Hact].
    + rewrite ApplyBiddingAction_pass in E. cbv zeta in E.
      destruct (decide (num_passes_ s + 1 = 3)) as [H3 | H3].
      * injection E as <-. unfold next_player in *. st_simpl.
        specialize (Hone ltac:(discriminate)).
        destruct (decide (winning_bid_ s = 0)); lia.
      * destruct (decide (num_passes_ s + 1 = 2 /\ winning_bid_ s > 0))
          as [H2 | H2].
        -- specialize (Hone (Hconclude _ E)). destruct (decide (winning_bid_ s = 0)); lia.
        -- injection E as <-. unfold next_player in *. st_simpl.
           specialize (IH ltac:(lia) ltac:(lia) ltac:(lia) ltac:(lia)).
           destruct (decide (winning_bid_ s = 0)); lia.
    + rewrite ApplyBiddingAction_bid in E by assumption. cbv zeta in E.
      apply BiddingLegalActions_spec in Hlegal as [-> | (v & Hv & ->)];
        [contradiction |].
      replace (kBiddingActionBase + v - kBiddingActionBase) with v in E
        by lia.
      destruct (decide (v = kNumBids)) as [Hv' | Hv'].
      * specialize (Hone (Hconclude _ E)). destruct (decide (winning_bid_ s = 0)); lia.
      * injection E as <-. unfold next_player in *. st_simpl.
        specialize (IH ltac:(lia) ltac:(lia) ltac:(lia) ltac:(lia)).
        rewrite decide_False in IH by lia. destruct (decide (winning_bid_ s = 0)); lia.
Qed.

(** X14.  The auction is short.  From a reachable state of the auction, no
    sequence of legal auction actions is longer than twice the number of
    bid levels still open, plus one while nobody has bid, less the passes
    already counted; from the start of the auction that is at most
    [2 * kNumBids + 1] actions. *)
Theorem auction_is_short (s s' : GITCGState) (acts : list Z) :
  header_ok -> 1 <= kNumBids ->
  reachable s -> phase_ s = kAuction ->
  auction_run s acts s' ->
  Z.of_nat (length acts) <=
    (if decide (winning_bid_ s = 0) then 2 * kNumBids + 1 - num_passes_ s
     else 2 * (kNumBids - winning_bid_ s) - num_passes_ s) /\
  Z.of_nat (length acts) <= 2 * kNumBids + 1.
Proof.
  intros Hok HK Hreach Hph Hrun.
  destruct (reachable_inv_more s Hok Hreach) as (_ & _ & Hturn & _).
  unfold inv_turn in Hturn. rewrite Hph in Hturn.
  destruct Hturn as (Hnp & Hwb & Hnobid & Hbid & _).
  pose proof (auction_run_bound s s' acts HK Hrun Hnp Hwb
                ltac:(intros Hz; apply Hnobid, Hz) Hbid) as Hb.
  split; [exact Hb |]. destruct (decide _); lia.
Qed.

(** ** The seats of the play phase *)

Lemma Forall_rd (l : list Z) :
  (forall i, 0 <= rd l i) -> Forall (fun x => 0 <= x) l.
Proof.
  intros H. apply Forall_lookup. intros n x Hx.
  specialize (H (Z.of_nat n)).
  rewrite (rd_Ok l (Z.of_nat n) x) in H; [exact H |].
  apply arr_get_Ok. split; [lia |]. rewrite Nat2Z.id. exact Hx.
Qed.

(** The hand [PlayLegalActions] searches, in a reachable state. *)
Lemma searched_hand (s : GITCGState) (hand : list Z) :
  shaped s -> hands_nonneg s ->
  arr_get (holds_ s) (current_player_ s) = Ok hand ->
  length hand = Z.to_nat kNumRanks /\ Forall (fun x => 0 <= x) hand /\
  forall r, rd2 (holds_ s) (current_player_ s) r = rd hand r.
Proof.
  intros Hsh Hnn Hhand.
  pose proof (shape_row _ _ _ _ _ (shaped_holds _ Hsh) Hhand) as Hlen.
  assert (Hrd : forall r, rd2 (holds_ s) (current_player_ s) r = rd hand r)
    by (intros r; apply rd2_Ok, Hhand).
  split; [exact Hlen |]. split; [| exact Hrd].
  apply Forall_rd. intros i. rewrite <- Hrd. apply Hnn.
Qed.

Lemma legal_play (s : GITCGState) (act : Z) :
  search_sound -> shaped s -> hands_nonneg s -> phase_ s = kPlay ->
  legal s act ->
  exists hand trick,
    arr_get (holds_ s) (current_player_ s) = Ok hand /\
    CurrentTrick s = Ok trick /\
    (act = kPass /\ new_trick_begin_ s = false \/
     act <> kPass /\
     length (ActionToHand act) = Z.to_nat kNumRanks /\
     forall r, 0 <= r < kNumRanks ->
       rd (ActionToHand act) r <= rd2 (holds_ s) (current_player_ s) r).
Proof.
  intros Hsound Hsh Hnn Hph (l & Hl & Hact).
  unfold LegalActions in Hl. rewrite Hph in Hl.
  unfold PlayLegalActions in Hl. cbv zeta in Hl.
  bind_ok Hl. bind_ok Hl. injection Hl as <-.
  rewrite merge_sort_Permutation in Hact.
  exists a, a0. split; [reflexivity |]. split; [reflexivity |].
  destruct (searched_hand s a Hsh Hnn E) as (Hlen & Hpos & Hrd).
  apply elem_of_app in Hact as [Hact | Hact].
  - destruct (new_trick_begin_ s); [inversion Hact |].
    apply list_elem_of_singleton in Hact. left. tauto.
  - destruct (Hsound _ _ _ Hlen Hpos Hact) as (Hnp & Hlen' & Hcov).
    right. split; [exact Hnp |]. split; [exact Hlen' |].
    intros r Hr. rewrite Hrd. apply Hcov, Hr.
Qed.

Lemma inv_seats_step (s s' : GITCGState) (act : Z) :
  header_ok -> search_sound ->
  inv s -> inv_more s -> inv_seats s -> legal s act ->
  ApplyAction s act = Ok s' -> inv_seats s'.
Proof.
  intros Hok Hsound [Hsh Hinv] (Hnn & _) Hseats Hlegal H.
  unfold ApplyAction in H. bind_ok H. injection H as <-.
  unfold inv_seats in *. st_simpl. unfold DoApplyAction in E.
  destruct (phase_ s) eqn:Hph.
  - (* the deal *)
    destruct (decide (card_face_up_position_ s = -1)) as [Hup | Hup].
    + unfold ApplyDealAction in E. rewrite decide_True in E by assumption.
      injection E as <-. st_simpl. rewrite Hph. exact I.
    + apply ApplyDealAction_card in E
        as (first & holds' & deck' & _ & _ & _ & E); [| assumption].
      cbv zeta in E. destruct (decide (_ = kNumCards - kNumCardsLeftOver)).
      * destruct E as [_ ->]. st_simpl. exact I.
      * subst a. destruct (decide _); st_simpl; rewrite Hph; exact I.
  - (* the auction *)
    destruct Hinv as (Hdealt & _ & (_ & Htr & Htp & _) & Hcur & Hdz).
    assert (Hconclude : forall s0 : GITCGState,
              tricks_ s0 = [] -> trick_played_ s0 = 0 -> seat (dizhu_ s0) ->
              conclude_auction s0 = Ok a ->
              match phase_ a with
              | kPlay =>
                  seat (current_player_ a) /\ seat (dizhu_ a) /\
                  0 <= trick_played_ a /\
                  Z.of_nat (length (tricks_ a)) = trick_played_ a + 1 /\
                  (new_trick_begin_ a = false ->
                   exists trick,
                     arr_get (tricks_ a) (trick_played_ a) = Ok trick /\
                     seat (Winner trick))
              | _ => True
              end).
    { intros s0 H1 H2 H3 (holds' & _ & ->)%conclude_auction_explicit.
      st_simpl. rewrite H1, H2. simpl.
      repeat split; try apply H3; try lia. }
    destruct (decide (act = kPass)) as [-> | Hact].
    + rewrite ApplyBiddingAction_pass in E. cbv zeta in E.
      unfold next_player in E.
      destruct (decide (num_passes_ s + 1 = 3)).
      * injection E as <-. st_simpl. exact I.
      * destruct (decide (_ /\ _)) as [[_ Hwb] | _].
        -- eapply Hconclude; [.. | exact E]; st_simpl; auto.
        -- injection E as <-. st_simpl. rewrite Hph. exact I.
    + rewrite ApplyBiddingAction_bid in E by assumption. cbv zeta in E.
      unfold next_player in E. destruct (decide (_ = kNumBids)).
      * eapply Hconclude; [.. | exact E]; st_simpl; auto.
      * injection E as <-. st_simpl. rewrite Hph. exact I.
  - (* the play phase *)
    destruct Hseats as (Hcur & Hdz & Htp & Hlen & Hopen).
    destruct (legal_play s act Hsound Hsh Hnn Hph Hlegal)
      as (hand & trick & _ & Htrick & [[-> Hntb] | (Hact & _)]).
    + rewrite ApplyPlayAction_pass in E. cbv zeta in E.
      unfold next_player in E.
      destruct (Hopen Hntb) as (trick' & Htrick' & Hwin).
      destruct (decide (num_passes_ s + 1 = 2)).
      * rewrite Htrick' in E. cbn [bind] in E. injection E as <-. st_simpl.
        rewrite Hph. split; [exact Hwin |]. split; [exact Hdz |].
        split; [lia |]. rewrite length_app. simpl length.
        split; [lia |]. discriminate.
      * injection E as <-. st_simpl. rewrite Hph.
        split; [apply rem3_seat; unfold seat in Hcur; lia |].
        repeat split; try assumption; try apply Hdz. 
    + apply ApplyPlayAction_play in E
        as (played & trick0 & tricks' & s2 & all & _ & Htrick0 & Hset &
            Hafter & Hend); [| assumption].
      cbv zeta in Hafter.
      apply AfterPlayHand_frame in Hafter as (holds' & played' & -> & _).
      destruct all.
      * destruct Hend as (s3 & Hscore & ->). st_simpl. exact I.
      * subst a. unfold next_player. st_simpl. rewrite Hph.
        split; [apply rem3_seat; unfold seat in Hcur; lia |].
        split; [exact Hdz |]. split; [exact Htp |].
        split; [rewrite (arr_set_length _ _ _ _ Hset); exact Hlen |].
        intros _. exists (Trick_Play trick0 (current_player_ s) act).
        split; [| exact Hcur]. unfold CurrentTrick. st_simpl.
        apply arr_set_Ok in Hset as (x & [Hi Hx]%arr_get_Ok & ->).
        apply arr_get_Ok. split; [exact Hi |].
        apply list_lookup_insert_eq. eapply lookup_lt_Some, Hx.
  - discriminate.
Qed.

Lemma reachable_inv_seats (s : GITCGState) :
  header_ok -> search_sound -> reachable s -> inv_seats s.
Proof.
  intros Hok Hsound. induction 1 as [| s s' act Hreach IH Hlegal Hstep].
  - exact I.
  - eapply inv_seats_step; eauto using reachable_inv, reachable_inv_more.
Qed.

(** X9.  When [SearchForLegalActions] is sound, in every reachable state
    of the auction or of the play phase the player to act is one of the
    three seats; in the play phase the landlord is a seat too and the open
    trick exists; and the legal actions are computed without a failure in
    every reachable state. *)
Theorem acting_player_is_a_seat (s : GITCGState) :
  header_ok -> search_sound -> reachable s ->
  (phase_ s = kAuction \/ phase_ s = kPlay -> seat (CurrentPlayer s)) /\
  (phase_ s = kPlay ->
   seat (dizhu_ s) /\ exists trick, CurrentTrick s = Ok trick) /\
  exists l, LegalActions s = Ok l.
Proof.
  intros Hok Hsound Hreach.
  pose proof (reachable_inv s Hok Hreach) as [Hsh Hinv].
  pose proof (reachable_inv_seats s Hok Hsound Hreach) as Hseats.
  unfold inv_seats, CurrentPlayer, LegalActions in *.
  destruct (phase_ s) eqn:Hph.
  - split; [intros [? | ?]; discriminate |].
    split; [discriminate | eexists; reflexivity].
  - destruct Hinv as (_ & _ & _ & Hcur & _).
    split; [intros _; exact Hcur |].
    split; [discriminate | eexists; reflexivity].
  - destruct Hseats as (Hcur & Hdz & Htp & Hlen & _).
    destruct (arr_get_in_range (tricks_ s) (trick_played_ s)) as [trick Ht];
      [lia |].
    destruct (arr_get_in_range (holds_ s) (current_player_ s))
      as [hand Hhand].
    { rewrite (shape_length _ _ _ (shaped_holds _ Hsh)).
      unfold seat in Hcur. lia. }
    split; [intros _; exact Hcur |]. split.
    + intros _. split; [exact Hdz |]. exists trick. exact Ht.
    + unfold PlayLegalActions, CurrentTrick. rewrite Hhand, Ht.
      eexists. reflexivity.
  - split; [intros [? | ?]; discriminate |].
    split; [discriminate | eexists; reflexivity].
Qed.

Lemma deal_card_Ok (s : GITCGState) (card : Z) :
  header_ok -> kDealingActionBase <= kNumCards - kNumCardsLeftOver ->
  inv s -> inv_more s -> phase_ s = kDeal ->
  card_face_up_position_ s <> -1 ->
  0 <= card < kNumCards ->
  exists s', ApplyDealAction s (card + kDealingActionBase) = Ok s'.
Proof.
  intros Hok Hbase [Hsh Hinv] (_ & Hfirst & _) Hph Hup Hcard.
  destruct Hok as (HN & HP & Hrank).
  rewrite Hph in Hinv. destruct Hinv as (_ & _ & _ & _ & _ & Hhist).
  rewrite decide_False in Hhist by assumption. destruct Hhist as [Hh _].
  unfold inv_first in Hfirst. rewrite Hph in Hfirst.
  rewrite decide_False in Hfirst by assumption.
  destruct Hfirst as [([Hpos Hpos'] & first & Hget & Hact) Hknown].
  assert (1 <= Z.of_nat (length (history_ s))) as Hlen.
  { destruct (history_ s); [contradiction | simpl; lia]. }
  unfold ApplyDealAction. rewrite decide_False by assumption. cbv zeta.
  rewrite Hget. cbn [bind].
  replace (card + kDealingActionBase - kDealingActionBase) with card by lia.
  set (size := Z.of_nat (length (history_ s))) in *.
  set (s1 := if decide (size - 1 = action first) then _ else s).
  assert (Hs1 : holds_ s1 = holds_ s /\ dealer_deck_ s1 = dealer_deck_ s /\
                (size = kNumCards - kNumCardsLeftOver ->
                 0 <= first_player_ s1 < kNumPlayers)).
  { subst s1. destruct (decide (size - 1 = action first)) as [Hd | Hd];
      st_simpl; (split; [reflexivity |]); (split; [reflexivity |]);
      intros Hend.
    - apply rem3_seat. lia.
    - destruct Hknown as [[_ Hle] | [Hfp _]]; [lia |].
      rewrite Hfp. apply rem3_seat. lia. }
  destruct Hs1 as (E1 & E2 & Hfp). clearbody s1.
  destruct (arr2_upd_in_range (holds_ s) (Z.rem (size - 1) kNumPlayers)
              (CardToRank card) Z.succ (Z.to_nat kNumRanks))
    as [holds' Hholds].
  { eapply shape_Forall, (shaped_holds _ Hsh). }
  { rewrite (shape_length _ _ _ (shaped_holds _ Hsh)).
    pose proof (rem3_seat (size - 1) ltac:(lia)) as Hs. unfold seat in Hs.
    lia. }
  { specialize (Hrank card Hcard). lia. }
  destruct (arr_upd_in_range (dealer_deck_ s) card Z.pred) as [deck' Hdeck].
  { rewrite (shaped_deck _ Hsh). lia. }
  rewrite E1, Hholds. cbn [bind]. st_simpl. rewrite E2, Hdeck. cbn [bind].
  destruct (decide (size = kNumCards - kNumCardsLeftOver)) as [Hend | Hend];
    [| eexists; reflexivity].
  st_simpl. specialize (Hfp Hend). unfold kNumPlayers in *.
  rewrite !bool_decide_eq_true_2 by lia. cbn [SPIEL_CHECK bind].
  eexists. reflexivity.
Qed.

(** X10.  Legal actions never fail.  When the positions offered for the
    face-up card all lie within the deal and [SearchForLegalActions] is
    sound, every legal action of every reachable state is applied without
    a fatal error, a failed check or an index out of range, and leads to a
    reachable state. *)
Theorem legal_actions_always_apply (s : GITCGState) (act : Z) :
  header_ok -> kDealingActionBase <= kNumCards - kNumCardsLeftOver ->
  search_sound ->
  reachable s -> legal s act ->
  exists s', ApplyAction s act = Ok s' /\ reachable s'.
Proof.
  intros Hok Hbase Hsound Hreach Hlegal.
  pose proof (reachable_inv s Hok Hreach) as Hinv.
  pose proof (reachable_inv_more s Hok Hreach) as Hmore.
  pose proof (reachable_inv_seats s Hok Hsound Hreach) as Hseats.
  assert (exists s1, DoApplyAction s act = Ok s1) as [s1 Hs1].
  { pose proof Hinv as [Hsh Hinv'].
    unfold DoApplyAction. unfold inv_seats in Hseats.
    destruct (phase_ s) eqn:Hph.
    - (* the deal *)
      destruct Hlegal as (l & Hl & Hact). unfold LegalActions in Hl.
      rewrite Hph in Hl. injection Hl as <-. unfold DealLegalActions in Hact.
      destruct (decide (card_face_up_position_ s = -1)) as [Hup | Hup].
      + unfold ApplyDealAction. rewrite decide_True by assumption.
        eexists. reflexivity.
      + apply list_elem_of_fmap in Hact as (card & -> & Hcard).
        apply list_elem_of_filter in Hcard as [_ Hcard%elem_of_seqZ].
        apply deal_card_Ok; try assumption.
    - (* the auction *)
      destruct Hinv' as (Hdealt & _ & _ & Hcur & Hdz).
      destruct (decide (act = kPass)) as [-> | Hact].
      + rewrite ApplyBiddingAction_pass. cbv zeta.
        destruct (decide (num_passes_ s + 1 = 3)); [eexists; reflexivity |].
        destruct (decide (_ /\ _)) as [[_ Hwb] | _]; [| eexists; reflexivity].
        apply conclude_auction_Ok.
        * destruct Hsh. constructor; assumption.
        * exact Hdealt.
        * apply Hdz, Hwb.
      + rewrite ApplyBiddingAction_bid by assumption. cbv zeta.
        destruct (decide (_ = kNumBids)); [| eexists; reflexivity].
        apply conclude_auction_Ok.
        * destruct Hsh. constructor; assumption.
        * exact Hdealt.
        * exact Hcur.
    - (* the play phase *)
      destruct Hmore as (Hnn & _).
      destruct Hseats as (Hcur & Hdz & Htp & Hlen & Hopen).
      destruct (legal_play s act Hsound Hsh Hnn Hph Hlegal)
        as (hand & trick & Hhand & Htrick &
            [[-> Hntb] | (Hact & Hused & Hcov)]).
      + rewrite ApplyPlayAction_pass. cbv zeta. rewrite Htrick.
        destruct (decide _); eexists; reflexivity.
      + rewrite ApplyPlayAction_play_eq by assumption.
        destruct (arr_upd_in_range (players_hands_played s)
                    (current_player_ s) Z.succ) as [played Hplayed].
        { rewrite (shaped_hands_played _ Hsh). unfold seat in Hcur. lia. }
        rewrite Hplayed. cbn [bind]. rewrite Htrick. cbn [bind].
        destruct (arr_set_in_range (tricks_ s) (trick_played_ s)
                    (Trick_Play trick (current_player_ s) act))
          as [tricks' Hset].
        { eapply arr_get_length, Htrick. }
        rewrite Hset. cbn [bind]. cbv zeta.
        match goal with |- context [AfterPlayHand ?s1 _ _] => set (st := s1)
        end.
        pose proof (AfterPlayHand_loop_run (current_player_ s)
                      (ActionToHand act) (seqZ 0 kNumRanks) (NoDup_seqZ _ _)
                      Hcur Hused) as Hrun.
        specialize (Hrun ltac:(intros x Hx%elem_of_seqZ; lia) st true
                      (shaped_holds _ Hsh) (shaped_played _ Hsh)).
        rewrite decide_True in Hrun.
        2:{ apply Forall_forall. intros r Hr%elem_of_seqZ. subst st.
            st_simpl. apply Hcov. lia. }
        destruct Hrun as [[s2 all] Hrun]. unfold AfterPlayHand.
        rewrite Hrun. cbn [bind].
        destruct all; [| eexists; reflexivity].
        apply AfterPlayHand_frame in Hrun as (holds' & played' & Hs2 & _).
        destruct (ScoreUp_Ok (set_final_winner_ (current_player_ s2) s2))
          as [s3 Hs3].
        * right. subst s2 st. st_simpl. exact Hdz.
        * subst s2 st. st_simpl.
          rewrite (arr_upd_length _ _ _ _ Hplayed).
          apply (shaped_hands_played _ Hsh).
        * subst s2 st. st_simpl. apply (shaped_returns _ Hsh).
        * rewrite Hs3. eexists. reflexivity.
    - (* the game is over *)
      destruct Hlegal as (l & Hl & Hact). unfold LegalActions in Hl.
      rewrite Hph in Hl. injection Hl as <-. inversion Hact. }
  unfold ApplyAction. rewrite Hs1. cbn [bind]. eexists.
  split; [reflexivity |].
  eapply reachable_step; [exact Hreach | exact Hlegal |].
  unfold ApplyAction. rewrite Hs1. reflexivity.
Qed.

(** ** The counters of the play phase *)

(** X19.  Every action applied in the play phase is counted in
    [num_played_], and [bombs_played_], which settles how often the stake
    is doubled, goes up by one exactly for the plays whose id is in the
    band of the bombs and the rocket; the landlord and the winning bid are
    left as the auction set them. *)
Theorem play_counters (s s' : GITCGState) (act : Z) :
  phase_ s = kPlay ->
  DoApplyAction s act = Ok s' ->
  num_played_ s' = num_played_ s + 1 /\
  bombs_played_ s' =
    bombs_played_ s +
    (if decide (act <> kPass /\ act >= kBombActionBase) then 1 else 0) /\
  dizhu_ s' = dizhu_ s /\
  winning_bid_ s' = winning_bid_ s.
Proof.
  intros Hph H. unfold DoApplyAction in H. rewrite Hph in H.
  destruct (decide (act = kPass)) as [-> | Hact].
  - rewrite decide_False by tauto.
    rewrite ApplyPlayAction_pass in H. cbv zeta in H. unfold next_player in H.
    destruct (decide _); [bind_ok H |]; injection H as <-; st_simpl;
      repeat split; lia.
  - apply ApplyPlayAction_play in H
      as (played & trick & tricks' & s2 & all & _ & _ & _ & Hafter & Hend);
      [| assumption].
    cbv zeta in Hafter.
    apply AfterPlayHand_frame in Hafter as (holds' & played' & -> & _).
    assert (Hb : (if decide (act >= kBombActionBase) then bombs_played_ s + 1
                  else bombs_played_ s)
                 = bombs_played_ s +
                   (if decide (act <> kPass /\ act >= kBombActionBase) then 1
                    else 0)).
    { destruct (decide (act >= kBombActionBase)).
      - rewrite decide_True by tauto. reflexivity.
      - rewrite decide_False by tauto. lia. }
    destruct all.
    + destruct Hend as (s3 & Hscore & ->).
      apply ScoreUp_frame in Hscore as (rt & -> & _). st_simpl.
      rewrite Hb. repeat split.
    + subst s'. unfold next_player. st_simpl. rewrite Hb. repeat split.
Qed.

(** ** The observation tensor *)

(** Setting the slots [idx] of [values] to 1, one after the other. *)
Lemma writes_spec (idx : list Z) :
  forall values : list Z,
    for_each idx (fun i v => arr_set v i 1) values =
      if decide (Forall (fun i => 0 <= i < Z.of_nat (length values)) idx)
      then Ok (foldl (fun v i => <[Z.to_nat i := 1]> v) values idx)
      else Err OutOfRange.
Proof.
  induction idx as [| i idx IH]; intros values.
  - rewrite decide_True by constructor. reflexivity.
  - cbn [for_each]. unfold arr_set at 1. unfold arr_get.
    destruct (decide (0 <= i)) as [Hi | Hi].
    + destruct (values !! Z.to_nat i) as [x |] eqn:Hx; cbn [bind].
      * rewrite IH, length_insert. apply lookup_lt_Some in Hx.
        destruct (decide (Forall _ idx)) as [Hall | Hall].
        -- rewrite decide_True; [reflexivity |]. constructor; [lia | exact Hall].
        -- rewrite decide_False; [reflexivity |].
           intros Hc. inversion Hc. contradiction.
      * apply lookup_ge_None in Hx. rewrite decide_False; [reflexivity |].
        intros Hc. inversion Hc. lia.
    + cbn [bind]. rewrite decide_False; [reflexivity |].
      intros Hc. inversion Hc. lia.
Qed.

Lemma writes_foldl_Permutation (l1 l2 : list Z) :
  l1 ≡ₚ l2 ->
  forall values : list Z,
    foldl (fun v i => <[Z.to_nat i := 1]> v) values l1
    = foldl (fun v i => <[Z.to_nat i := 1]> v) values l2.
Proof.
  induction 1 as [| x l1 l2 _ IH | x y l | l1 l2 l3 _ IH1 _ IH2];
    intros values.
  - reflexivity.
  - simpl. apply IH.
  - simpl. f_equal. destruct (decide (Z.to_nat x = Z.to_nat y)) as [-> | Hne].
    + reflexivity.
    + apply list_insert_insert_ne. congruence.
  - rewrite IH1. apply IH2.
Qed.

Lemma writes_Permutation (l1 l2 : list Z) (values : list Z) :
  l1 ≡ₚ l2 ->
  for_each l1 (fun i v => arr_set v i 1) values
  = for_each l2 (fun i v => arr_set v i 1) values.
Proof.
  intros Hp. rewrite !writes_spec.
  destruct (decide (Forall _ l1)) as [H1 | H1].
  - rewrite decide_True by (rewrite <- Hp; exact H1).
    f_equal. apply writes_foldl_Permutation, Hp.
  - rewrite decide_False; [reflexivity |]. rewrite <- Hp. exact H1.
Qed.

Lemma for_each_app {St : Type} (l1 l2 : list Z)
  (body : Z -> St -> result St) (s : St) :
  for_each (l1 ++ l2) body s = do s' <- for_each l1 body s; for_each l2 body s'.
Proof.
  revert s. induction l1 as [| i l1 IH]; intros s; [reflexivity |].
  cbn [app for_each]. destruct (body i s) as [s1 | e]; cbn [bind];
    [apply IH | reflexivity].
Qed.

(** The loop of [WriteObservationTensor] over the ranks [idx], when the
    hand and the ledger have an entry for each of them, sets the slot of
    the count held and the slot of the count played of every rank. *)
Lemma tensor_loop (kNumSuits base : Z) (holds : list (list Z))
  (hand played : list Z) (p : Z) (idx : list Z) :
  arr_get holds p = Ok hand ->
  (forall i, i ∈ idx ->
     0 <= i < Z.of_nat (length hand) /\ 0 <= i < Z.of_nat (length played)) ->
  forall values : list Z,
    for_each idx
      (fun i values =>
         do hand <- arr_get holds p;
         do held <- arr_get hand i;
         do values <- arr_set values (i * (kNumSuits + 1) + held) 1;
         do played <- arr_get played i;
         arr_set values (base + i * (kNumSuits + 1) + played) 1)
      values
    = for_each
        (mjoin ((fun i => [i * (kNumSuits + 1) + rd hand i;
                           base + i * (kNumSuits + 1) + rd played i])
                  <$> idx))
        (fun i v => arr_set v i 1) values.
Proof.
  intros Hhand. induction idx as [| i idx IH]; intros Hidx values;
    [reflexivity |].
  cbn [for_each fmap list_fmap mjoin list_join app].
  destruct (Hidx i ltac:(apply elem_of_cons; tauto)) as [Hh Hp].
  destruct (arr_get_in_range hand i Hh) as [held Hheld].
  destruct (arr_get_in_range played i Hp) as [pl Hpl].
  rewrite Hhand at 1. cbn [bind]. rewrite Hheld. cbn [bind].
  rewrite (rd_Ok _ _ _ Hheld), (rd_Ok _ _ _ Hpl).
  destruct (arr_set values _ 1) as [v1 | e]; cbn [bind]; [| reflexivity].
  rewrite Hpl. cbn [bind].
  destruct (arr_set v1 _ 1) as [v2 | e]; cbn [bind]; [| reflexivity].
  apply IH. intros j Hj. apply Hidx, elem_of_cons. tauto.
Qed.

(** X17.  The observation tensor does not tell apart the cards of the last
    rank in the hand and the cards of the first rank that have been
    played.  The slots of the hand are laid out [kNumSuits + 1] apart for
    every rank, the last two included, while the ledger of played cards
    starts at [(kNumRanks - 2) * (kNumSuits + 1) + 4]: the slot of holding
    [c] cards of the last rank is the slot of [c + kNumSuits - 3] played
    cards of the first rank.  Two states that differ only by exchanging
    these two counts are written to the same tensor. *)
Theorem tensor_confuses_last_rank_held_with_first_rank_played
  (kNumSuits : Z) (sA sB : GITCGState) (p : Z) (handA handB values : list Z) :
  2 <= kNumRanks ->
  phase_ sA = phase_ sB -> dizhu_ sA = dizhu_ sB ->
  first_player_ sA = first_player_ sB ->
  card_rank_face_up_ sA = card_rank_face_up_ sB ->
  arr_get (holds_ sA) p = Ok handA -> arr_get (holds_ sB) p = Ok handB ->
  length handA = Z.to_nat kNumRanks -> length handB = Z.to_nat kNumRanks ->
  length (played_deck_ sA) = Z.to_nat kNumRanks ->
  length (played_deck_ sB) = Z.to_nat kNumRanks ->
  (forall i, 0 <= i < kNumRanks - 1 -> rd handA i = rd handB i) ->
  (forall i, 1 <= i < kNumRanks ->
     rd (played_deck_ sA) i = rd (played_deck_ sB) i) ->
  rd (played_deck_ sA) 0 = rd handB (kNumRanks - 1) + kNumSuits - 3 ->
  rd (played_deck_ sB) 0 = rd handA (kNumRanks - 1) + kNumSuits - 3 ->
  WriteObservationTensor kNumSuits sA p values
  = WriteObservationTensor kNumSuits sB p values.
Proof.
  intros HR Hph Hdz Hfp Hrk HhA HhB HlA HlB HpA HpB Hhand Hplayed HA0 HB0.
  unfold WriteObservationTensor. cbv zeta.
  rewrite Hph, Hdz, Hfp, Hrk.
  destruct (SPIEL_CHECK (bool_decide (p >= 0))); [| reflexivity].
  cbn [bind].
  destruct (SPIEL_CHECK (bool_decide (p < kNumPlayers))); [| reflexivity].
  cbn [bind]. destruct (decide (phase_ sB = kDeal)); [reflexivity |].
  rewrite (tensor_loop _ _ _ handA (played_deck_ sA) _ _ HhA)
    by (intros i Hi%elem_of_seqZ; lia).
  rewrite (tensor_loop _ _ _ handB (played_deck_ sB) _ _ HhB)
    by (intros i Hi%elem_of_seqZ; lia).
  match goal with
  | |- bind ?a _ = bind ?b _ => assert (a = b) as ->; [| reflexivity]
  end.
  apply writes_Permutation.
  assert (Hseq : seqZ 0 kNumRanks
                 = [0] ++ seqZ 1 (kNumRanks - 2) ++ [kNumRanks - 1]).
  { replace kNumRanks with (1 + ((kNumRanks - 2) + 1)) at 1 by lia.
    rewrite seqZ_app by lia. rewrite (seqZ_app 1) by lia.
    replace (0 + 1) with 1 by lia.
    replace (1 + (kNumRanks - 2)) with (kNumRanks - 1) by lia.
    reflexivity. }
  rewrite Hseq, !fmap_app, !join_app.
  cbn [fmap list_fmap mjoin list_join app].
  assert (Hmid :
    (fun i => [i * (kNumSuits + 1) + rd handA i;
               (kNumRanks - 2) * (kNumSuits + 1) + 2 * 2
               + i * (kNumSuits + 1) + rd (played_deck_ sA) i])
      <$> seqZ 1 (kNumRanks - 2)
    = (fun i => [i * (kNumSuits + 1) + rd handB i;
                 (kNumRanks - 2) * (kNumSuits + 1) + 2 * 2
                 + i * (kNumSuits + 1) + rd (played_deck_ sB) i])
        <$> seqZ 1 (kNumRanks - 2)).
  { apply list_fmap_ext. intros k i Hi. apply lookup_seqZ in Hi as [-> Hi].
    rewrite Hhand, Hplayed by lia. reflexivity. }
  rewrite Hmid, HA0, HB0.
  rewrite (Hhand 0) by lia. rewrite (Hplayed (kNumRanks - 1)) by lia.
  set (M := mjoin _).
  replace ((kNumRanks - 2) * (kNumSuits + 1) + 2 * 2 + 0 * (kNumSuits + 1)
           + (rd handB (kNumRanks - 1) + kNumSuits - 3))
    with ((kNumRanks - 1) * (kNumSuits + 1) + rd handB (kNumRanks - 1))
    by lia.
  replace ((kNumRanks - 2) * (kNumSuits + 1) + 2 * 2 + 0 * (kNumSuits + 1)
           + (rd handA (kNumRanks - 1) + kNumSuits - 3))
    with ((kNumRanks - 1) * (kNumSuits + 1) + rd handA (kNumRanks - 1))
    by lia.
  solve_Permutation.
Qed.

(** ** The landlord of an auction *)

Lemma auction_run_monotone (s s' : GITCGState) (acts : list Z) :
  auction_run s acts s' -> winning_bid_ s <= winning_bid_ s'.
Proof.
  induction 1 as [s | s s1 s' act acts Hph Hlegal Hstep Hrun IH]; [lia |].
  unfold ApplyAction, DoApplyAction in Hstep. rewrite Hph in Hstep.
  bind_ok Hstep. injection Hstep as <-. st_simpl.
  pose proof (bidding_step_bid _ _ _ Hlegal E) as Hbid.
  destruct (decide (act = kPass)); lia.
Qed.

(** X20.  The landlord of an auction is the seat that made its last bid,
    at the level of that bid, which no bid of the auction exceeds; as long
    as nobody bids, the landlord and the winning bid stay as they were. *)
Theorem landlord_made_the_last_bid (s s' : GITCGState) (acts : list Z) :
  auction_run s acts s' ->
  match last (bids_of s acts) with
  | Some (p, v) => dizhu_ s' = p /\ winning_bid_ s' = v
  | None => dizhu_ s' = dizhu_ s /\ winning_bid_ s' = winning_bid_ s
  end /\
  Forall (fun bid => snd bid <= winning_bid_ s') (bids_of s acts).
Proof.
  induction 1 as [s | s s1 s' act acts Hph Hlegal Hstep Hrun [IH IHall]].
  - split; [split; reflexivity | constructor].
  - cbn [bids_of]. rewrite Hstep. rewrite last_app.
    pose proof (auction_run_monotone _ _ _ Hrun) as Hmono.
    unfold ApplyAction, DoApplyAction in Hstep. rewrite Hph in Hstep.
    bind_ok Hstep. injection Hstep as <-. st_simpl.
    assert (Hhead : if decide (act = kPass) then
                      dizhu_ a = dizhu_ s /\ winning_bid_ a = winning_bid_ s
                    else
                      dizhu_ a = current_player_ s /\
                      winning_bid_ a = act - kBiddingActionBase).
    { destruct (decide (act = kPass)) as [-> | Hact].
      - rewrite ApplyBiddingAction_pass in E. cbv zeta in E.
        unfold next_player in E.
        destruct (decide (num_passes_ s + 1 = 3)).
        + injection E as <-. st_simpl. tauto.
        + destruct (decide (_ /\ _)).
          * apply conclude_auction_explicit in E as (holds' & _ & ->).
            st_simpl. tauto.
          * injection E as <-. st_simpl. tauto.
      - rewrite ApplyBiddingAction_bid in E by assumption. cbv zeta in E.
        unfold next_player in E. destruct (decide (_ = kNumBids)).
        + apply conclude_auction_explicit in E as (holds' & _ & ->).
          st_simpl. tauto.
        + injection E as <-. st_simpl. tauto. }
    split.
    + destruct (last (bids_of _ acts)) as [[p v] |]; [exact IH |].
      destruct IH as [IH1 IH2].
      destruct (decide (act = kPass)); simpl; destruct Hhead; split;
        congruence.
    + apply Forall_app. split; [| exact IHall].
      destruct (decide (act = kPass)); [constructor |].
      apply Forall_singleton. simpl. destruct Hhead as [_ <-]. exact Hmono.
Qed.

(** ** The sizes of the hands *)

Lemma dealt_to_nil (n p : Z) : n <= 0 -> dealt_to n p = 0.
Proof.
  intros Hn. unfold dealt_to. rewrite seqZ_nil by assumption. reflexivity.
Qed.

Lemma dealt_to_succ (n p : Z) :
  0 <= n ->
  dealt_to (n + 1) p
  = dealt_to n p + (if decide (Z.rem n kNumPlayers = p) then 1 else 0).
Proof.
  intros Hn. unfold dealt_to. rewrite seqZ_app by lia.
  rewrite filter_app, length_app, Nat2Z.inj_add. f_equal.
  change (seqZ (1 + n) 1) with [1 + n]. rewrite filter_cons, filter_nil.
  replace (1 + n - 1) with n by lia. destruct (decide _); reflexivity.
Qed.

(** The cards are dealt one by one to the seats in turn. *)
Lemma dealt_to_closed (n p : Z) :
  0 <= n -> 0 <= p < 3 -> dealt_to n p = (n + 2 - p) / 3.
Proof.
  intros Hn Hp. rewrite <- (Z2Nat.id n Hn). generalize (Z.to_nat n) as k.
  clear n Hn. induction k as [| k IH].
  - rewrite dealt_to_nil by reflexivity. simpl.
    symmetry. apply Z.div_small. lia.
  - rewrite Nat2Z.inj_succ, <- Z.add_1_r, dealt_to_succ, IH by lia.
    unfold kNumPlayers. rewrite Z.rem_mod_nonneg by lia.
    destruct (decide (Z.of_nat k mod 3 = p)); Z.div_mod_to_equations; lia.
Qed.

Lemma arr2_upd_hand (a a' : list (list Z)) (i j : Z) (f : Z -> Z) (p : Z) :
  arr2_upd a i j f = Ok a' ->
  match arr_get a' p with Ok hand => sumZ hand | Err _ => 0 end
  = match arr_get a p with Ok hand => sumZ hand | Err _ => 0 end
    + (if decide (p = i) then f (rd2 a i j) - rd2 a i j else 0).
Proof.
  intros H. pose proof H as (row & row' & Hrow & Hupd & ->)%arr2_upd_Ok.
  pose proof (arr_upd_sum _ _ _ _ Hupd) as Hsum.
  rewrite (rd2_Ok _ _ j _ Hrow).
  destruct (decide (p = i)) as [-> | Hne].
  - rewrite Hrow.
    assert (arr_get (<[Z.to_nat i := row']> a) i = Ok row') as ->; [| lia].
    apply arr_get_Ok in Hrow as [Hi Hrow]. apply arr_get_Ok.
    split; [exact Hi |]. apply list_lookup_insert_eq.
    eapply lookup_lt_Some, Hrow.
  - unfold arr_get. destruct (decide (0 <= p)); [| lia].
    apply arr_get_Ok in Hrow as [Hi _].
    rewrite list_lookup_insert_ne by lia. lia.
Qed.

Lemma inv_sizes_step (s s' : GITCGState) (act : Z) :
  inv s -> inv_sizes s -> legal s act ->
  ApplyAction s act = Ok s' -> inv_sizes s'.
Proof.
  intros [Hsh Hinv] Hsizes Hlegal H.
  unfold ApplyAction in H. bind_ok H. injection H as <-.
  unfold inv_sizes, hand_size in *. st_simpl. unfold DoApplyAction in E.
  destruct (phase_ s) eqn:Hph.
  - destruct Hinv as (_ & _ & _ & _ & _ & Hhist).
    destruct (decide (card_face_up_position_ s = -1)) as [Hup | Hup].
    + unfold ApplyDealAction in E. rewrite decide_True in E by assumption.
      injection E as <-. st_simpl. rewrite Hph. intros p.
      destruct Hhist as [Hh _]. rewrite Hh in *. rewrite Hsizes.
      simpl length. rewrite !dealt_to_nil by lia. reflexivity.
    + destruct Hhist as [Hh _].
      assert (1 <= Z.of_nat (length (history_ s))) as Hlen.
      { destruct (history_ s); [contradiction | simpl; lia]. }
      apply ApplyDealAction_card in E
        as (first & holds' & deck' & _ & Hholds & _ & E); [| assumption].
      cbv zeta in E.
      assert (Hnew : forall p,
                match arr_get holds' p with
                | Ok hand => sumZ hand
                | Err _ => 0
                end = dealt_to (Z.of_nat (length (history_ s))) p).
      { intros p. rewrite (arr2_upd_hand _ _ _ _ _ p Hholds), Hsizes.
        pose proof (dealt_to_succ (Z.of_nat (length (history_ s)) - 1) p
                      ltac:(lia)) as Hs.
        replace (Z.of_nat (length (history_ s)) - 1 + 1)
          with (Z.of_nat (length (history_ s))) in Hs by lia.
        rewrite Hs.
        destruct (decide (p = _)) as [-> | Hne].
        - rewrite decide_True by reflexivity. lia.
        - rewrite decide_False by congruence. lia. }
      destruct (decide (_ = kNumCards - kNumCardsLeftOver)) as [Hend | Hend].
      * destruct E as [_ ->]. st_simpl. intros p. unfold kNumDealt.
        rewrite <- Hend. apply Hnew.
      * subst a. st_simpl.
        assert (phase_
                  (if decide
                        (Z.of_nat (length (history_ s)) - 1 = action first)
                   then
                     set_card_rank_face_up_
                       (CardToRank (act - kDealingActionBase))
                       (set_first_player_
                          (Z.rem (Z.of_nat (length (history_ s)) - 1)
                             kNumPlayers) s)
                   else s) = kDeal) as ->
          by (destruct (decide _); st_simpl; exact Hph).
        intros p. rewrite length_app. simpl length.
        replace (Z.of_nat (length (history_ s) + 1) - 1)
          with (Z.of_nat (length (history_ s))) by lia.
        apply Hnew.
  - apply ApplyBiddingAction_frame in E
      as (_ & _ & _ & _ & _ & _ & _ & [E | [E | E]]).
    + destruct E as (-> & -> & _). rewrite Hph. exact Hsizes.
    + destruct E as [-> _]. exact I.
    + destruct E as [-> _]. exact I.
  - apply ApplyPlayAction_frame_more in E
      as (_ & _ & _ & _ & _ & _ & _ & _ & [[-> _] | ->]);
      [rewrite Hph |]; exact I.
  - discriminate.
Qed.

Lemma reachable_inv_sizes (s : GITCGState) :
  header_ok -> reachable s -> inv_sizes s.
Proof.
  intros Hok. induction 1 as [| s s' act Hreach IH Hlegal Hstep].
  - unfold inv_sizes, hand_size, NewInitialState. st_simpl. intros p.
    rewrite dealt_to_nil by (simpl; lia).
    unfold arr_get. destruct (decide (0 <= p)); [| reflexivity].
    destruct (replicate _ _ !! _) as [row |] eqn:Hrow; [| reflexivity].
    apply lookup_replicate in Hrow as [-> _]. rewrite sumZ_replicate. lia.
  - eapply inv_sizes_step; eauto using reachable_inv.
Qed.

(** X21.  The deal is even.  The cards are dealt one by one to the seats
    0, 1, 2 in turn, so when the auction begins seat [p] holds
    [(n + 2 - p) / 3] of the [n = kNumCards - kNumCardsLeftOver] cards
    dealt, and two hands never differ by more than one card. *)
Theorem deal_is_even (s : GITCGState) (p : Z) :
  header_ok -> kNumCardsLeftOver <= kNumCards ->
  reachable s -> phase_ s = kAuction -> seat p ->
  hand_size s p = (kNumCards - kNumCardsLeftOver + 2 - p) / 3 /\
  forall q, seat q -> -1 <= hand_size s p - hand_size s q <= 1.
Proof.
  intros Hok Hle Hreach Hph Hp.
  pose proof (reachable_inv_sizes s Hok Hreach) as Hsizes.
  unfold inv_sizes in Hsizes. rewrite Hph in Hsizes.
  unfold seat, kNumPlayers, kNumDealt in *.
  split; [rewrite Hsizes; apply dealt_to_closed; lia |].
  intros q Hq. rewrite !Hsizes, !dealt_to_closed by lia.
  Z.div_mod_to_equations. lia.
Qed.

Lemma add_cards_hand (dizhu : Z) (cards : list Z) :
  forall (holds holds' : list (list Z)) (p : Z),
    for_each cards (fun rank h => arr2_upd h dizhu rank Z.succ) holds
      = Ok holds' ->
    match arr_get holds' p with Ok hand => sumZ hand | Err _ => 0 end
    = match arr_get holds p with Ok hand => sumZ hand | Err _ => 0 end
      + (if decide (p = dizhu) then Z.of_nat (length cards) else 0).
Proof.
  induction cards as [| rank cards IH]; intros holds holds' p H.
  - injection H as <-. simpl. destruct (decide _); lia.
  - cbn [for_each] in H. bind_ok H.
    rewrite (IH _ _ p H), (arr2_upd_hand _ _ _ _ _ p E).
    simpl length. destruct (decide (p = dizhu)); lia.
Qed.

(** X22.  When the auction ends with a landlord, the landlord enters the
    play phase with the cards dealt to that seat and all the left-over
    cards, and the two others with the cards they were dealt: 20, 17 and
    17 cards for the deck of 54 with 3 cards left over. *)
Theorem landlord_starts_with_the_left_over_cards (s s' : GITCGState)
  (act : Z) :
  header_ok -> kNumCardsLeftOver <= kNumCards ->
  reachable s -> phase_ s = kAuction ->
  ApplyAction s act = Ok s' -> phase_ s' = kPlay ->
  forall p, seat p ->
    hand_size s' p =
      (kNumCards - kNumCardsLeftOver + 2 - p) / 3 +
      (if decide (p = dizhu_ s') then kNumCardsLeftOver else 0).
Proof.
  intros Hok Hle Hreach Hph H Hph' p Hp.
  pose proof (reachable_inv_sizes s Hok Hreach) as Hsizes.
  destruct (reachable_inv s Hok Hreach) as [_ Hinv].
  unfold inv_sizes in Hsizes. rewrite Hph in Hsizes, Hinv.
  destruct Hinv as ((_ & Hleft & _) & _).
  unfold ApplyAction, DoApplyAction in H. rewrite Hph in H.
  bind_ok H. injection H as <-. st_simpl.
  destruct (auction_to_play _ _ _ Hph E) as (_ & Hplay).
  destruct (Hplay Hph') as (s1 & Hconclude & Hholds & Hlo).
  apply conclude_auction_explicit in Hconclude as (holds' & Htake & ->).
  unfold hand_size in *. st_simpl.
  rewrite take_left_over_all in Htake
    by (unfold leftover_size in *; rewrite Hlo; exact Hleft).
  rewrite (add_cards_hand _ _ _ _ p Htake), Hholds, Hsizes, Hlo.
  unfold leftover_size in Hleft. rewrite Hleft.
  unfold seat, kNumPlayers, kNumDealt in *.
  rewrite dealt_to_closed by lia. reflexivity.
Qed.

End Properties.

(** ** The sample header at work *)

Lemma Sample_header_ok : @header_ok Sample.header.
Proof.
  split; [vm_compute; discriminate |]. split; [vm_compute; reflexivity |].
  intros card Hcard. cbn in *. unfold Sample.CardToRank.
  change Sample.kNumCards with 54 in *. change Sample.kNumRanks with 15.
  change Sample.kNumCardsPerSuit with 13.
  destruct (decide (card = 54 - 2 \/ card = 54 - 1)) as [Hj | Hj]; [lia |].
  pose proof (Z.rem_bound_pos card 13). lia.
Qed.

Lemma Sample_reachable (acts : list Z) (s : GITCGState) :
  Sample.run acts = Ok s -> @reachable Sample.header s.
Proof.
  apply ApplyActions_reachable, reachable_init.
Qed.

Lemma Sample_search_no_pass (hand : list Z) (prev_action : Z) :
  @kPass Sample.header ∉ @SearchForLegalActions Sample.header hand prev_action.
Proof.
  cbn. unfold Sample.SearchForLegalActions.
  change Sample.kPass with 0. change Sample.kPlayActionBase with 4.
  change Sample.kBombActionBase with 100.
  change Sample.kRocketActionBase with 113.
  rewrite !elem_of_app, !list_elem_of_fmap.
  intros [(r & Hr & [_ Hin%elem_of_seqZ]%list_elem_of_filter)
         | [(r & Hr & [_ Hin%elem_of_seqZ]%list_elem_of_filter) | H]];
    [lia | lia |].
  destruct (_ && _); [| inversion H].
  apply list_elem_of_singleton in H. discriminate.
Qed.

Lemma dealt_state_reachable : @reachable Sample.header Sample.dealt_state.
Proof.
  apply (Sample_reachable Sample.plain_deal). vm_compute. reflexivity.
Qed.

Lemma two_passes_state_reachable :
  @reachable Sample.header Sample.two_passes_state.
Proof.
  apply (Sample_reachable
           (Sample.plain_deal ++ [Sample.kPass; Sample.kPass])).
  vm_compute. reflexivity.
Qed.


Lemma bid1_pass_state_reachable :
  @reachable Sample.header Sample.bid1_pass_state.
Proof.
  apply (Sample_reachable
           (Sample.plain_deal ++ [Sample.Bid 1; Sample.kPass])).
  vm_compute. reflexivity.
Qed.

Lemma landlord_state_reachable :
  @reachable Sample.header Sample.landlord_state.
Proof.
  apply (Sample_reachable
           (Sample.plain_deal ++ [Sample.Bid 1; Sample.kPass; Sample.kPass])).
  vm_compute. reflexivity.
Qed.

Lemma game_over_state_reachable :
  @reachable Sample.header Sample.game_over_state.
Proof.
  apply (Sample_reachable
           (Sample.plain_deal ++ [Sample.Bid 1; Sample.kPass; Sample.kPass]
              ++ Sample.long_first_trick)).
  vm_compute. reflexivity.
Qed.

(** C1, on the last play of the game that seat 1 wins against landlord 0
    for a bid of 1 with no bomb and no spring: the landlord pays 2, each
    other player gets 1. *)
Lemma settlement_returns_witness :
  let s := Sample.last_card_state in
  let s' := Sample.settled_state in
  (phase_ s = kPlay /\
   @DoApplyAction Sample.header s (Sample.Solo 12) = Ok s' /\
   phase_ s' = kGameOver /\
   dizhu_ s' <> @kInvalidPlayer Sample.header /\ seat (dizhu_ s') /\
   length (players_hands_played s') = 3%nat /\
   length (returns_ s') = 3%nat /\
   0 <= winning_bid_ s' /\ 0 <= bombs_played_ s' /\
   2 * (winning_bid_ s' * 2 ^ (1 + bombs_played_ s')) <= INT_MAX) /\
  final_winner_ s' = 1 /\
  rd (returns_ s') (dizhu_ s') = -2 /\
  rd (returns_ s') (Z.rem (dizhu_ s' + 1) 3) = 1 /\
  rd (returns_ s') (Z.rem (dizhu_ s' + 2) 3) = 1 /\
  sumZ (returns_ s') = 0.
Proof.
  intros s s'.
  assert (phase_ s = kPlay) as Hph by (vm_compute; reflexivity).
  assert (@DoApplyAction Sample.header s (Sample.Solo 12) = Ok s') as E
    by (vm_compute; reflexivity).
  assert (phase_ s' = kGameOver) as Hover by (vm_compute; reflexivity).
  assert (dizhu_ s' <> @kInvalidPlayer Sample.header) as H1
    by (vm_compute; discriminate).
  assert (seat (dizhu_ s')) as H2
    by (vm_compute; split; [discriminate | reflexivity]).
  assert (length (players_hands_played s') = 3%nat) as H3
    by (vm_compute; reflexivity).
  assert (length (returns_ s') = 3%nat) as H4 by (vm_compute; reflexivity).
  assert (0 <= winning_bid_ s') as H5 by (vm_compute; discriminate).
  assert (0 <= bombs_played_ s') as H6 by (vm_compute; discriminate).
  assert (2 * (winning_bid_ s' * 2 ^ (1 + bombs_played_ s')) <= INT_MAX)
    as H7 by (vm_compute; discriminate).
  split;
    [exact (conj Hph (conj E (conj Hover (conj H1 (conj H2 (conj H3
              (conj H4 (conj H5 (conj H6 H7))))))))) |].
  destruct (@settlement_returns Sample.header s s' (Sample.Solo 12)
              Hph E Hover H1 H2 H3 H4 H5 H6 H7)
    as (b & Eb & Hw & R0 & R1 & R2 & Hsum).
  assert (b = false) as -> by (vm_compute in Eb; congruence).
  split; [etransitivity; [exact Hw | vm_compute; reflexivity] |].
  split; [etransitivity; [exact R0 | vm_compute; reflexivity] |].
  split; [etransitivity; [exact R1 | vm_compute; reflexivity] |].
  split; [etransitivity; [exact R2 | vm_compute; reflexivity] |].
  exact Hsum.
Defined.

(** C2: the invariant on the state in which the landlord leads trick 0. *)
Lemma card_conservation_witness :
  @header_ok Sample.header /\
  @reachable Sample.header Sample.landlord_state /\
  pool_count Sample.landlord_state = 3 /\
  leftover_size Sample.landlord_state = 3 /\
  hand_count Sample.landlord_state + played_count Sample.landlord_state = 54.
Proof.
  split; [exact Sample_header_ok |].
  split; [exact landlord_state_reachable |].
  exact (@card_conservation Sample.header Sample.landlord_state
           Sample_header_ok landlord_state_reachable).
Defined.

(** C2 as stated fails as soon as the deal is over: the three undealt
    cards are counted in the pool and again in the leftover block. *)
Lemma conservation_counts_leftover_twice :
  exists s,
    @reachable Sample.header s /\
    phase_ s = kAuction /\
    pool_count s + hand_count s + played_count s + leftover_size s = 57 /\
    pool_count s + hand_count s + played_count s + leftover_size s
    <> @kNumCards Sample.header.
Proof.
  exists Sample.dealt_state.
  split; [exact dealt_state_reachable |]. vm_compute.
  repeat split. discriminate.
Qed.


(** C3, on the pass of seat 2 after seat 0 bid 1 and seat 1 passed (seat 0
    becomes the landlord and receives the leftover cards of ranks 12, 13
    and 14), and on the third pass of an auction without a bid. *)
Lemma auction_pass_witness :
  (let s := Sample.bid1_pass_state in
   (@header_ok Sample.header /\ @reachable Sample.header s /\
    phase_ s = kAuction /\
    num_passes_ s + 1 = 2 /\ winning_bid_ s > 0) /\
   exists s',
     @DoApplyAction Sample.header s (@kPass Sample.header) = Ok s' /\
     phase_ s' = kPlay /\
     current_player_ s' = 0 /\
     tricks_ s' = [Trick_Trick 0 (-1)] /\
     rd2 (holds_ s') 0 12 = 2 /\
     rd2 (holds_ s') 1 12 = 1) /\
  (let s := Sample.two_passes_state in
   (@reachable Sample.header s /\ phase_ s = kAuction /\
    num_passes_ s + 1 = 3 /\ winning_bid_ s = 0) /\
   exists s',
     @DoApplyAction Sample.header s (@kPass Sample.header) = Ok s' /\
     phase_ s' = kGameOver /\
     returns_ s' = [0; 0; 0] /\
     holds_ s' = holds_ s /\
     tricks_ s' = []).
Proof.
  split.
  - intros s.
    assert (phase_ s = kAuction) as Hph by (vm_compute; reflexivity).
    assert (num_passes_ s + 1 = 2) as Hn by (vm_compute; reflexivity).
    assert (winning_bid_ s > 0) as Hbid by (vm_compute; reflexivity).
    split; [exact (conj Sample_header_ok
                     (conj bid1_pass_state_reachable
                        (conj Hph (conj Hn Hbid)))) |].
    destruct (@auction_pass Sample.header s Sample_header_ok
                bid1_pass_state_reachable Hph)
      as (s' & E & _ & Hwin & _).
    destruct (Hwin Hn Hbid)
      as (E1 & E2 & _ & (t & Et & _ & Hl & Hw & Ha) & _ & Hrd).
    exists s'. split; [exact E |]. split; [exact E1 |].
    split; [etransitivity; [exact E2 | vm_compute; reflexivity] |].
    split.
    + etransitivity; [exact Et |]. destruct t as [a l w].
      cbn [leader_ winning_player_ winning_action_] in Hl, Hw, Ha.
      rewrite Hl, Hw, Ha. vm_compute. reflexivity.
    + split;
        (etransitivity; [exact (Hrd _ _) | vm_compute; reflexivity]).
  - intros s.
    assert (phase_ s = kAuction) as Hph by (vm_compute; reflexivity).
    assert (num_passes_ s + 1 = 3) as Hn by (vm_compute; reflexivity).
    assert (winning_bid_ s = 0) as Hbid by (vm_compute; reflexivity).
    split; [exact (conj two_passes_state_reachable
                     (conj Hph (conj Hn Hbid))) |].
    destruct (@auction_pass Sample.header s Sample_header_ok
                two_passes_state_reachable Hph)
      as (s' & E & Hover & _ & _).
    destruct (Hover Hn Hbid) as (E1 & _ & E3 & E4 & E5 & _).
    exists s'. exact (conj E (conj E1 (conj E3 (conj E4 E5)))).
Defined.

(** C4 fails on a game in which the landlord plays twice in trick 0 and
    never again: the landlord played in exactly one trick, yet no spring is
    scored (the returns are those of a plain bid of 1). *)
Lemma two_plays_in_one_trick_no_spring :
  let s := Sample.game_over_state in
  @reachable Sample.header s /\
  phase_ s = kGameOver /\
  dizhu_ s = 0 /\
  tricks_played_in 0
    (@plays_of Sample.header Sample.landlord_state Sample.long_first_trick)
  = [0] /\
  rd (players_hands_played s) 1 <> 0 /\
  ScoreUp_is_spring s = Ok false /\
  returns_ s = [-2; 1; 1].
Proof.
  split; [exact game_over_state_reachable |]. vm_compute.
  repeat split. discriminate.
Qed.

(** C4 (amended), on the same game, two plays of the landlord, seventeen of
    seat 1, none of seat 2, hence no spring; and on the game in which
    landlord 1 makes all twenty plays, a spring. *)
Lemma is_spring_counts_plays_witness :
  (let acts :=
     Sample.plain_deal ++ [Sample.Bid 1; Sample.kPass; Sample.kPass]
       ++ Sample.long_first_trick in
   let s := Sample.game_over_state in
   let plays p :=
     plays_by p
       (@players_of_plays Sample.header (@NewInitialState Sample.header)
          acts) in
   (@ApplyActions Sample.header (@NewInitialState Sample.header) acts = Ok s /\
    dizhu_ s <> @kInvalidPlayer Sample.header) /\
   (dizhu_ s = 0 /\ plays 0 = 2 /\ plays 1 = 17 /\ plays 2 = 0 /\
    ScoreUp_is_spring s = Ok false) /\
   (forall p, rd (players_hands_played s) p = plays p) /\
   exists is_spring,
     ScoreUp_is_spring s = Ok is_spring /\
     (is_spring = true <->
      plays (dizhu_ s) = 1 \/
      (plays (Z.rem (dizhu_ s + 1) 3) = 0 /\
       plays (Z.rem (dizhu_ s + 2) 3) = 0))) /\
  (let acts := Sample.second_deal ++ Sample.landlord_walk in
   let s := Sample.landlord_walk_state in
   let plays p :=
     plays_by p
       (@players_of_plays Sample.header (@NewInitialState Sample.header)
          acts) in
   (@ApplyActions Sample.header (@NewInitialState Sample.header) acts = Ok s /\
    dizhu_ s <> @kInvalidPlayer Sample.header) /\
   (dizhu_ s = 1 /\ plays 1 = 20 /\ plays 2 = 0 /\ plays 0 = 0 /\
    ScoreUp_is_spring s = Ok true) /\
   (forall p, rd (players_hands_played s) p = plays p) /\
   exists is_spring,
     ScoreUp_is_spring s = Ok is_spring /\
     (is_spring = true <->
      plays (dizhu_ s) = 1 \/
      (plays (Z.rem (dizhu_ s + 1) 3) = 0 /\
       plays (Z.rem (dizhu_ s + 2) 3) = 0))).
Proof.
  split.
  - intros acts s plays.
    assert (@ApplyActions Sample.header (@NewInitialState Sample.header) acts
            = Ok s) as Hrun by (vm_compute; reflexivity).
    assert (dizhu_ s <> @kInvalidPlayer Sample.header) as Hd
      by (vm_compute; discriminate).
    split; [exact (conj Hrun Hd) |].
    split; [repeat split; vm_compute; reflexivity |].
    exact (@is_spring_counts_plays Sample.header acts s Sample_header_ok
             Hrun Hd).
  - intros acts s plays.
    assert (@ApplyActions Sample.header (@NewInitialState Sample.header) acts
            = Ok s) as Hrun by (vm_compute; reflexivity).
    assert (dizhu_ s <> @kInvalidPlayer Sample.header) as Hd
      by (vm_compute; discriminate).
    split; [exact (conj Hrun Hd) |].
    split; [repeat split; vm_compute; reflexivity |].
    exact (@is_spring_counts_plays Sample.header acts s Sample_header_ok
             Hrun Hd).
Defined.

(** C5, on the auction in which seat 0 bids 1, seat 1 passes and seat 2
    bids 3. *)
Lemma bidding_legal_and_monotone_witness :
  let acts := [Sample.Bid 1; Sample.kPass; Sample.Bid 3] in
  let s' := Sample.state_of (Sample.plain_deal ++ acts) in
  @auction_run Sample.header Sample.dealt_state acts s' /\
  @accepted_bids Sample.header acts = [1; 3] /\
  StronglySorted Z.lt (@accepted_bids Sample.header acts) /\
  winning_bid_ Sample.dealt_state <= winning_bid_ s' /\
  (let s := Sample.dealt_state in
   phase_ s = kAuction /\
   @LegalActions Sample.header s = Ok [0; 1; 2; 3] /\
   (Sample.Bid 2 ∈ [0; 1; 2; 3] <->
    Sample.Bid 2 = @kPass Sample.header \/
    exists v,
      winning_bid_ s < v <= @kNumBids Sample.header /\
      Sample.Bid 2 = @kBiddingActionBase Sample.header + v)).
Proof.
  intros acts s'.
  pose proof (@bidding_legal_and_monotone Sample.header) as [Hlegal Hmono].
  assert (@auction_run Sample.header Sample.dealt_state acts s') as Hrun.
  { apply auction_run_cons
      with (s1 := Sample.state_of (Sample.plain_deal ++ [Sample.Bid 1]));
      [vm_compute; reflexivity
      | apply (bool_decide_unpack _); vm_compute; exact I
      | vm_compute; reflexivity |].
    apply auction_run_cons
      with (s1 := Sample.state_of
                    (Sample.plain_deal ++ [Sample.Bid 1; Sample.kPass]));
      [vm_compute; reflexivity
      | apply (bool_decide_unpack _); vm_compute; exact I
      | vm_compute; reflexivity |].
    apply auction_run_cons with (s1 := s');
      [vm_compute; reflexivity
      | apply (bool_decide_unpack _); vm_compute; exact I
      | vm_compute; reflexivity |].
    apply auction_run_nil. }
  destruct (Hmono _ _ _ Hrun) as (Hsorted & _ & Hle).
  split; [exact Hrun |]. split; [vm_compute; reflexivity |].
  split; [exact Hsorted |]. split; [exact Hle |].
  intros s.
  assert (phase_ s = kAuction) as Hph by (vm_compute; reflexivity).
  assert (@LegalActions Sample.header s = Ok [0; 1; 2; 3]) as Hl
    by (vm_compute; reflexivity).
  split; [exact Hph |]. split; [exact Hl |].
  exact (Hlegal s (Sample.Bid 2) Hph _ Hl).
Defined.

(** C6, on the pass of the landlord that closes trick 0, won by seat 1:
    seat 1 is to act, and the trick that is opened has the leader of the
    default trick of the sample header, not seat 1. *)
Lemma trick_close_witness :
  let s := Sample.open_trick_state in
  let trick := {| winning_action_ := 5; leader_ := 0; winning_player_ := 1 |} in
  (phase_ s = kPlay /\ num_passes_ s + 1 = kNumPlayers - 1 /\
   CurrentTrick s = Ok trick) /\
  exists s' opened,
    @DoApplyAction Sample.header s (@kPass Sample.header) = Ok s' /\
    current_player_ s' = 1 /\
    new_trick_begin_ s' = true /\
    num_passes_ s' = 0 /\
    CurrentTrick s' = Ok opened /\
    last (tricks_ s') = Some opened /\
    leader_ opened = -3 /\
    leader_ opened <> current_player_ s'.
Proof.
  intros s trick.
  assert (phase_ s = kPlay) as Hph by (vm_compute; reflexivity).
  assert (num_passes_ s + 1 = kNumPlayers - 1) as Hn
    by (vm_compute; reflexivity).
  assert (CurrentTrick s = Ok trick) as Ht
    by (vm_compute; reflexivity).
  split; [repeat split; assumption |].
  destruct (@trick_close Sample.header s trick Hph Hn Ht)
    as (s' & E & _ & Hcur & Hnew & Hpass & _ & Htricks & Hopen & Hleader).
  assert (trick_played_ s + 1 = Z.of_nat (length (tricks_ s))) as Hidx
    by (vm_compute; reflexivity).
  exists s', (@Trick_default Sample.header).
  assert (last (tricks_ s') = Some (@Trick_default Sample.header)) as Hlast
    by (rewrite Htricks; apply last_snoc).
  split; [exact E |]. split; [exact Hcur |].
  split; [exact Hnew |]. split; [exact Hpass |].
  split; [exact (Hopen Hidx) |]. split; [exact Hlast |].
  split; [reflexivity |]. intros Heq.
  assert (current_player_ s' = -3) as Hbad
    by (etransitivity; [symmetry; exact Heq | reflexivity]).
  assert (1 = -3) as Habs
    by (etransitivity; [symmetry; exact Hcur | exact Hbad]).
  discriminate Habs.
Defined.

(** C7 fails once the auction has concluded: the block still holds the
    three cards the landlord received. *)
Lemma leftover_block_kept_after_auction :
  exists s,
    @reachable Sample.header s /\
    phase_ s = kPlay /\
    dizhu_ s = 0 /\
    cards_left_over_ s = [12; 13; 14] /\
    cards_left_over_ s <> [].
Proof.
  exists Sample.landlord_state.
  split; [exact landlord_state_reachable |]. vm_compute.
  repeat split. discriminate.
Qed.

(** C7 (amended), on the pass that concludes the auction for seat 0. *)
Lemma leftover_block_witness :
  let s := Sample.bid1_pass_state in
  let s' := Sample.landlord_state in
  (@header_ok Sample.header /\ @reachable Sample.header s /\
   phase_ s = kAuction) /\
  leftover_size s = @kNumCardsLeftOver Sample.header /\
  @ApplyAction Sample.header s (@kPass Sample.header) = Ok s' /\
  phase_ s' = kPlay /\
  cards_left_over_ s' = cards_left_over_ s /\
  rd2 (holds_ s') 0 13 = 1 /\
  rd2 (holds_ s') 2 13 = 0.
Proof.
  intros s s'.
  assert (phase_ s = kAuction) as Hph by (vm_compute; reflexivity).
  assert (phase_ s <> kDeal) as Hph0 by (vm_compute; discriminate).
  assert (@ApplyAction Sample.header s (@kPass Sample.header) = Ok s') as E
    by (vm_compute; reflexivity).
  assert (phase_ s' = kPlay) as Hph' by (vm_compute; reflexivity).
  split; [exact (conj Sample_header_ok
                   (conj bid1_pass_state_reachable Hph)) |].
  destruct (@leftover_block Sample.header s Sample_header_ok
              bid1_pass_state_reachable)
    as (_ & Hsize & Hkeep & Htake).
  split; [exact (Hsize Hph0) |]. split; [exact E |].
  split; [exact Hph' |]. split; [exact (Hkeep _ _ Hph0 E) |].
  split;
    (etransitivity;
     [exact (Htake _ _ Hph E Hph' _ _) | vm_compute; reflexivity]).
Defined.

(** C8, on the landlord leading trick 0: Pass is not offered. *)
Lemma pass_legal_iff_not_leading_witness :
  let s := Sample.landlord_state in
  let hand := [2; 1; 1; 2; 1; 1; 2; 1; 1; 2; 1; 1; 2; 1; 1] in
  let trick := Trick_Trick 0 (-1) in
  ((forall hand prev_action,
      @kPass Sample.header
      ∉ @SearchForLegalActions Sample.header hand prev_action) /\
   phase_ s = kPlay /\
   arr_get (holds_ s) (current_player_ s) = Ok hand /\
   CurrentTrick s = Ok trick) /\
  new_trick_begin_ s = true /\
  exists l,
    @LegalActions Sample.header s = Ok l /\
    (@kPass Sample.header ∈ l <-> new_trick_begin_ s = false).
Proof.
  intros s hand trick.
  assert (phase_ s = kPlay) as Hph by (vm_compute; reflexivity).
  assert (arr_get (holds_ s) (current_player_ s) = Ok hand) as Hhand
    by (vm_compute; reflexivity).
  assert (CurrentTrick s = Ok trick) as Htrick
    by (vm_compute; reflexivity).
  split; [repeat split; try assumption; apply Sample_search_no_pass |].
  split; [vm_compute; reflexivity |].
  exact (@pass_legal_iff_not_leading Sample.header s hand trick
           Sample_search_no_pass Hph Hhand Htrick).
Defined.



(** C10, on the pass of seat 1 after seat 0 bid 1. *)
Lemma auction_pass_frame_witness :
  let s := Sample.bid1_state in
  (phase_ s = kAuction /\ num_passes_ s + 1 < 3 /\
   winning_bid_ s > 0 /\
   (winning_bid_ s > 0 -> num_passes_ s + 1 < 2)) /\
  exists s',
    @DoApplyAction Sample.header s (@kPass Sample.header) = Ok s' /\
    num_passes_ s' = 1 /\
    current_player_ s' = 2 /\
    holds_ s' = holds_ s /\
    dealer_deck_ s' = dealer_deck_ s /\
    cards_left_over_ s' = cards_left_over_ s /\
    winning_bid_ s' = winning_bid_ s /\
    dizhu_ s' = dizhu_ s /\
    tricks_ s' = tricks_ s.
Proof.
  intros s.
  assert (phase_ s = kAuction) as H1 by (vm_compute; reflexivity).
  assert (num_passes_ s + 1 < 3) as H2 by (vm_compute; reflexivity).
  assert (winning_bid_ s > 0) as Hbid by (vm_compute; reflexivity).
  assert (winning_bid_ s > 0 -> num_passes_ s + 1 < 2) as H3
    by (intros _; vm_compute; reflexivity).
  split; [exact (conj H1 (conj H2 (conj Hbid H3))) |].
  destruct (@auction_pass_frame Sample.header s H1 H2 H3)
    as (s' & E & _ & Hn & Hc & Hrest).
  exists s'. split; [exact E |].
  split; [etransitivity; [exact Hn | vm_compute; reflexivity] |].
  split; [etransitivity; [exact Hc | vm_compute; reflexivity] |].
  destruct Hrest as (R1 & R2 & R3 & R4 & R5 & R6 & _).
  exact (conj R1 (conj R2 (conj R3 (conj R4 (conj R5 R6))))).
Defined.

(** ** The further properties on the sample header *)

Lemma rd_insert_ne (l : list Z) (n : nat) (x i : Z) :
  Z.to_nat i <> n -> rd (<[n := x]> l) i = rd l i.
Proof.
  intros Hne. unfold rd, arr_get. destruct (decide (0 <= i)); [| reflexivity].
  rewrite list_lookup_insert_ne by congruence. reflexivity.
Qed.

Lemma rd_nonneg (l : list Z) (i : Z) :
  Forall (fun x => 0 <= x) l -> 0 <= rd l i.
Proof.
  intros Hl. unfold rd, arr_get. destruct (decide (0 <= i)); [| lia].
  destruct (l !! Z.to_nat i) as [x |] eqn:Hx; [| lia].
  rewrite Forall_forall in Hl. eapply Hl, list_elem_of_lookup_2, Hx.
Qed.

Lemma Sample_rd_one_rank (rank count r : Z) :
  0 <= r < 15 ->
  rd (Sample.one_rank rank count) r = if decide (r = rank) then count else 0.
Proof.
  intros Hr. unfold Sample.one_rank, rd, arr_get.
  change Sample.kNumRanks with 15.
  rewrite decide_True by lia.
  rewrite list_lookup_fmap, lookup_seqZ_lt by lia.
  simpl. rewrite Z2Nat.id by lia. reflexivity.
Qed.

Lemma Sample_search_sound : @search_sound Sample.header.
Proof.
  intros hand prev act Hlen Hpos Hact.
  split; [intros ->; exact (Sample_search_no_pass _ _ Hact) |].
  cbn in Hact |- *. unfold Sample.SearchForLegalActions in Hact.
  change Sample.kPlayActionBase with 4 in Hact.
  change Sample.kBombActionBase with 100 in Hact.
  change Sample.kRocketActionBase with 113 in Hact.
  change Sample.kNumRanks with 15 in *.
  rewrite !elem_of_app, !list_elem_of_fmap in Hact.
  unfold Sample.ActionToHand.
  change Sample.kPlayActionBase with 4.
  change Sample.kBombActionBase with 100.
  change Sample.kRocketActionBase with 113.
  change Sample.kNumRanks with 15.
  destruct Hact
    as [(r0 & -> & [Hr0 Hin%elem_of_seqZ]%list_elem_of_filter)
       | [(r0 & -> & [Hr0 Hin%elem_of_seqZ]%list_elem_of_filter) | Hact]].
  - rewrite decide_True by lia. split; [reflexivity |].
    intros r Hr. rewrite Sample_rd_one_rank by lia.
    apply andb_true_iff in Hr0 as [Hheld%bool_decide_eq_true _].
    replace (4 + r0 - 4) with r0 by lia.
    pose proof (rd_nonneg hand r Hpos).
    destruct (decide (r = r0)) as [-> | _]; lia.
  - rewrite decide_False by lia. rewrite decide_True by lia.
    split; [reflexivity |].
    intros r Hr. rewrite Sample_rd_one_rank by lia.
    apply andb_true_iff in Hr0 as [Hheld%bool_decide_eq_true _].
    replace (100 + r0 - 100) with r0 by lia.
    pose proof (rd_nonneg hand r Hpos).
    destruct (decide (r = r0)) as [-> | _]; lia.
  - destruct (_ && _) eqn:Hrocket; [| inversion Hact].
    apply list_elem_of_singleton in Hact. subst act.
    rewrite decide_False by lia. rewrite decide_False by lia.
    rewrite decide_True by reflexivity. split; [reflexivity |].
    apply andb_true_iff in Hrocket
      as [H13%bool_decide_eq_true H14%bool_decide_eq_true].
    change (15 - 2) with 13 in *. change (15 - 1) with 14 in H14.
    intros r Hr. pose proof (rd_nonneg hand r Hpos).
    unfold rd at 1, arr_get. rewrite decide_True by lia.
    rewrite list_lookup_fmap, lookup_seqZ_lt by lia. simpl.
    rewrite Z2Nat.id by lia.
    destruct (decide (0 + r < 13)); [lia |].
    assert (r = 13 \/ r = 14) as [-> | ->] by lia; lia.
Qed.

Lemma second_dealt_state_reachable :
  @reachable Sample.header Sample.second_dealt_state.
Proof.
  apply (Sample_reachable Sample.second_deal). vm_compute. reflexivity.
Qed.

Lemma all_pass_state_reachable :
  @reachable Sample.header Sample.all_pass_state.
Proof.
  apply (Sample_reachable
           (Sample.plain_deal ++ [Sample.kPass; Sample.kPass; Sample.kPass])).
  vm_compute. reflexivity.
Qed.

Lemma mid_deal_state_reachable :
  @reachable Sample.header Sample.mid_deal_state.
Proof.
  apply (Sample_reachable (Sample.deal 0 (seqZ 0 20))).
  vm_compute. reflexivity.
Qed.

Lemma open_trick_state_reachable :
  @reachable Sample.header Sample.open_trick_state.
Proof.
  apply (Sample_reachable
           (Sample.plain_deal ++
            [Sample.Bid 1; Sample.kPass; Sample.kPass; Sample.Solo 0;
             Sample.Solo 1; Sample.kPass])).
  vm_compute. reflexivity.
Qed.

Lemma last_card_state_reachable :
  @reachable Sample.header Sample.last_card_state.
Proof.
  apply (Sample_reachable
           (Sample.plain_deal ++ [Sample.Bid 1; Sample.kPass; Sample.kPass]
              ++ Sample.long_first_trick_begin)).
  vm_compute. reflexivity.
Qed.

(** X1, on the pass of seat 2 that concludes the auction for seat 0. *)
Lemma phase_never_goes_back_witness :
  let s := Sample.bid1_pass_state in
  let s' := Sample.applied s Sample.kPass in
  @DoApplyAction Sample.header s Sample.kPass = Ok s' /\
  phase_ s = kAuction /\ phase_ s' = kPlay /\
  match phase_ s with
  | kDeal => phase_ s' = kDeal \/ phase_ s' = kAuction
  | kAuction =>
      phase_ s' = kAuction \/ phase_ s' = kPlay \/ phase_ s' = kGameOver
  | kPlay => phase_ s' = kPlay \/ phase_ s' = kGameOver
  | kGameOver => False
  end.
Proof.
  intros s s'.
  assert (@DoApplyAction Sample.header s Sample.kPass = Ok s') as E
    by (vm_compute; reflexivity).
  split; [exact E |].
  split; [vm_compute; reflexivity |].
  split; [vm_compute; reflexivity |].
  exact (@phase_never_goes_back Sample.header s s' Sample.kPass E).
Defined.

(** X3, on the landlord leading a card of rank 0 out of two. *)
Lemma play_moves_cards_witness :
  let s := Sample.landlord_state in
  let act := Sample.Solo 0 in
  let s' := Sample.applied s act in
  (phase_ s = kPlay /\ act <> @kPass Sample.header /\
   @DoApplyAction Sample.header s act = Ok s' /\
   0 <= 0 < @kNumRanks Sample.header) /\
  rd2 (holds_ s) 0 0 = 2 /\
  rd2 (holds_ s') 0 0 = 1 /\
  rd2 (holds_ s') 1 0 = 1 /\
  rd (played_deck_ s') 0 = 1.
Proof.
  intros s act s'.
  assert (phase_ s = kPlay) as Hph by (vm_compute; reflexivity).
  assert (act <> @kPass Sample.header) as Hact by (vm_compute; discriminate).
  assert (@DoApplyAction Sample.header s act = Ok s') as E
    by (vm_compute; reflexivity).
  assert (0 <= 0 < @kNumRanks Sample.header) as Hr
    by (vm_compute; split; [discriminate | reflexivity]).
  split; [exact (conj Hph (conj Hact (conj E Hr))) |].
  destruct (@play_moves_cards Sample.header s s' act Hph Hact E 0 Hr)
    as (_ & Hplayed & Hholds).
  split; [vm_compute; reflexivity |].
  split; [etransitivity; [exact (Hholds 0) | vm_compute; reflexivity] |].
  split; [etransitivity; [exact (Hholds 1) | vm_compute; reflexivity] |].
  etransitivity; [exact Hplayed | vm_compute; reflexivity].
Defined.

(** X4, on the landlord playing the four cards of rank 0 while holding
    two. *)
Lemma play_beyond_hand_is_refused_witness :
  let s := Sample.landlord_state in
  let act := @kBombActionBase Sample.header + 0 in
  let trick := Trick_Trick 0 (-1) in
  (phase_ s = kPlay /\ act <> @kPass Sample.header /\
   @shaped Sample.header s /\ seat (current_player_ s) /\
   CurrentTrick s = Ok trick /\
   length (@ActionToHand Sample.header act)
     = Z.to_nat (@kNumRanks Sample.header) /\
   0 <= 0 < @kNumRanks Sample.header /\
   rd2 (holds_ s) (current_player_ s) 0
     < rd (@ActionToHand Sample.header act) 0) /\
  @DoApplyAction Sample.header s act = Err SpielCheckFailed.
Proof.
  intros s act trick.
  assert (phase_ s = kPlay) as Hph by (vm_compute; reflexivity).
  assert (act <> @kPass Sample.header) as Hact by (vm_compute; discriminate).
  pose proof (proj1 (@reachable_inv Sample.header s Sample_header_ok
                       landlord_state_reachable)) as Hsh.
  assert (seat (current_player_ s)) as Hseat
    by (vm_compute; split; [discriminate | reflexivity]).
  assert (CurrentTrick s = Ok trick) as Htrick by (vm_compute; reflexivity).
  assert (length (@ActionToHand Sample.header act)
          = Z.to_nat (@kNumRanks Sample.header)) as Hlen
    by (vm_compute; reflexivity).
  assert (0 <= 0 < @kNumRanks Sample.header) as Hr
    by (vm_compute; split; [discriminate | reflexivity]).
  assert (rd2 (holds_ s) (current_player_ s) 0
          < rd (@ActionToHand Sample.header act) 0) as Hlack
    by (vm_compute; reflexivity).
  split;
    [exact (conj Hph (conj Hact (conj Hsh (conj Hseat (conj Htrick
              (conj Hlen (conj Hr Hlack))))))) |].
  exact (@play_beyond_hand_is_refused Sample.header s act trick Hph Hact Hsh
           Hseat Htrick Hlen (ex_intro _ 0 (conj Hr Hlack))).
Defined.

(** X5, on the last card of seat 1, which wins the game. *)
Lemma play_ends_game_iff_hand_empty_witness :
  let s := Sample.last_card_state in
  let act := Sample.Solo 12 in
  let s' := Sample.settled_state in
  (phase_ s = kPlay /\ act <> @kPass Sample.header /\
   @DoApplyAction Sample.header s act = Ok s') /\
  phase_ s' = kGameOver /\
  final_winner_ s' = 1 /\
  forall r, 0 <= r < @kNumRanks Sample.header ->
    rd2 (holds_ s') (current_player_ s) r = 0.
Proof.
  intros s act s'.
  assert (phase_ s = kPlay) as Hph by (vm_compute; reflexivity).
  assert (act <> @kPass Sample.header) as Hact by (vm_compute; discriminate).
  assert (@DoApplyAction Sample.header s act = Ok s') as E
    by (vm_compute; reflexivity).
  assert (phase_ s' = kGameOver) as Hover by (vm_compute; reflexivity).
  split; [exact (conj Hph (conj Hact E)) |].
  destruct (@play_ends_game_iff_hand_empty Sample.header s s' act Hph Hact E)
    as (Hiff & Hwin & _).
  split; [exact Hover |].
  split; [etransitivity; [exact (Hwin Hover) | vm_compute; reflexivity] |].
  exact (proj1 Hiff Hover).
Defined.

(** X6, on the landlord leading a card of rank 0 and the two others
    passing. *)
Lemma lead_returns_after_two_passes_witness :
  let s := Sample.landlord_state in
  let act := Sample.Solo 0 in
  let s1 := Sample.applied s act in
  (phase_ s = kPlay /\ act <> @kPass Sample.header /\
   @DoApplyAction Sample.header s act = Ok s1 /\ phase_ s1 = kPlay) /\
  exists s2 s3,
    @DoApplyAction Sample.header s1 (@kPass Sample.header) = Ok s2 /\
    @DoApplyAction Sample.header s2 (@kPass Sample.header) = Ok s3 /\
    current_player_ s3 = 0 /\
    new_trick_begin_ s3 = true /\
    trick_played_ s3 = 1.
Proof.
  intros s act s1.
  assert (phase_ s = kPlay) as Hph by (vm_compute; reflexivity).
  assert (act <> @kPass Sample.header) as Hact by (vm_compute; discriminate).
  assert (@DoApplyAction Sample.header s act = Ok s1) as E
    by (vm_compute; reflexivity).
  assert (phase_ s1 = kPlay) as Hph1 by (vm_compute; reflexivity).
  split; [exact (conj Hph (conj Hact (conj E Hph1))) |].
  destruct (@lead_returns_after_two_passes Sample.header s s1 act Hph Hact E
              Hph1)
    as (s2 & s3 & E2 & E3 & _ & Hcur & Hntb & _ & Htp & _).
  exists s2, s3.
  split; [exact E2 |]. split; [exact E3 |].
  split; [etransitivity; [exact Hcur | vm_compute; reflexivity] |].
  split; [exact Hntb |].
  etransitivity; [exact Htp | vm_compute; reflexivity].
Defined.

(** X2, on seat 0 opening the auction with the highest bid. *)
Lemma bid_makes_the_bidder_landlord_witness :
  let s := Sample.dealt_state in
  let act := Sample.Bid 3 in
  (@header_ok Sample.header /\ @reachable Sample.header s /\
   phase_ s = kAuction /\ act ∈ @BiddingLegalActions Sample.header s /\
   act <> @kPass Sample.header) /\
  exists s',
    @DoApplyAction Sample.header s act = Ok s' /\
    dizhu_ s' = 0 /\
    winning_bid_ s' = 3 /\
    phase_ s' = kPlay /\
    current_player_ s' = 0 /\
    tricks_ s' = [Trick_Trick (current_player_ s) (@kInvalidAction Sample.header)].
Proof.
  intros s act.
  assert (phase_ s = kAuction) as Hph by (vm_compute; reflexivity).
  assert (act ∈ @BiddingLegalActions Sample.header s) as Hlegal
    by (apply (bool_decide_unpack _); vm_compute; exact I).
  assert (act <> @kPass Sample.header) as Hact by (vm_compute; discriminate).
  split;
    [exact (conj Sample_header_ok (conj dealt_state_reachable
              (conj Hph (conj Hlegal Hact)))) |].
  destruct (@bid_makes_the_bidder_landlord Sample.header s act
              Sample_header_ok dealt_state_reachable Hph Hlegal Hact)
    as (s' & E & Hd & Hw & _ & _ & _ & Hend).
  destruct (decide (act - @kBiddingActionBase Sample.header
                    = @kNumBids Sample.header)) as [_ | Hn];
    [| exfalso; apply Hn; vm_compute; reflexivity].
  destruct Hend as (Hph' & Hcur & _ & Htr & _).
  exists s'. split; [exact E |].
  split; [etransitivity; [exact Hd | vm_compute; reflexivity] |].
  split; [etransitivity; [exact Hw | vm_compute; reflexivity] |].
  split; [exact Hph' |].
  split; [etransitivity; [exact Hcur | vm_compute; reflexivity] |].
  exact Htr.
Defined.

(** X7, after twenty cards of the deal: 34 cards are left in the pool,
    each of weight 1/34. *)
Lemma chance_outcomes_uniform_witness :
  let s := Sample.mid_deal_state in
  (0 <= @kNumCards Sample.header /\ @shaped Sample.header s) /\
  fst <$> @ChanceOutcomes Sample.header s = @DealLegalActions Sample.header s
  /\
  Forall (fun o => snd o = 34) (@ChanceOutcomes Sample.header s).
Proof.
  intros s.
  assert (0 <= @kNumCards Sample.header) as HN by (vm_compute; discriminate).
  pose proof (proj1 (@reachable_inv Sample.header s Sample_header_ok
                       mid_deal_state_reachable)) as Hsh.
  split; [exact (conj HN Hsh) |].
  destruct (@chance_outcomes_uniform Sample.header s HN Hsh) as [Hfst Hall].
  split; [exact Hfst |].
  eapply Forall_impl; [exact Hall |]. intros o Ho.
  etransitivity; [exact Ho | vm_compute; reflexivity].
Defined.

(** X15, on card 20 dealt after cards 0 to 19: it is no longer a legal
    deal action, card 21 still is. *)
Lemma dealt_card_leaves_the_pool_witness :
  let s := Sample.mid_deal_state in
  let act := 20 + @kDealingActionBase Sample.header in
  let s' := Sample.applied s act in
  (@shaped Sample.header s /\ card_face_up_position_ s <> -1 /\
   act ∈ @DealLegalActions Sample.header s /\
   @ApplyDealAction Sample.header s act = Ok s') /\
  (act ∉ @DealLegalActions Sample.header s') /\
  (act + 1 ∈ @DealLegalActions Sample.header s').
Proof.
  intros s act s'.
  pose proof (proj1 (@reachable_inv Sample.header s Sample_header_ok
                       mid_deal_state_reachable)) as Hsh.
  assert (card_face_up_position_ s <> -1) as Hup
    by (vm_compute; discriminate).
  assert (act ∈ @DealLegalActions Sample.header s) as Hlegal
    by (apply (bool_decide_unpack _); vm_compute; exact I).
  assert (@ApplyDealAction Sample.header s act = Ok s') as E
    by (vm_compute; reflexivity).
  split; [exact (conj Hsh (conj Hup (conj Hlegal E))) |].
  pose proof (@dealt_card_leaves_the_pool Sample.header s s' act Hsh Hup
                Hlegal E) as H.
  split.
  - intros Hin. destruct (proj1 (H act) Hin) as [_ Hne]. apply Hne.
    reflexivity.
  - apply (proj2 (H (act + 1))). split.
    + apply (bool_decide_unpack _). vm_compute. exact I.
    + vm_compute. discriminate.
Defined.

(** X16, at the start of the auction: a pass, then the bids 1 to 3. *)
Lemma legal_actions_are_sorted_witness :
  let s := Sample.dealt_state in
  let l := [0; 1; 2; 3] in
  (phase_ s = kAuction /\
   (phase_ s = kAuction ->
    @kPass Sample.header
      <= @kBiddingActionBase Sample.header + winning_bid_ s) /\
   @LegalActions Sample.header s = Ok l) /\
  Sorted Z.le l /\ StronglySorted Z.lt l.
Proof.
  intros s l.
  assert (phase_ s = kAuction) as Hph by (vm_compute; reflexivity).
  assert (phase_ s = kAuction ->
          @kPass Sample.header
            <= @kBiddingActionBase Sample.header + winning_bid_ s) as Hpass
    by (intros _; vm_compute; discriminate).
  assert (@LegalActions Sample.header s = Ok l) as E
    by (vm_compute; reflexivity).
  split; [exact (conj Hph (conj Hpass E)) |].
  destruct (@legal_actions_are_sorted Sample.header s l Hpass E)
    as [Hsorted Hstrict].
  split; [exact Hsorted |]. apply Hstrict. vm_compute. discriminate.
Defined.

(** X8, on a hand of the state in which the game is over. *)
Lemma hands_never_negative_witness :
  @header_ok Sample.header /\
  @reachable Sample.header Sample.game_over_state /\
  0 <= rd2 (holds_ Sample.game_over_state) 1 0.
Proof.
  split; [exact Sample_header_ok |].
  split; [exact game_over_state_reachable |].
  exact (@hands_never_negative Sample.header Sample.game_over_state 1 0
           Sample_header_ok game_over_state_reachable).
Defined.

(** X11, on the deal in which the second card is the one face up: seat 1
    bids first. *)
Lemma first_bidder_holds_the_face_up_card_witness :
  let s := Sample.second_dealt_state in
  (@header_ok Sample.header /\ @reachable Sample.header s /\
   phase_ s <> kDeal /\ phase_ s = kAuction) /\
  first_player_ s = 1 /\
  seat (first_player_ s) /\
  exists k,
    0 <= k /\
    Z.of_nat (length (history_ s))
      = @kNumCards Sample.header - @kNumCardsLeftOver Sample.header + 1 + k /\
    current_player_ s = Z.rem (first_player_ s + k) kNumPlayers.
Proof.
  intros s.
  assert (phase_ s <> kDeal) as Hph by (vm_compute; discriminate).
  assert (phase_ s = kAuction) as Hph' by (vm_compute; reflexivity).
  split;
    [exact (conj Sample_header_ok (conj second_dealt_state_reachable
              (conj Hph Hph'))) |].
  destruct (@first_bidder_holds_the_face_up_card Sample.header s
              Sample_header_ok second_dealt_state_reachable Hph)
    as (_ & _ & Hfp & Hseat & _ & Hturn).
  split; [etransitivity; [exact Hfp | vm_compute; reflexivity] |].
  split; [exact Hseat |]. exact (Hturn Hph').
Defined.

(** X18, just before the last card of the game is played. *)
Lemma returns_zero_until_the_end_witness :
  let s := Sample.last_card_state in
  (@header_ok Sample.header /\ @reachable Sample.header s /\
   phase_ s <> kGameOver) /\
  returns_ s = [0; 0; 0].
Proof.
  intros s.
  assert (phase_ s <> kGameOver) as Hph by (vm_compute; discriminate).
  split;
    [exact (conj Sample_header_ok (conj last_card_state_reachable Hph)) |].
  exact (@returns_zero_until_the_end Sample.header s Sample_header_ok
           last_card_state_reachable Hph).
Defined.

(** X12, after three passes: the history has its 55 entries, the landlord
    is unset, and [OriginalDeal] reaches the index outside the hands. *)
Lemma original_deal_out_of_range_when_nobody_bid_witness :
  let s := Sample.all_pass_state in
  (@header_ok Sample.header /\ 0 < @kNumCardsLeftOver Sample.header /\
   @reachable Sample.header s /\ phase_ s = kGameOver /\ tricks_ s = [] /\
   Z.of_nat (length (history_ s)) >= @kNumCards Sample.header + 1) /\
  dizhu_ s = @kInvalidPlayer Sample.header /\
  ~ @seat (dizhu_ s) /\
  (exists deal rank,
     @OriginalDeal_dealt Sample.header s
       (replicate (Z.to_nat kNumPlayers)
          (replicate (Z.to_nat (@kNumRanks Sample.header)) 0))
     = Ok deal /\
     arr_get (cards_left_over_ s) 0 = Ok rank /\
     arr2_upd deal (dizhu_ s) rank Z.succ = Err OutOfRange) /\
  @OriginalDeal Sample.header s = Err OutOfRange.
Proof.
  intros s.
  assert (0 < @kNumCardsLeftOver Sample.header) as Hleft
    by (vm_compute; reflexivity).
  assert (phase_ s = kGameOver) as Hph by (vm_compute; reflexivity).
  assert (tricks_ s = []) as Htr by (vm_compute; reflexivity).
  assert (Z.of_nat (length (history_ s)) >= @kNumCards Sample.header + 1)
    as Hsize by (vm_compute; discriminate).
  split;
    [exact (conj Sample_header_ok (conj Hleft (conj all_pass_state_reachable
              (conj Hph (conj Htr Hsize))))) |].
  exact (@original_deal_out_of_range_when_nobody_bid Sample.header s
           Sample_header_ok Hleft all_pass_state_reachable Hph Htr Hsize).
Defined.

(** X13, on the game in which seat 1 bids first, becomes the landlord and
    goes out: seat 0 was dealt two cards of rank 0 and seat 1 one, and
    [OriginalDeal] reports two for seat 1. *)
Lemma original_deal_rotates_the_seats_witness :
  let s0 := Sample.second_dealt_state in
  let s := Sample.landlord_walk_state in
  let deal := Sample.reported_deal in
  (@header_ok Sample.header /\ @reachable Sample.header s0 /\
   phase_ s0 = kAuction /\
   @ApplyActions Sample.header s0 Sample.landlord_walk = Ok s /\
   @OriginalDeal Sample.header s = Ok deal /\ seat 0) /\
  Z.rem (0 + first_player_ s0) kNumPlayers = 1 /\
  rd2 deal (Z.rem (0 + first_player_ s0) kNumPlayers) 0 = 2 /\
  rd2 (holds_ s0) 0 0 = 2 /\
  rd2 (holds_ s0) 1 0 = 1.
Proof.
  intros s0 s deal.
  assert (phase_ s0 = kAuction) as Hph by (vm_compute; reflexivity).
  assert (@ApplyActions Sample.header s0 Sample.landlord_walk = Ok s) as Hrun
    by (vm_compute; reflexivity).
  assert (@OriginalDeal Sample.header s = Ok deal) as Hdeal
    by (vm_compute; reflexivity).
  assert (seat 0) as Hseat
    by (vm_compute; split; [discriminate | reflexivity]).
  split;
    [exact (conj Sample_header_ok (conj second_dealt_state_reachable
              (conj Hph (conj Hrun (conj Hdeal Hseat))))) |].
  split; [vm_compute; reflexivity |].
  split;
    [| split; vm_compute; reflexivity].
  etransitivity;
    [exact (@original_deal_rotates_the_seats Sample.header s0 s
              Sample.landlord_walk deal Sample_header_ok
              second_dealt_state_reachable Hph Hrun Hdeal 0 0 Hseat)
    | vm_compute; reflexivity].
Defined.

(** The auction of seven actions, step by step. *)
Lemma long_auction_run :
  @auction_run Sample.header Sample.dealt_state Sample.long_auction
    (Sample.state_of (Sample.plain_deal ++ Sample.long_auction)).
Proof.
  pose (at_ := fun n : nat =>
     Sample.state_of (Sample.plain_deal ++ take n Sample.long_auction)).
  assert (forall n act,
            phase_ (at_ n) = kAuction ->
            act ∈ @BiddingLegalActions Sample.header (at_ n) ->
            @ApplyAction Sample.header (at_ n) act = Ok (at_ (S n)) ->
            forall rest s',
              @auction_run Sample.header (at_ (S n)) rest s' ->
              @auction_run Sample.header (at_ n) (act :: rest) s')
    as Hstep.
  { intros n act H1 H2 H3 rest s' H4.
    exact (@auction_run_cons Sample.header _ _ _ _ _ H1 H2 H3 H4). }
  change Sample.dealt_state with (at_ 0%nat).
  do 7 (apply Hstep;
          [vm_compute; reflexivity
          | apply (bool_decide_unpack _); vm_compute; exact I
          | vm_compute; reflexivity |]).
  change (at_ 7%nat)
    with (Sample.state_of (Sample.plain_deal ++ Sample.long_auction)).
  apply auction_run_nil.
Qed.

(** X14, on an auction of seven actions from its start, the greatest
    length for three bid levels. *)
Lemma auction_is_short_witness :
  let s := Sample.dealt_state in
  let acts := Sample.long_auction in
  let s' := Sample.state_of (Sample.plain_deal ++ Sample.long_auction) in
  (@header_ok Sample.header /\ 1 <= @kNumBids Sample.header /\
   @reachable Sample.header s /\ phase_ s = kAuction /\
   @auction_run Sample.header s acts s') /\
  Z.of_nat (length acts) = 7 /\
  Z.of_nat (length acts) <= 2 * @kNumBids Sample.header + 1.
Proof.
  intros s acts s'.
  assert (1 <= @kNumBids Sample.header) as HK by (vm_compute; discriminate).
  assert (phase_ s = kAuction) as Hph by (vm_compute; reflexivity).
  split;
    [exact (conj Sample_header_ok (conj HK (conj dealt_state_reachable
              (conj Hph long_auction_run)))) |].
  split; [reflexivity |].
  exact (proj2 (@auction_is_short Sample.header s s' acts Sample_header_ok
                  HK dealt_state_reachable Hph long_auction_run)).
Defined.

(** X9, on the open first trick: the landlord, seat 0, is to act. *)
Lemma acting_player_is_a_seat_witness :
  let s := Sample.open_trick_state in
  (@header_ok Sample.header /\ @search_sound Sample.header /\
   @reachable Sample.header s /\ phase_ s = kPlay) /\
  seat (@CurrentPlayer Sample.header s) /\
  seat (dizhu_ s) /\
  (exists trick, CurrentTrick s = Ok trick) /\
  exists l, @LegalActions Sample.header s = Ok l.
Proof.
  intros s.
  assert (phase_ s = kPlay) as Hph by (vm_compute; reflexivity).
  split;
    [exact (conj Sample_header_ok (conj Sample_search_sound
              (conj open_trick_state_reachable Hph))) |].
  destruct (@acting_player_is_a_seat Sample.header s Sample_header_ok
              Sample_search_sound open_trick_state_reachable)
    as (Hcur & Hplay & Hlegal).
  split; [exact (Hcur (or_intror Hph)) |].
  split; [exact (proj1 (Hplay Hph)) |].
  split; [exact (proj2 (Hplay Hph)) | exact Hlegal].
Defined.

(** X10, on the landlord leading a card of rank 0. *)
Lemma legal_actions_always_apply_witness :
  let s := Sample.landlord_state in
  let act := Sample.Solo 0 in
  (@header_ok Sample.header /\
   @kDealingActionBase Sample.header
     <= @kNumCards Sample.header - @kNumCardsLeftOver Sample.header /\
   @search_sound Sample.header /\
   @reachable Sample.header s /\ @legal Sample.header s act) /\
  exists s',
    @ApplyAction Sample.header s act = Ok s' /\ @reachable Sample.header s'.
Proof.
  intros s act.
  assert (@kDealingActionBase Sample.header
            <= @kNumCards Sample.header - @kNumCardsLeftOver Sample.header)
    as Hbase by (vm_compute; discriminate).
  assert (@legal Sample.header s act) as Hlegal
    by (apply legalb_legal; vm_compute; reflexivity).
  split;
    [exact (conj Sample_header_ok (conj Hbase (conj Sample_search_sound
              (conj landlord_state_reachable Hlegal)))) |].
  exact (@legal_actions_always_apply Sample.header s act Sample_header_ok
           Hbase Sample_search_sound landlord_state_reachable Hlegal).
Defined.

(** X19, on the landlord leading the rocket. *)
Lemma play_counters_witness :
  let s := Sample.landlord_state in
  let act := Sample.kRocketActionBase in
  let s' := Sample.applied s act in
  (phase_ s = kPlay /\ @DoApplyAction Sample.header s act = Ok s') /\
  num_played_ s' = 1 /\
  bombs_played_ s' = 1 /\
  dizhu_ s' = 0 /\
  winning_bid_ s' = 1.
Proof.
  intros s act s'.
  assert (phase_ s = kPlay) as Hph by (vm_compute; reflexivity).
  assert (@DoApplyAction Sample.header s act = Ok s') as E
    by (vm_compute; reflexivity).
  split; [exact (conj Hph E) |].
  destruct (@play_counters Sample.header s s' act Hph E)
    as (Hn & Hb & Hd & Hw).
  split; [etransitivity; [exact Hn | vm_compute; reflexivity] |].
  split; [etransitivity; [exact Hb | vm_compute; reflexivity] |].
  split; [etransitivity; [exact Hd | vm_compute; reflexivity] |].
  etransitivity; [exact Hw | vm_compute; reflexivity].
Defined.

(** X17, for four suits and the landlord's view of the open first trick:
    holding the colored joker with one card of rank 0 played is written
    like not holding it with two cards of rank 0 played. *)
Lemma tensor_confuses_last_rank_held_with_first_rank_played_witness :
  let sA := Sample.open_trick_state in
  let sB := Sample.other_open_trick_state in
  let handA := [1; 1; 1; 2; 1; 1; 2; 1; 1; 2; 1; 1; 2; 1; 1] in
  let handB := <[14%nat := 0]> handA in
  let values := replicate 159 0 in
  (2 <= @kNumRanks Sample.header /\
   phase_ sA = phase_ sB /\ dizhu_ sA = dizhu_ sB /\
   first_player_ sA = first_player_ sB /\
   card_rank_face_up_ sA = card_rank_face_up_ sB /\
   arr_get (holds_ sA) 0 = Ok handA /\ arr_get (holds_ sB) 0 = Ok handB /\
   length handA = Z.to_nat (@kNumRanks Sample.header) /\
   length handB = Z.to_nat (@kNumRanks Sample.header) /\
   length (played_deck_ sA) = Z.to_nat (@kNumRanks Sample.header) /\
   length (played_deck_ sB) = Z.to_nat (@kNumRanks Sample.header) /\
   (forall i, 0 <= i < @kNumRanks Sample.header - 1 ->
      rd handA i = rd handB i) /\
   (forall i, 1 <= i < @kNumRanks Sample.header ->
      rd (played_deck_ sA) i = rd (played_deck_ sB) i) /\
   rd (played_deck_ sA) 0
     = rd handB (@kNumRanks Sample.header - 1) + Sample.kNumSuits - 3 /\
   rd (played_deck_ sB) 0
     = rd handA (@kNumRanks Sample.header - 1) + Sample.kNumSuits - 3) /\
  holds_ sA <> holds_ sB /\
  @WriteObservationTensor Sample.header Sample.kNumSuits sA 0 values
  = @WriteObservationTensor Sample.header Sample.kNumSuits sB 0 values.
Proof.
  intros sA sB handA handB values.
  assert (2 <= @kNumRanks Sample.header) as H1 by (vm_compute; discriminate).
  assert (phase_ sA = phase_ sB) as H2 by (vm_compute; reflexivity).
  assert (dizhu_ sA = dizhu_ sB) as H3 by (vm_compute; reflexivity).
  assert (first_player_ sA = first_player_ sB) as H4
    by (vm_compute; reflexivity).
  assert (card_rank_face_up_ sA = card_rank_face_up_ sB) as H5
    by (vm_compute; reflexivity).
  assert (arr_get (holds_ sA) 0 = Ok handA) as H6
    by (vm_compute; reflexivity).
  assert (arr_get (holds_ sB) 0 = Ok handB) as H7
    by (vm_compute; reflexivity).
  assert (length handA = Z.to_nat (@kNumRanks Sample.header)) as H8
    by (vm_compute; reflexivity).
  assert (length handB = Z.to_nat (@kNumRanks Sample.header)) as H9
    by (vm_compute; reflexivity).
  assert (length (played_deck_ sA) = Z.to_nat (@kNumRanks Sample.header))
    as H10 by (vm_compute; reflexivity).
  assert (length (played_deck_ sB) = Z.to_nat (@kNumRanks Sample.header))
    as H11 by (vm_compute; reflexivity).
  assert (forall i, 0 <= i < @kNumRanks Sample.header - 1 ->
            rd handA i = rd handB i) as H12.
  { intros i Hi. change (@kNumRanks Sample.header - 1) with 14 in Hi.
    symmetry. apply rd_insert_ne. lia. }
  assert (played_deck_ sB = <[0%nat := 2]> (played_deck_ sA)) as Hpl
    by (vm_compute; reflexivity).
  assert (forall i, 1 <= i < @kNumRanks Sample.header ->
            rd (played_deck_ sA) i = rd (played_deck_ sB) i) as H13.
  { intros i Hi. etransitivity;
      [| symmetry; exact (f_equal (fun l => rd l i) Hpl)].
    symmetry. apply rd_insert_ne. lia. }
  assert (rd (played_deck_ sA) 0
          = rd handB (@kNumRanks Sample.header - 1) + Sample.kNumSuits - 3)
    as H14 by (vm_compute; reflexivity).
  assert (rd (played_deck_ sB) 0
          = rd handA (@kNumRanks Sample.header - 1) + Sample.kNumSuits - 3)
    as H15 by (vm_compute; reflexivity).
  split;
    [exact (conj H1 (conj H2 (conj H3 (conj H4 (conj H5 (conj H6 (conj H7
              (conj H8 (conj H9 (conj H10 (conj H11 (conj H12 (conj H13
                (conj H14 H15)))))))))))))) |].
  split; [vm_compute; discriminate |].
  exact (@tensor_confuses_last_rank_held_with_first_rank_played
           Sample.header Sample.kNumSuits sA sB 0 handA handB values
           H1 H2 H3 H4 H5 H6 H7 H8 H9 H10 H11 H12 H13 H14 H15).
Defined.

(** X20, on the auction of seven actions: seat 0 makes the last bid, at
    level 3, and is the landlord. *)
Lemma landlord_made_the_last_bid_witness :
  let s := Sample.dealt_state in
  let acts := Sample.long_auction in
  let s' := Sample.state_of (Sample.plain_deal ++ Sample.long_auction) in
  @auction_run Sample.header s acts s' /\
  @bids_of Sample.header s acts = [(2, 1); (1, 2); (0, 3)] /\
  dizhu_ s' = 0 /\
  winning_bid_ s' = 3 /\
  Forall (fun bid => snd bid <= winning_bid_ s')
    (@bids_of Sample.header s acts).
Proof.
  intros s acts s'.
  split; [exact long_auction_run |].
  assert (@bids_of Sample.header s acts = [(2, 1); (1, 2); (0, 3)]) as Hbids
    by (vm_compute; reflexivity).
  split; [exact Hbids |].
  destruct (@landlord_made_the_last_bid Sample.header s s' acts
              long_auction_run) as [Hlast Hall].
  assert (last (@bids_of Sample.header s acts) = Some (0, 3)) as Hl
    by (exact (f_equal last Hbids)).
  destruct (last (@bids_of Sample.header s acts)) as [[p v] |];
    [| discriminate Hl].
  injection Hl as -> ->.
  split; [exact (proj1 Hlast) |]. split; [exact (proj2 Hlast) | exact Hall].
Defined.

(** X21, at the start of the auction: each seat holds 17 of the 51 cards
    dealt. *)
Lemma deal_is_even_witness :
  let s := Sample.dealt_state in
  (@header_ok Sample.header /\
   @kNumCardsLeftOver Sample.header <= @kNumCards Sample.header /\
   @reachable Sample.header s /\ phase_ s = kAuction /\ seat 0) /\
  hand_size s 0 = 17 /\
  forall q, seat q -> -1 <= hand_size s 0 - hand_size s q <= 1.
Proof.
  intros s.
  assert (@kNumCardsLeftOver Sample.header <= @kNumCards Sample.header)
    as Hle by (vm_compute; discriminate).
  assert (phase_ s = kAuction) as Hph by (vm_compute; reflexivity).
  assert (seat 0) as Hseat
    by (vm_compute; split; [discriminate | reflexivity]).
  split;
    [exact (conj Sample_header_ok (conj Hle (conj dealt_state_reachable
              (conj Hph Hseat)))) |].
  destruct (@deal_is_even Sample.header s 0 Sample_header_ok Hle
              dealt_state_reachable Hph Hseat) as [Hsize Hdiff].
  split; [etransitivity; [exact Hsize | vm_compute; reflexivity] |].
  exact Hdiff.
Defined.

(** X22, on the pass that makes seat 0 the landlord: seat 0 starts the
    play phase with 20 cards, seat 1 with 17. *)
Lemma landlord_starts_with_the_left_over_cards_witness :
  let s := Sample.bid1_pass_state in
  let s' := Sample.landlord_state in
  (@header_ok Sample.header /\
   @kNumCardsLeftOver Sample.header <= @kNumCards Sample.header /\
   @reachable Sample.header s /\ phase_ s = kAuction /\
   @ApplyAction Sample.header s Sample.kPass = Ok s' /\
   phase_ s' = kPlay /\ seat 0 /\ seat 1) /\
  hand_size s' 0 = 20 /\
  hand_size s' 1 = 17.
Proof.
  intros s s'.
  assert (@kNumCardsLeftOver Sample.header <= @kNumCards Sample.header)
    as Hle by (vm_compute; discriminate).
  assert (phase_ s = kAuction) as Hph by (vm_compute; reflexivity).
  assert (@ApplyAction Sample.header s Sample.kPass = Ok s') as E
    by (vm_compute; reflexivity).
  assert (phase_ s' = kPlay) as Hph' by (vm_compute; reflexivity).
  assert (seat 0) as Hseat0
    by (vm_compute; split; [discriminate | reflexivity]).
  assert (seat 1) as Hseat1
    by (vm_compute; split; [discriminate | reflexivity]).
  split;
    [exact (conj Sample_header_ok (conj Hle (conj bid1_pass_state_reachable
              (conj Hph (conj E (conj Hph' (conj Hseat0 Hseat1))))))) |].
  pose proof (@landlord_starts_with_the_left_over_cards Sample.header s s'
                Sample.kPass Sample_header_ok Hle bid1_pass_state_reachable
                Hph E Hph') as H.
  split.
  - etransitivity; [exact (H 0 Hseat0) | vm_compute; reflexivity].
  - etransitivity; [exact (H 1 Hseat1) | vm_compute; reflexivity].
Defined.
